(** * Airflow Mesos executor: offer matching, status tracking, suppression

    A shallow embedding of the Python sources under
    [airflow_mesos_plugin/executors] and the properties of its offer-matching
    scheduler, resource filters, resource merging, status tracker and
    suppression control.

    Conventions of the embedding.
    - Python numbers carried by resources (requirement values, offered scalar
      values) are only ever copied and compared by the source ([<=], [>],
      [==]); they are modelled as canonical rationals [Qc], whose Leibniz
      equality is numeric equality. Not-a-number is outside the model.
    - A Python function that may raise returns a [result]; code that also
      reads or writes the fields of the scheduler and of the executor, logs,
      or calls the driver, runs in the monad [M] over the record [World].
    - Protocol-buffer messages ([Offer], [Resource], [TaskStatus],
      [TaskInfo]) are records; they are always truthy in Python, so a test
      such as [if offer:] is a test against [None]. *)

From Stdlib Require Import QArith Qcanon.
From stdpp Require Import base option list strings gmap numbers pretty.

Local Open Scope string_scope.
Local Open Scope list_scope.

(** ** Exceptions and fallible results *)

Inductive Exception : Type :=
| ValueError (msg : string)
| KeyError (msg : string)
| TypeError (msg : string)
| AttributeError (msg : string)
| NotImplementedError
| GenericException (msg : string).

Inductive result (A : Type) : Type :=
| Ok (a : A)
| Err (e : Exception).
Arguments Ok {A} a.
Arguments Err {A} e.

Definition result_bind {A B} (r : result A) (k : A -> result B) : result B :=
  match r with
  | Ok a => k a
  | Err e => Err e
  end.

Definition remove_error : Exception :=
  ValueError "list.remove(x): x not in list".

(** [list.remove(x)]: drop the first element equal ([==]) to [x];
    [ValueError] when there is none. *)
Fixpoint list_remove {A} `{EqDecision A} (x : A) (l : list A)
  : result (list A) :=
  match l with
  | [] => Err remove_error
  | y :: l' =>
      if bool_decide (y = x) then Ok l'
      else result_bind (list_remove x l') (fun r => Ok (y :: r))
  end.

(** ** Messages of the cluster manager *)

(** Modelled from the spec: the kinds of a resource value that
    [mesos_pb2.Value] enumerates, as [filter.py] names them (scalar, single
    range, range set, set, text). The module [mesos_pb2] is not part of the
    sources. *)
Inductive ValueType : Type := SCALAR | RANGE | RANGES | SET | TEXT.

Record Range : Type := { r_begin : N; r_end : N }.

(** One named, typed value of an offer. [name], [type], [scalar.value],
    [range] (with [begin] and [end]) and [ranges] are the fields that
    [filter.py] reads of it. *)
Record Resource : Type := {
  rs_name : string;
  rs_type : ValueType;
  rs_scalar : Qc;
  rs_range : Range;
  rs_ranges : list Range
}.

Record Offer : Type := {
  o_id : string;
  o_slave_id : string;
  o_hostname : string;
  o_resources : list Resource
}.

(** Modelled from the spec: the task states of the cluster manager
    ([mesos_pb2], not part of the sources): the success state, the four
    failure states that [statusUpdate] names, the further terminal kinds it
    leaves in a comment or does not name, and the states before them. *)
Inductive TaskState : Type :=
| TASK_STAGING | TASK_STARTING | TASK_RUNNING | TASK_KILLING
| TASK_FINISHED | TASK_FAILED | TASK_KILLED | TASK_ERROR | TASK_LOST
| TASK_DROPPED | TASK_UNREACHABLE | TASK_GONE | TASK_GONE_BY_OPERATOR
| TASK_UNKNOWN.

Record TaskStatus : Type := {
  ts_task_id : string;
  ts_state : TaskState;
  ts_reason : N;
  ts_message : string
}.

Record CommandInfo : Type := { ci_shell : bool; ci_value : string }.

Record TaskInfo : Type := {
  ti_task_id : string;
  ti_name : string;
  ti_slave_id : string;
  ti_resources : list Resource;
  ti_command : option CommandInfo
}.

#[global] Instance ValueType_eq_dec : EqDecision ValueType.
Proof. solve_decision. Defined.
#[global] Instance Range_eq_dec : EqDecision Range.
Proof. solve_decision. Defined.
#[global] Instance Resource_eq_dec : EqDecision Resource.
Proof. solve_decision. Defined.
#[global] Instance Offer_eq_dec : EqDecision Offer.
Proof. solve_decision. Defined.
#[global] Instance TaskState_eq_dec : EqDecision TaskState.
Proof. solve_decision. Defined.

(** ** filter.py *)

(** [AirflowMesosFilterMode] *)
Definition INCLUDE : string := "include".
Definition EXCLUDE : string := "exclude".

(** [AirflowMesosFilter] and its three subclasses. *)
#[local] Unset Elimination Schemes.
Inductive AirflowMesosFilter : Type :=
| AirflowMesosOfferFilter (filters : list AirflowMesosFilter)
| AirflowMesosResourceFilter (name : string) (value : Qc) (mode : string)
| AirflowMesosHostnameFilter (hostnames : list string) (exclude : bool).
#[local] Set Elimination Schemes.

(** [get_resource]: the offer's resources of the filter's name; more than
    one is an error, none is [None]. *)
Definition get_resource (name : string) (offer : Offer)
  : result (option Resource) :=
  let found := filter (fun resource => rs_name resource = name)
                      (o_resources offer) in
  if bool_decide (1 < length found) then
    Err (GenericException "Found more than one resource for name")
  else if bool_decide (length found < 1) then Ok None
  else Ok (head found).

Definition check_scalar (value : Qc) (mode : string)
  (offer_resource : Resource) : result bool :=
  let resource_value := rs_scalar offer_resource in
  if bool_decide (mode = INCLUDE) then
    Ok (bool_decide (value <= resource_value)%Qc)
  else if bool_decide (mode = EXCLUDE) then
    Ok (bool_decide (resource_value < value)%Qc)
  else Err (GenericException "Unknown mode").

Definition in_range (value : Qc) (resource_range : Range) : bool :=
  bool_decide (Qc_of_Z (Z.of_N (r_begin resource_range)) <= value)%Qc
  && bool_decide (value <= Qc_of_Z (Z.of_N (r_end resource_range)))%Qc.

Definition check_range (value : Qc) (mode : string)
  (offer_resource : Resource) : result bool :=
  let in_range := in_range value (rs_range offer_resource) in
  if bool_decide (mode = INCLUDE) then Ok in_range
  else if bool_decide (mode = EXCLUDE) then Ok (negb in_range)
  else Err (GenericException "Only 'include' and 'exclude' are supported.").

Definition check_ranges (value : Qc) (mode : string)
  (offer_resource : Resource) : result bool :=
  let in_range := existsb (in_range value) (rs_ranges offer_resource) in
  if bool_decide (mode = INCLUDE) then Ok in_range
  else if bool_decide (mode = EXCLUDE) then Ok (negb in_range)
  else Err (GenericException "Only 'include' and 'exclude' are supported.").

Definition check_set (offer_resource : Resource) : result bool :=
  Err NotImplementedError.

Definition check_text (offer_resource : Resource) : result bool :=
  Err NotImplementedError.

(** [AirflowMesosResourceFilter.check]. The last [else] of the source
    (a type outside the enumeration) has no value of [ValueType]. *)
Definition check_resource (name : string) (value : Qc) (mode : string)
  (offer : Offer) : result bool :=
  result_bind (get_resource name offer) (fun offer_resource =>
    match offer_resource with
    | None => Ok false
    | Some offer_resource =>
        match rs_type offer_resource with
        | SCALAR => check_scalar value mode offer_resource
        | RANGE => check_range value mode offer_resource
        | RANGES => check_ranges value mode offer_resource
        | SET => check_set offer_resource
        | TEXT => check_text offer_resource
        end
    end).

Definition check_hostname (hostnames : list string) (exclude : bool)
  (offer : Offer) : result bool :=
  let has_hostname := bool_decide (o_hostname offer ∈ hostnames)
                      || bool_decide ("*" ∈ hostnames) in
  if negb exclude then Ok has_hostname else Ok (negb has_hostname).

(** [check], by class. The composite filter stops at the first constituent
    that does not match. *)
Fixpoint check (f : AirflowMesosFilter) (offer : Offer) : result bool :=
  match f with
  | AirflowMesosOfferFilter filters =>
      (fix check_all (fs : list AirflowMesosFilter) : result bool :=
         match fs with
         | [] => Ok true
         | offer_filter :: fs' =>
             result_bind (check offer_filter offer) (fun matched =>
               if negb matched then Ok false else check_all fs')
         end) filters
  | AirflowMesosResourceFilter name value mode =>
      check_resource name value mode offer
  | AirflowMesosHostnameFilter hostnames exclude =>
      check_hostname hostnames exclude offer
  end.

(** ** resource.py *)

(** The [value] of a [MesosHostnameResource] is either one host name or an
    iterable of host names ([to_filter] wraps the former in a list). *)
Inductive hostvalue : Type :=
| HostOne (h : string)
| HostMany (hs : list string).

(** [MesosResource] by subclass. A scalar resource has the attributes
    [name] and [value]; a hostname resource has [name] (always
    ['hostname']), [value] and [exclude]. *)
Inductive MesosResource : Type :=
| MesosScalarResource (name : string) (value : Qc)
| MesosHostnameResource (value : hostvalue) (exclude : bool).

Definition res_name (r : MesosResource) : string :=
  match r with
  | MesosScalarResource n _ => n
  | MesosHostnameResource _ _ => "hostname"
  end.

(** [MesosResource.__eq__] is equality of the attribute dictionaries: two
    scalars are equal when name and value are, two hostname resources when
    value and exclude are, and a scalar never equals a hostname resource
    (the key sets differ). On this representation it is Leibniz equality. *)
#[global] Instance hostvalue_eq_dec : EqDecision hostvalue.
Proof. solve_decision. Defined.
#[global] Instance MesosResource_eq_dec : EqDecision MesosResource.
Proof. solve_decision. Defined.

(** [add]: a scalar resource appends itself to the task's resources; a
    hostname resource adds nothing. *)
Definition add (r : MesosResource) (mesos_task : TaskInfo) : TaskInfo :=
  match r with
  | MesosScalarResource name value =>
      {| ti_task_id := ti_task_id mesos_task;
         ti_name := ti_name mesos_task;
         ti_slave_id := ti_slave_id mesos_task;
         ti_resources := ti_resources mesos_task ++
           [{| rs_name := name; rs_type := SCALAR; rs_scalar := value;
               rs_range := {| r_begin := 0; r_end := 0 |};
               rs_ranges := [] |}];
         ti_command := ti_command mesos_task |}
  | MesosHostnameResource _ _ => mesos_task
  end.

(** [to_filter]: the mode of a resource filter built here is the default,
    [INCLUDE]. *)
Definition to_filter (r : MesosResource) : AirflowMesosFilter :=
  match r with
  | MesosScalarResource name value =>
      AirflowMesosResourceFilter name value INCLUDE
  | MesosHostnameResource value exclude =>
      let l := match value with
               | HostOne h => [h]
               | HostMany hs => hs
               end in
      AirflowMesosHostnameFilter l exclude
  end.

(** The two configuration options [default_resources] parses, each already
    decoded from JSON into keyword arguments; [None] when the option is not
    set. *)
Record HostnameKwargs : Type := {
  hk_value : hostvalue;
  hk_exclude : option bool
}.

Record ResourceKwargs : Type := {
  rk_type : string;
  rk_name : string;
  rk_value : Qc
}.

Record Config : Type := {
  DEFAULT_HOSTNAMES : option (list HostnameKwargs);
  DEFAULT_RESOURCES : option (list ResourceKwargs)
}.

Fixpoint default_scalars (l : list ResourceKwargs)
  : result (list MesosResource) :=
  match l with
  | [] => Ok []
  | kwargs :: l' =>
      if bool_decide (rk_type kwargs = "scalar") then
        result_bind (default_scalars l') (fun rest =>
          Ok (MesosScalarResource (rk_name kwargs) (rk_value kwargs) :: rest))
      else Err (KeyError "type")
  end.

Definition default_resources (config : Config) : result (list MesosResource) :=
  let hostnames :=
    (fun kwargs => MesosHostnameResource (hk_value kwargs)
                     (default false (hk_exclude kwargs)))
    <$> default [] (DEFAULT_HOSTNAMES config) in
  result_bind (default_scalars (default [] (DEFAULT_RESOURCES config)))
    (fun scalars => Ok (hostnames ++ scalars)).

Definition same_name (a b : MesosResource) : bool :=
  bool_decide (res_name a = res_name b).

(** The inner loop of [merge_resources] for one [task_resource]. *)
Fixpoint merge_inner (task_resource : MesosResource)
  (default_resources resources : list MesosResource)
  : result (list MesosResource) :=
  match default_resources with
  | [] => Ok resources
  | default_resource :: rest =>
      if same_name task_resource default_resource
      then result_bind (list_remove default_resource resources)
             (merge_inner task_resource rest)
      else merge_inner task_resource rest resources
  end.

(** The outer loop of [merge_resources], [resources] being the list built
    so far. *)
Fixpoint merge_outer (default_resources task_resources resources
  : list MesosResource) : result (list MesosResource) :=
  match task_resources with
  | [] => Ok resources
  | task_resource :: rest =>
      result_bind (merge_inner task_resource default_resources resources)
        (fun resources' =>
           merge_outer default_resources rest (resources' ++ [task_resource]))
  end.

Definition merge_resources (default_resources task_resources
  : list MesosResource) : result (list MesosResource) :=
  merge_outer default_resources task_resources default_resources.


(** ** scheduler.py: data *)

(** A [datetime], and the two renderings of it the scheduler uses. *)
Record datetime : Type := {
  year : N; month : N; day : N;
  hour : N; minute : N; second : N; microsecond : N
}.

(** The key of a task instance: [(dag_id, task_id, execution_date)]. *)
Record Key : Type := {
  k_dag_id : string;
  k_task_id : string;
  k_execution_date : datetime
}.

#[global] Instance datetime_eq_dec : EqDecision datetime.
Proof. solve_decision. Defined.
#[global] Instance Key_eq_dec : EqDecision Key.
Proof. solve_decision. Defined.

#[global] Instance datetime_countable : Countable datetime.
Proof.
  refine (inj_countable'
            (fun d => (year d, month d, day d, hour d, minute d, second d,
                       microsecond d))
            (fun t => let '(y, mo, d, h, mi, s, us) := t in
                      {| year := y; month := mo; day := d; hour := h;
                         minute := mi; second := s; microsecond := us |}) _).
  by intros [].
Defined.

#[global] Instance Key_countable : Countable Key.
Proof.
  refine (inj_countable'
            (fun k => (k_dag_id k, k_task_id k, k_execution_date k))
            (fun t => let '(dag_id, task_id, execution_date) := t in
                      {| k_dag_id := dag_id; k_task_id := task_id;
                         k_execution_date := execution_date |}) _).
  by intros [].
Defined.

(** The operator of a DAG file; [mesos_resources] is [None] when the
    operator has no such attribute. *)
Record OperatorTask : Type := {
  op_task_id : string;
  mesos_resources : option (list MesosResource)
}.

(** A task instance, with the attribute [operator_task] that
    [get_operator_task] sets on it the first time. *)
Record TaskInstance : Type := {
  tin_dag_id : string;
  tin_task_id : string;
  operator_task : option OperatorTask
}.

(** An element of the queue [scheduler_tasks]:
    [(key, command, task_instance)]. *)
Definition WorkItem : Type := Key * string * TaskInstance.

Definition item_key (t : WorkItem) : Key := t.1.1.
Definition item_command (t : WorkItem) : string := t.1.2.
Definition item_instance (t : WorkItem) : TaskInstance := t.2.

(** Airflow's [State.SUCCESS] and [State.FAILED]. *)
Inductive AirflowState : Type := SUCCESS | FAILED.

(** A value of the dictionary [mesos_task_to_airflow_task]. *)
Record Entry : Type := {
  e_key : Key;
  e_status : option TaskStatus
}.

(** What the scheduler and the executor ask of the driver. *)
Inductive DriverCall : Type :=
| launchTasks (offerIds : list string) (tasks : list TaskInfo)
| reconcileTasks (statuses : list TaskStatus)
| suppressOffers
| reviveOffers.

Inductive Level : Type := DEBUG | INFO | WARNING | ERROR.

Inductive LogMsg : Type :=
| MsgReceivedOffers (offers : nat) (queued : nat) (plus_one : bool)
| MsgUnableFindOffer (key : Key)
| MsgRoundError (err : Exception)
| MsgUnrecognisedTask (task_id : string)
| MsgStatus (key : Key) (old : option TaskState) (new : TaskState)
    (reason : N) (message : string)
| MsgReconcile (keys : list Key)
| MsgAttempt (key : Key) (needed : list MesosResource)
| MsgFoundOffer (offer_id : string) (key : Key) (task_id : string)
| MsgNoSuitableOffer (key : Key)
| MsgReloadDag (dag_id task_id : string)
| MsgNoOperator (dag_id task_id : string)
| MsgSuppressing
| MsgReviving.

(** What the code reads from outside: the configuration and, by DAG id, the
    operators of the DAG file that the database and the [DagBag] give. *)
Record Env : Type := {
  config : Config;
  dag_files : gmap string (list OperatorTask)
}.

(** The fields of [AirflowMesosScheduler] and [MesosExecutor] that the
    modelled methods touch (the two queues and the dictionary are shared by
    both objects), the calls the driver has received and the log, oldest
    first. The head of a queue is the element the next [get()] returns. *)
Record World : Type := {
  scheduler_tasks : list WorkItem;
  scheduler_results : list (Key * AirflowState);
  current_task : option WorkItem;
  mesos_task_to_airflow_task : gmap string Entry;
  task_counter : N;
  suppressed : bool;
  driver : list DriverCall;
  log : list (Level * LogMsg)
}.

Definition set_scheduler_tasks (v : list WorkItem) (w : World) : World :=
  {| scheduler_tasks := v; scheduler_results := scheduler_results w;
     current_task := current_task w;
     mesos_task_to_airflow_task := mesos_task_to_airflow_task w;
     task_counter := task_counter w; suppressed := suppressed w;
     driver := driver w; log := log w |}.

Definition set_scheduler_results (v : list (Key * AirflowState)) (w : World)
  : World :=
  {| scheduler_tasks := scheduler_tasks w; scheduler_results := v;
     current_task := current_task w;
     mesos_task_to_airflow_task := mesos_task_to_airflow_task w;
     task_counter := task_counter w; suppressed := suppressed w;
     driver := driver w; log := log w |}.

Definition set_current_task (v : option WorkItem) (w : World) : World :=
  {| scheduler_tasks := scheduler_tasks w;
     scheduler_results := scheduler_results w;
     current_task := v;
     mesos_task_to_airflow_task := mesos_task_to_airflow_task w;
     task_counter := task_counter w; suppressed := suppressed w;
     driver := driver w; log := log w |}.

Definition set_mesos_task_to_airflow_task (v : gmap string Entry) (w : World)
  : World :=
  {| scheduler_tasks := scheduler_tasks w;
     scheduler_results := scheduler_results w;
     current_task := current_task w;
     mesos_task_to_airflow_task := v;
     task_counter := task_counter w; suppressed := suppressed w;
     driver := driver w; log := log w |}.

Definition set_task_counter (v : N) (w : World) : World :=
  {| scheduler_tasks := scheduler_tasks w;
     scheduler_results := scheduler_results w;
     current_task := current_task w;
     mesos_task_to_airflow_task := mesos_task_to_airflow_task w;
     task_counter := v; suppressed := suppressed w;
     driver := driver w; log := log w |}.

Definition set_suppressed (v : bool) (w : World) : World :=
  {| scheduler_tasks := scheduler_tasks w;
     scheduler_results := scheduler_results w;
     current_task := current_task w;
     mesos_task_to_airflow_task := mesos_task_to_airflow_task w;
     task_counter := task_counter w; suppressed := v;
     driver := driver w; log := log w |}.

Definition set_driver (v : list DriverCall) (w : World) : World :=
  {| scheduler_tasks := scheduler_tasks w;
     scheduler_results := scheduler_results w;
     current_task := current_task w;
     mesos_task_to_airflow_task := mesos_task_to_airflow_task w;
     task_counter := task_counter w; suppressed := suppressed w;
     driver := v; log := log w |}.

Definition set_log (v : list (Level * LogMsg)) (w : World) : World :=
  {| scheduler_tasks := scheduler_tasks w;
     scheduler_results := scheduler_results w;
     current_task := current_task w;
     mesos_task_to_airflow_task := mesos_task_to_airflow_task w;
     task_counter := task_counter w; suppressed := suppressed w;
     driver := driver w; log := v |}.

(** ** The monad of the stateful code *)

(** A call returns, raises, or does not come back (a loop that has used up
    its fuel, or [Queue.get()] blocking on an empty queue). *)
Inductive Outcome (A : Type) : Type :=
| Return (a : A)
| Raise (e : Exception)
| Diverge.
Arguments Return {A} a.
Arguments Raise {A} e.
Arguments Diverge {A}.

Definition M (A : Type) : Type := World -> Outcome A * World.

#[global] Instance M_ret : MRet M := fun A a w => (Return a, w).

#[global] Instance M_bind : MBind M := fun A B k m w =>
  match m w with
  | (Return a, w') => k a w'
  | (Raise e, w') => (Raise e, w')
  | (Diverge, w') => (Diverge, w')
  end.

Definition raise {A} (e : Exception) : M A := fun w => (Raise e, w).

Definition diverge {A} : M A := fun w => (Diverge, w).

Definition lift {A} (r : result A) : M A :=
  match r with
  | Ok a => mret a
  | Err e => raise e
  end.

Definition gets {A} (f : World -> A) : M A := fun w => (Return (f w), w).

Definition modify (f : World -> World) : M unit := fun w => (Return tt, f w).

(** [try: body except Exception as err: handler(err)] *)
Definition try_except {A} (body : M A) (handler : Exception -> M A) : M A :=
  fun w =>
    match body w with
    | (Raise err, w') => handler err w'
    | r => r
    end.

Definition logging (level : Level) (msg : LogMsg) : M unit :=
  modify (fun w => set_log (log w ++ [(level, msg)]) w).

Definition driver_call (c : DriverCall) : M unit :=
  modify (fun w => set_driver (driver w ++ [c]) w).

(** [Queue.empty()], [Queue.qsize()], [Queue.get()] and [Queue.put()] on
    [scheduler_tasks], and [put] on [scheduler_results]. *)
Definition scheduler_tasks_empty : M bool :=
  gets (fun w => bool_decide (scheduler_tasks w = [])).

Definition scheduler_tasks_qsize : M nat :=
  gets (fun w => length (scheduler_tasks w)).

Definition scheduler_tasks_get : M WorkItem := fun w =>
  match scheduler_tasks w with
  | [] => (Diverge, w)
  | t :: q => (Return t, set_scheduler_tasks q w)
  end.

Definition scheduler_tasks_put (t : WorkItem) : M unit :=
  modify (fun w => set_scheduler_tasks (scheduler_tasks w ++ [t]) w).

Definition scheduler_results_put (r : Key * AirflowState) : M unit :=
  modify (fun w => set_scheduler_results (scheduler_results w ++ [r]) w).

(** ** scheduler.py: operations *)

(** Left-pad a decimal rendering with zeros, as [%02d] and the like do. *)
Fixpoint zeros (n : nat) : string :=
  match n with
  | O => ""
  | S n' => "0" +:+ zeros n'
  end.

Definition zfill (width : nat) (n : N) : string :=
  let s := pretty n in
  zeros (width - String.length s) +:+ s.

(** [strftime('%Y%m%d%H%M%S%f')]; Python 2 refuses years before 1900. *)
Definition strftime (d : datetime) : result string :=
  if bool_decide (year d < 1900)%N then
    Err (ValueError "year is before 1900")
  else
    Ok (zfill 4 (year d) +:+ zfill 2 (month d) +:+ zfill 2 (day d) +:+
        zfill 2 (hour d) +:+ zfill 2 (minute d) +:+ zfill 2 (second d) +:+
        zfill 6 (microsecond d)).

(** [str] of a [datetime]. *)
Definition datetime_str (d : datetime) : string :=
  zfill 4 (year d) +:+ "-" +:+ zfill 2 (month d) +:+ "-" +:+ zfill 2 (day d)
  +:+ " " +:+ zfill 2 (hour d) +:+ ":" +:+ zfill 2 (minute d) +:+ ":"
  +:+ zfill 2 (second d)
  +:+ (if bool_decide (microsecond d = 0%N) then ""
       else "." +:+ zfill 6 (microsecond d)).

Definition build_task_info (key : Key) (command : string)
  (needed_resources : list MesosResource) (offer : Offer) : M TaskInfo :=
  tid ← gets task_counter;
  modify (set_task_counter (tid + 1)%N);;
  stamp ← lift (strftime (k_execution_date key));
  let task :=
    {| ti_task_id := "airflow:" +:+ pretty tid +:+ ":" +:+ k_dag_id key
                     +:+ ":" +:+ k_task_id key +:+ ":" +:+ stamp;
       ti_name := "AirflowTask { MesosTask: " +:+ pretty tid
                  +:+ ", DAG: " +:+ k_dag_id key
                  +:+ ", TaskID: " +:+ k_task_id key
                  +:+ ", Execution: " +:+ datetime_str (k_execution_date key)
                  +:+ " }";
       ti_slave_id := o_slave_id offer;
       ti_resources := [];
       ti_command := None |} in
  let task := foldl (fun task resource => add resource task)
                    task needed_resources in
  let command_info := {| ci_shell := true; ci_value := command |} in
  mret {| ti_task_id := ti_task_id task; ti_name := ti_name task;
          ti_slave_id := ti_slave_id task;
          ti_resources := ti_resources task;
          ti_command := Some command_info |}.

(** [find_offer]: the first offer, in the order of the list, that the
    composite filter of the needed resources accepts. *)
Fixpoint find_first (offer_filter : AirflowMesosFilter) (offers : list Offer)
  : result (option Offer) :=
  match offers with
  | [] => Ok None
  | offer :: offers' =>
      result_bind (check offer_filter offer) (fun matched =>
        if matched then Ok (Some offer) else find_first offer_filter offers')
  end.

Definition find_offer (offers : list Offer)
  (needed_resources : list MesosResource) : result (option Offer) :=
  let offer_filter := AirflowMesosOfferFilter (to_filter <$> needed_resources) in
  find_first offer_filter offers.

(** [get_operator_task]. The operator is looked up on the current task's
    instance first; otherwise the DAG file is loaded again, which fails when
    the DAG is not to be found, and the operator found is kept on the
    instance. The result [None] is the bare [object()]. *)
Definition get_operator_task (env : Env) (task_instance : TaskInstance)
  : M (option OperatorTask) :=
  current ← gets current_task;
  match current with
  | None => raise (TypeError "'NoneType' object has no attribute '__getitem__'")
  | Some (key, command, instance) =>
      match operator_task instance with
      | Some cached => mret (Some cached)
      | None =>
          let dag_id := tin_dag_id task_instance in
          let task_id := tin_task_id task_instance in
          logging INFO (MsgReloadDag dag_id task_id);;
          match dag_files env !! dag_id with
          | None => raise (AttributeError "'NoneType' object has no attribute")
          | Some tasks =>
              match list_find (fun dag_task => op_task_id dag_task = task_id)
                              tasks with
              | Some (_, dag_task) =>
                  modify (set_current_task
                            (Some (key, command,
                                   {| tin_dag_id := tin_dag_id instance;
                                      tin_task_id := tin_task_id instance;
                                      operator_task := Some dag_task |})));;
                  mret (Some dag_task)
              | None =>
                  logging ERROR (MsgNoOperator dag_id task_id);;
                  mret None
              end
          end
      end
  end.

Definition get_operator_mesos_resources (env : Env)
  (task_instance : TaskInstance) : M (list MesosResource) :=
  needed_resources ← lift (default_resources (config env));
  operator_task ← get_operator_task env task_instance;
  match operator_task ≫= mesos_resources with
  | Some task_resources =>
      lift (merge_resources needed_resources task_resources)
  | None => mret needed_resources
  end.

Definition launch_current_task (env : Env) (offers : list Offer)
  : M (option Offer) :=
  current ← gets current_task;
  match current with
  | None => raise (TypeError "'NoneType' object is not iterable")
  | Some (key, command, task_instance) =>
      needed_resources ← get_operator_mesos_resources env task_instance;
      logging INFO (MsgAttempt key needed_resources);;
      offer ← lift (find_offer offers needed_resources);
      match offer with
      | Some offer =>
          task_info ← build_task_info key command needed_resources offer;
          logging INFO (MsgFoundOffer (o_id offer) key (ti_task_id task_info));;
          driver_call (launchTasks [o_id offer] [task_info]);;
          modify (fun w => set_mesos_task_to_airflow_task
                    (<[ti_task_id task_info :=
                         {| e_key := key; e_status := None |}]>
                       (mesos_task_to_airflow_task w)) w);;
          mret (Some offer)
      | None =>
          logging INFO (MsgNoSuitableOffer key);;
          mret None
      end
  end.

(** The [while] loop of [resourceOffers]; it returns the offers left in
    [available_offers]. Each turn that goes on takes one offer out of the
    list, so [fuel] at least the length of the list is never used up. *)
Fixpoint resourceOffers_loop (fuel : nat) (env : Env)
  (available_offers : list Offer) : M (list Offer) :=
  empty ← scheduler_tasks_empty;
  current ← gets current_task;
  if (negb empty || bool_decide (is_Some current))
     && bool_decide (0 < length available_offers) then
    match fuel with
    | O => diverge
    | S fuel' =>
        (if bool_decide (is_Some current) then mret tt
         else task ← scheduler_tasks_get;
              modify (set_current_task (Some task)));;
        on_offer ← launch_current_task env available_offers;
        match on_offer with
        | Some on_offer =>
            modify (set_current_task None);;
            available_offers ← lift (list_remove on_offer available_offers);
            resourceOffers_loop fuel' env available_offers
        | None =>
            current ← gets current_task;
            match current with
            | Some task =>
                logging INFO (MsgUnableFindOffer (item_key task));;
                mret available_offers
            | None =>
                raise (TypeError "'NoneType' object has no attribute '__getitem__'")
            end
        end
    end
  else mret available_offers.

(** The body of the [try] of [resourceOffers]. *)
Definition resourceOffers_try (env : Env) (offers : list Offer) : M unit :=
  let available_offers := offers in
  empty ← scheduler_tasks_empty;
  current ← gets current_task;
  qsize ← scheduler_tasks_qsize;
  logging (if negb empty || bool_decide (is_Some current) then INFO else DEBUG)
    (MsgReceivedOffers (length available_offers) qsize
       (bool_decide (is_Some current)));;
  available_offers ← resourceOffers_loop (length offers) env available_offers;
  driver_call (launchTasks (o_id <$> available_offers) []).

Definition resourceOffers (env : Env) (offers : list Offer) : M unit :=
  try_except (resourceOffers_try env offers)
    (fun err =>
       logging ERROR (MsgRoundError err);;
       driver_call (launchTasks (o_id <$> offers) [])).

Definition is_failure_state (s : TaskState) : bool :=
  bool_decide (s ∈ [TASK_FAILED; TASK_KILLED; TASK_ERROR; TASK_LOST]).

Definition statusUpdate (status : TaskStatus) : M unit :=
  let task_id := ts_task_id status in
  tracked ← gets mesos_task_to_airflow_task;
  match tracked !! task_id with
  | None => logging WARNING (MsgUnrecognisedTask task_id)
  | Some d =>
      let key := e_key d in
      let old_status := e_status d in
      modify (fun w => set_mesos_task_to_airflow_task
                (<[task_id := {| e_key := key; e_status := Some status |}]>
                   (mesos_task_to_airflow_task w)) w);;
      (if bool_decide (ts_state status = TASK_FINISHED) then
         modify (fun w => set_mesos_task_to_airflow_task
                   (delete task_id (mesos_task_to_airflow_task w)) w);;
         scheduler_results_put (key, SUCCESS)
       else if is_failure_state (ts_state status) then
         modify (fun w => set_mesos_task_to_airflow_task
                   (delete task_id (mesos_task_to_airflow_task w)) w);;
         scheduler_results_put (key, FAILED)
       else mret tt);;
      match old_status with
      | Some old =>
          if bool_decide (ts_state old <> ts_state status) then
            logging INFO (MsgStatus key (Some (ts_state old)) (ts_state status)
                            (ts_reason status) (ts_message status))
          else mret tt
      | None =>
          logging INFO (MsgStatus key None (ts_state status)
                          (ts_reason status) (ts_message status))
      end
  end.

(** [reconcile]. The order of [values()] of a Python 2 dictionary is not
    specified; the model enumerates the entries as [map_to_list] does. *)
Definition reconcile : M unit :=
  tracked ← gets mesos_task_to_airflow_task;
  if bool_decide (tracked <> ∅) then
    let known_status :=
      filter (fun task => is_Some (e_status task)) (map_to_list tracked).*2 in
    logging DEBUG (MsgReconcile (e_key <$> known_status));;
    driver_call (reconcileTasks (omap e_status known_status))
  else mret tt.

(** ** mesos_executor.py *)

Definition mesos_suppress_revive : M unit :=
  empty ← scheduler_tasks_empty;
  is_suppressed ← gets suppressed;
  (if empty && negb is_suppressed then
     logging INFO MsgSuppressing;;
     modify (set_suppressed true);;
     driver_call suppressOffers
   else mret tt);;
  empty ← scheduler_tasks_empty;
  is_suppressed ← gets suppressed;
  if negb empty && is_suppressed then
    logging INFO MsgReviving;;
    modify (set_suppressed false);;
    driver_call reviveOffers
  else mret tt.

(** [repr] of a key, as the [KeyError] of a dictionary shows it. *)
Definition key_repr (key : Key) : string :=
  "(" +:+ k_dag_id key +:+ ", " +:+ k_task_id key +:+ ", "
  +:+ datetime_str (k_execution_date key) +:+ ")".

(** [execute_async]. The dictionary [queued_task_instances] of the
    executor, from the key of a task instance to the instance that
    [queue_command] kept, is passed in, and the dictionary without the key
    is returned: [pop] raises [KeyError] for a key that is not in it, and
    then nothing is put on the queue. *)
Definition execute_async (key : Key) (command : string)
  (queued_task_instances : gmap Key TaskInstance)
  : M (gmap Key TaskInstance) :=
  match queued_task_instances !! key with
  | None => raise (KeyError (key_repr key))
  | Some task_instance =>
      scheduler_tasks_put (key, command, task_instance);;
      mesos_suppress_revive;;
      mret (delete key queued_task_instances)
  end.

(** ** mesos_support/config.py *)

(** Modelled from the spec: the configuration is loaded by an external
    collaborator. Of Airflow's [configuration] the module [config.py] uses
    [has_option], [get] and [getboolean] on the section [mesos]: the options
    that are set are a finite map from their names to their text, and the
    reading of a text as a truth value, which can fail, is the library's.
    [AirflowException] is an exception with a message. The log records
    that [config.py] writes before it raises are left out. *)
Record Configuration : Type := {
  mesos_options : gmap string string;
  as_boolean : string -> result bool
}.

Definition configuration_has_option (c : Configuration) (key : string) : bool :=
  bool_decide (is_Some (mesos_options c !! key)).

Definition configuration_get (c : Configuration) (key : string)
  : result string :=
  match mesos_options c !! key with
  | Some text => Ok text
  | None => Err (GenericException "section/key not found in config")
  end.

Definition configuration_getboolean (c : Configuration) (key : string)
  : result bool :=
  result_bind (configuration_get c key) (as_boolean c).

Definition DEFAULT_FRAMEWORK_NAME : string := "airflow".
Definition FRAMEWORK_CONNID_PREFIX : string := "mesos_framework_".

Definition config_framework_name (c : Configuration) : result string :=
  if negb (configuration_has_option c "FRAMEWORK_NAME")
  then Ok DEFAULT_FRAMEWORK_NAME
  else configuration_get c "FRAMEWORK_NAME".

Definition config_framework_connid (c : Configuration) : result string :=
  result_bind (config_framework_name c) (fun name =>
    Ok (FRAMEWORK_CONNID_PREFIX +:+ name)).

Definition config_master_url (c : Configuration) : result string :=
  if negb (configuration_has_option c "MASTER")
  then Err (GenericException "mesos.master not provided for mesos executor")
  else configuration_get c "MASTER".

Definition config_framework_checkpoint (c : Configuration) : result bool :=
  if negb (configuration_has_option c "CHECKPOINT")
  then Ok false
  else configuration_getboolean c "CHECKPOINT".

Definition config_framework_failover_timeout (c : Configuration)
  : result (option string) :=
  if negb (configuration_has_option c "FAILOVER_TIMEOUT")
  then Ok None
  else result_bind (configuration_get c "FAILOVER_TIMEOUT") (fun text =>
         Ok (Some text)).

(** Modelled from the spec: the framework identifier is persisted
    externally, keyed by the framework's name. The table of Airflow's
    connections is the list of its rows; [first()] is the first row in
    this order with the [conn_id] asked for, a new object added to the
    session and committed is a new row at the end, and a change to an
    object read from the session changes its row. *)
Record Connection : Type := {
  conn_id : string;
  conn_type : string;
  extra : option string
}.

(** [framework_id_for_failover]. The argument is the value of the
    [frameworkId] message, or [None] when the function is called without
    one; it returns what the Python function returns, with the table. *)
Definition framework_id_for_failover (c : Configuration)
  (frameworkId : option string) (rows : list Connection)
  : result (option string) * list Connection :=
  match config_framework_connid c with
  | Err e => (Err e, rows)
  | Ok cid =>
      let connection := list_find (fun row => conn_id row = cid) rows in
      match frameworkId with
      | Some value =>
          match connection with
          | None =>
              (Ok None,
               rows ++ [{| conn_id := cid;
                           conn_type := FRAMEWORK_CONNID_PREFIX +:+ "_id";
                           extra := Some value |}])
          | Some (i, row) =>
              (Ok None,
               <[i := {| conn_id := conn_id row; conn_type := conn_type row;
                         extra := Some value |}]> rows)
          end
      | None =>
          match connection with
          | None => (Ok None, rows)
          | Some (_, row) => (Ok (extra row), rows)
          end
      end
  end.

Definition config_framework_authenticate (c : Configuration)
  : result (option (string * string)) :=
  result_bind
    (if negb (configuration_has_option c "AUTHENTICATE") then Ok true
     else result_bind (configuration_getboolean c "AUTHENTICATE") (fun b =>
            Ok (negb b)))
    (fun off =>
       if off then Ok None
       else if negb (configuration_has_option c "DEFAULT_PRINCIPAL") then
         Err (GenericException
                "mesos.default_principal not provided in authenticated mode")
       else if negb (configuration_has_option c "DEFAULT_SECRET") then
         Err (GenericException
                "mesos.default_secret not provided in authenticated mode")
       else
         result_bind (configuration_get c "DEFAULT_PRINCIPAL") (fun principal =>
         result_bind (configuration_get c "DEFAULT_SECRET") (fun secret =>
           Ok (Some (principal, secret))))).

(** ** Definitions used by the statements *)

(** The merge as the specification words it: every default whose name
    matches some override is dropped, the other defaults keep their order,
    and the overrides follow in their order. *)
Definition merge_spec (defaults overrides : list MesosResource)
  : list MesosResource :=
  filter (fun d => res_name d ∉ res_name <$> overrides) defaults ++ overrides.

(** Equality of the [value] attributes alone, as Python's [==] has it: a
    number never equals a host name or a list of host names. *)
Definition same_value (a b : MesosResource) : bool :=
  match a, b with
  | MesosScalarResource _ v, MesosScalarResource _ w => bool_decide (v = w)
  | MesosHostnameResource v _, MesosHostnameResource w _ => bool_decide (v = w)
  | _, _ => false
  end.

(** The elements of a list that bear the name [n], in order. *)
Definition named (n : string) (l : list MesosResource) : list MesosResource :=
  filter (fun x => res_name x = n) l.

(** No name of a default is borne by two overrides. *)
Definition unambiguous (defaults overrides : list MesosResource) : Prop :=
  forall n, n ∈ res_name <$> defaults -> length (named n overrides) <= 1.

(** The four states that [statusUpdate] turns into a failure result. *)
Definition terminal_failure (s : TaskState) : Prop :=
  s = TASK_FAILED \/ s = TASK_KILLED \/ s = TASK_ERROR \/ s = TASK_LOST.

(** The keys that the log records as attempted by [launch_current_task],
    oldest first. *)
Definition attempts (l : list (Level * LogMsg)) : list Key :=
  omap (fun record => match record.2 with
                      | MsgAttempt key _ => Some key
                      | _ => None
                      end) l.

(** The work waiting to be matched, in the order the scheduler takes it:
    the current task, if any, then the queue. *)
Definition pending (w : World) : list WorkItem :=
  option_list (current_task w) ++ scheduler_tasks w.

(** The world once the loop of [resourceOffers] has made sure there is a
    current task. *)
Definition take_current (w : World) : World :=
  match current_task w, scheduler_tasks w with
  | None, task :: queue =>
      set_current_task (Some task) (set_scheduler_tasks queue w)
  | _, _ => w
  end.

(** The call by which [launch_current_task] launches one task on one
    offer. *)
Definition launch_call (used : Offer * TaskInfo) : DriverCall :=
  launchTasks [o_id used.1] [used.2].

(** The composite filter of a list of needed resources. *)
Definition offer_filter_of (needed : list MesosResource) : AirflowMesosFilter :=
  AirflowMesosOfferFilter (to_filter <$> needed).

(** The world at the start of the loop of a round: the batch received has
    been logged. *)
Definition round_start (offers : list Offer) (w : World) : World :=
  set_log
    (log w ++
     [(if negb (bool_decide (scheduler_tasks w = []))
          || bool_decide (is_Some (current_task w)) then INFO else DEBUG,
       MsgReceivedOffers (length offers) (length (scheduler_tasks w))
         (bool_decide (is_Some (current_task w))))]) w.

(** [w1] comes from [w] by attempting the keys [ks] and making the driver
    calls [calls], with the queues and the suppression flag untouched and
    the current task, if any, still for the same key. *)
Definition step_frame (ks : list Key) (calls : list DriverCall)
  (w w1 : World) : Prop :=
  scheduler_tasks w1 = scheduler_tasks w
  /\ scheduler_results w1 = scheduler_results w
  /\ suppressed w1 = suppressed w
  /\ driver w1 = driver w ++ calls
  /\ attempts (log w1) = attempts (log w) ++ ks
  /\ item_key <$> current_task w1 = item_key <$> current_task w.

(** The loop of [resourceOffers] goes round when work is pending and the
    pool is not empty. *)
Definition loop_condition (available_offers : list Offer) (w : World) : bool :=
  (negb (bool_decide (scheduler_tasks w = []))
   || bool_decide (is_Some (current_task w)))
  && bool_decide (0 < length available_offers).

(** What a run of the loop from [w] with the pool [avail] has done when it
    ends in [w'] with the outcome [out]: it has come back; it has launched
    the tasks of [used], one driver call for each, on offers of the pool;
    the offers it returns are the rest of the pool; the launched items are
    the first pending ones and the others are still pending in their order;
    and the items attempted are the first [n] pending ones, at most one
    more than were launched. *)
Definition loop_summary (avail : list Offer) (w : World)
  (out : Outcome (list Offer)) (w' : World) : Prop :=
  out <> Diverge
  /\ exists (used : list (Offer * TaskInfo)) (n : nat),
       driver w' = driver w ++ (launch_call <$> used)
       /\ scheduler_results w' = scheduler_results w
       /\ used.*1 ⊆+ avail
       /\ (forall remaining, out = Return remaining ->
             used.*1 ++ remaining ≡ₚ avail /\ sublist remaining avail)
       /\ item_key <$> pending w' = drop (length used) (item_key <$> pending w)
       /\ attempts (log w') = attempts (log w) ++ take n (item_key <$> pending w)
       /\ length used <= n <= length used + 1.

(** The offers and the task ids of a [launchTasks] call. *)
Definition call_summary (c : DriverCall) : list string * list string :=
  match c with
  | launchTasks offerIds tasks => (offerIds, ti_task_id <$> tasks)
  | _ => ([], [])
  end.

(** ** Sample data *)

(** A number written as a fraction. *)
Definition qc (n : Z) (d : positive) : Qc := Q2Qc (n # d).

Definition scalar_resource (name : string) (value : Qc) : Resource :=
  {| rs_name := name; rs_type := SCALAR; rs_scalar := value;
     rs_range := {| r_begin := 0; r_end := 0 |}; rs_ranges := [] |}.

Definition sample_offer (id : string) (cpus : Qc) : Offer :=
  {| o_id := id; o_slave_id := "slave-" +:+ id; o_hostname := "host-" +:+ id;
     o_resources := [scalar_resource "cpus" cpus;
                     scalar_resource "mem" (qc 1024 1)] |}.

Definition sample_date : datetime :=
  {| year := 2017; month := 3; day := 9;
     hour := 14; minute := 5; second := 0; microsecond := 0 |}.

Definition sample_key (task_id : string) : Key :=
  {| k_dag_id := "etl"; k_task_id := task_id; k_execution_date := sample_date |}.

Definition sample_item (task_id : string) : WorkItem :=
  (sample_key task_id, "airflow run etl " +:+ task_id,
   {| tin_dag_id := "etl"; tin_task_id := task_id; operator_task := None |}).

Definition sample_env : Env :=
  {| config := {| DEFAULT_HOSTNAMES := None;
                  DEFAULT_RESOURCES :=
                    Some [{| rk_type := "scalar"; rk_name := "cpus";
                             rk_value := qc 1 10 |};
                          {| rk_type := "scalar"; rk_name := "mem";
                             rk_value := qc 64 1 |}] |};
     dag_files :=
       {[ "etl" :=
            [{| op_task_id := "extract"; mesos_resources := None |};
             {| op_task_id := "load";
                mesos_resources :=
                  Some [MesosScalarResource "cpus" (qc 4 1)] |}] ]} |}.

Definition empty_world : World :=
  {| scheduler_tasks := []; scheduler_results := []; current_task := None;
     mesos_task_to_airflow_task := ∅; task_counter := 0;
     suppressed := false; driver := []; log := [] |}.

Definition sample_status (task_id : string) (state : TaskState) : TaskStatus :=
  {| ts_task_id := task_id; ts_state := state; ts_reason := 0;
     ts_message := "" |}.

(** A world that tracks one launched task with no status yet. *)
Definition tracking_world : World :=
  set_mesos_task_to_airflow_task
    {[ "airflow:0:etl:extract:20170309140500000000" :=
         {| e_key := sample_key "extract"; e_status := None |} ]}
    empty_world.

(** An offer that names the resource [cpus] twice. *)
Definition ambiguous_offer (id : string) : Offer :=
  {| o_id := id; o_slave_id := "slave-" +:+ id; o_hostname := "host-" +:+ id;
     o_resources := [scalar_resource "cpus" (qc 1 1);
                     scalar_resource "cpus" (qc 2 1);
                     scalar_resource "mem" (qc 1024 1)] |}.

(** Three items on the queue, nothing else. *)
Definition queued_world : World :=
  set_scheduler_tasks
    [sample_item "extract"; sample_item "load"; sample_item "extract"]
    empty_world.

(** ** Tactics *)

(** Unfolding of the monad's operations. *)
Ltac run :=
  unfold mbind, M_bind, mret, M_ret, gets, modify, logging, driver_call,
    scheduler_results_put, scheduler_tasks_empty, scheduler_tasks_qsize,
    raise, lift; simpl.

(** Goals of the form [step_frame ks calls w w1] for worlds written out. *)
Ltac frame :=
  unfold step_frame, attempts; simpl;
  rewrite ?omap_app; simpl; rewrite ?app_nil_r;
  split_and?; try done.

(** ** Definitions used by the further statements *)

(** The host names a hostname requirement hands to its filter. *)
Definition host_list (value : hostvalue) : list string :=
  match value with
  | HostOne h => [h]
  | HostMany hs => hs
  end.

(** [value] lies in the range, bounds included. *)
Definition within (value : Qc) (r : Range) : Prop :=
  (Qc_of_Z (Z.of_N (r_begin r)) <= value)%Qc
  /\ (value <= Qc_of_Z (Z.of_N (r_end r)))%Qc.

(** An offer with one resource, of the given kind. *)
Definition range_offer (name : string) (type : ValueType)
  (range : Range) (ranges : list Range) : Offer :=
  {| o_id := "o"; o_slave_id := "s"; o_hostname := "h";
     o_resources := [{| rs_name := name; rs_type := type;
                        rs_scalar := qc 0 1; rs_range := range;
                        rs_ranges := ranges |}] |}.

(** The requirement that [default_resources] builds from one entry of each
    of the two options. *)
Definition hostname_of_kwargs (kwargs : HostnameKwargs) : MesosResource :=
  MesosHostnameResource (hk_value kwargs) (default false (hk_exclude kwargs)).

Definition scalar_of_kwargs (kwargs : ResourceKwargs) : MesosResource :=
  MesosScalarResource (rk_name kwargs) (rk_value kwargs).

(** The colon, character 58. *)
Definition colon : Ascii.ascii := Ascii.ascii_of_nat 58.

(** No character of the string is a colon. *)
Fixpoint no_colon (s : string) : Prop :=
  match s with
  | EmptyString => True
  | String c s' => c <> colon /\ no_colon s'
  end.

(** What a requirement adds to the resources of a task: a scalar one the
    named amount, a hostname one nothing. *)
Definition task_resource_of (r : MesosResource) : option Resource :=
  match r with
  | MesosScalarResource name value => Some (scalar_resource name value)
  | MesosHostnameResource _ _ => None
  end.

(** The world after a sequence of status updates, delivered one callback
    after the other. *)
Definition statusUpdates (updates : list TaskStatus) (w : World) : World :=
  foldl (fun w status => (statusUpdate status w).2) w updates.

(** What status updates do between [w] and [w']: they touch nothing but
    the dictionary, the result queue and the log; an entry of [w'] was an
    entry of [w] under the same id and for the same key; and the results
    put on the queue, each for the key of an entry of [w], are as many as
    the entries gone. *)
Definition status_step (w w' : World) : Prop :=
  driver w' = driver w
  /\ scheduler_tasks w' = scheduler_tasks w
  /\ current_task w' = current_task w
  /\ task_counter w' = task_counter w
  /\ suppressed w' = suppressed w
  /\ (forall task_id d', mesos_task_to_airflow_task w' !! task_id = Some d' ->
        exists d, mesos_task_to_airflow_task w !! task_id = Some d
                  /\ e_key d' = e_key d)
  /\ exists emitted,
       scheduler_results w' = scheduler_results w ++ emitted
       /\ length emitted + size (mesos_task_to_airflow_task w')
          = size (mesos_task_to_airflow_task w)
       /\ forall r, r ∈ emitted ->
            exists task_id d, mesos_task_to_airflow_task w !! task_id = Some d
                              /\ r.1 = e_key d.


(** The operator that [get_operator_task] comes to for the task instance of
    the current task: the one kept on the instance, or else the first of
    the DAG file with the task's id. *)
Definition operator_of (env : Env) (inst : TaskInstance)
  : result (option OperatorTask) :=
  match operator_task inst with
  | Some cached => Ok (Some cached)
  | None =>
      match dag_files env !! tin_dag_id inst with
      | None => Err (AttributeError "'NoneType' object has no attribute")
      | Some tasks =>
          Ok (snd <$> list_find (fun dag_task =>
                                   op_task_id dag_task = tin_task_id inst)
                                tasks)
      end
  end.

(** The requirements of a task instance as a function of the configuration,
    the DAG files and the instance. *)
Definition requirements (env : Env) (inst : TaskInstance)
  : result (list MesosResource) :=
  result_bind (default_resources (config env)) (fun needed =>
  result_bind (operator_of env inst) (fun op =>
    match op ≫= mesos_resources with
    | Some task_resources => merge_resources needed task_resources
    | None => Ok needed
    end)).

Definition outcome_of {A} (r : result A) : Outcome A :=
  match r with
  | Ok a => Return a
  | Err e => Raise e
  end.

(** Rounds of offers, one batch after the other. *)
Definition rounds (env : Env) (batches : list (list Offer)) (w : World)
  : World :=
  foldl (fun w offers => (resourceOffers env offers w).2) w batches.

(** The call that gives offers back with no task. *)
Definition release_call (offers : list Offer) : DriverCall :=
  launchTasks (o_id <$> offers) [].

(** A DAG file in which the operator [load] overrides [cpus] twice. *)
Definition twice_env : Env :=
  {| config := config sample_env;
     dag_files :=
       {[ "etl" :=
            [{| op_task_id := "extract"; mesos_resources := None |};
             {| op_task_id := "load";
                mesos_resources :=
                  Some [MesosScalarResource "cpus" (qc 4 1);
                        MesosScalarResource "cpus" (qc 2 1)] |}] ]} |}.

(** The dictionary once the tasks of [l] have been entered in it, each for
    its key and with no status, the first of the list first. *)
Definition track (l : list (TaskInfo * Key)) (m : gmap string Entry)
  : gmap string Entry :=
  foldl (fun m p => <[ti_task_id p.1 := {| e_key := p.2; e_status := None |}]> m)
        m l.

(** The ids of [tasks] bear the numbers [c], [c + 1], ... in this order. *)
Definition numbered_from (c : N) (tasks : list TaskInfo) : Prop :=
  forall i task, tasks !! i = Some task ->
    exists rest,
      ti_task_id task
      = "airflow:" +:+ pretty (c + N.of_nat i)%N +:+ ":" +:+ rest.

(** What the launches [used] of a run of the loop from [w] to [w'] have
    done to the driver, the dictionary and the counter. *)
Definition launched_in (w w' : World) (used : list (Offer * TaskInfo)) : Prop :=
  driver w' = driver w ++ (launch_call <$> used)
  /\ mesos_task_to_airflow_task w'
     = track (zip used.*2 (item_key <$> pending w))
             (mesos_task_to_airflow_task w)
  /\ numbered_from (task_counter w) used.*2
  /\ (task_counter w + N.of_nat (length used) <= task_counter w')%N
  /\ length used <= length (pending w).

(** The rows of a table kept under a [conn_id], and the others. *)
Definition rows_of (cid : string) (rows : list Connection) : list Connection :=
  filter (fun row => conn_id row = cid) rows.

Definition rows_beside (cid : string) (rows : list Connection)
  : list Connection :=
  filter (fun row => conn_id row <> cid) rows.

(** A configuration that sets the given options of the section [mesos]
    and reads the texts [True] and [False] as truth values. *)
Definition sample_configuration (l : list (string * string)) : Configuration :=
  {| mesos_options := list_to_map l;
     as_boolean := fun text =>
       if bool_decide (text = "True") then Ok true
       else if bool_decide (text = "False") then Ok false
       else Err (GenericException "not a boolean") |}.

(** ** The course of a round *)

(** [o] is the first fit of [pool] for the needed resources: the filter
    accepts it and rejects every offer delivered before it; [rest] is the
    pool without it. *)
Definition first_fit (needed : list MesosResource) (pool : list Offer)
  (o : Offer) (rest : list Offer) : Prop :=
  exists before after,
    pool = before ++ o :: after
    /\ rest = before ++ after
    /\ check (offer_filter_of needed) o = Ok true
    /\ forall o', o' ∈ before -> check (offer_filter_of needed) o' = Ok false.

(** The offers [used] are those that the pending [items] are matched
    with, taken in their order: the first item with the first fit of the
    pool for its requirements, the second with the first fit of what is
    left of the pool, and so on; [pool_left] is what is left at the end. *)
Fixpoint fifo_first_fits (env : Env) (items : list WorkItem)
  (pool : list Offer) (used : list Offer) (pool_left : list Offer)
  {struct used} : Prop :=
  match used, items with
  | [], _ => pool_left = pool
  | o :: used', item :: items' =>
      exists needed rest,
        requirements env (item_instance item) = Ok needed
        /\ first_fit needed pool o rest
        /\ fifo_first_fits env items' rest used' pool_left
  | _ :: _, [] => False
  end.

(** Why the matching of a round stops with the items [items_left] still
    pending and the pool [pool_left] unused. With no item or no offer left
    it is over. Otherwise the first item left is the one that stops it:
    its requirements cannot be resolved; or no offer left fits it, and
    then it stays the current task with the queue behind it; or the
    filter raises on an offer before any fits; or an offer fits but the
    task cannot be built. [raised] is the exception that ends the
    matching, if any, and [extra] counts the item attempted without being
    launched. *)
Definition round_stop (env : Env) (items_left : list WorkItem)
  (pool_left : list Offer) (raised : option Exception) (extra : nat)
  (w' : World) : Prop :=
  match items_left, pool_left with
  | item :: rest, _ :: _ =>
      match requirements env (item_instance item) with
      | Err e => raised = Some e /\ extra = 0
      | Ok needed =>
          extra = 1
          /\ (((forall o, o ∈ pool_left ->
                  check (offer_filter_of needed) o = Ok false)
               /\ raised = None
               /\ item_key <$> current_task w' = Some (item_key item)
               /\ scheduler_tasks w' = rest)
              \/ (exists before o after e,
                    pool_left = before ++ o :: after
                    /\ (forall o', o' ∈ before ->
                          check (offer_filter_of needed) o' = Ok false)
                    /\ check (offer_filter_of needed) o = Err e
                    /\ raised = Some e)
              \/ (exists o rest' e,
                    first_fit needed pool_left o rest'
                    /\ strftime (k_execution_date (item_key item)) = Err e
                    /\ raised = Some e))
      end
  | _, _ => raised = None /\ extra = 0
  end.
(** * Properties of [list.remove] *)

Section list_remove_facts.
Context {A : Type} `{EqDecision A}.
Implicit Types (x y : A) (l pre post : list A).

Lemma list_remove_first x pre post :
  x ∉ pre -> list_remove x (pre ++ x :: post) = Ok (pre ++ post).
Proof.
  induction pre as [|y pre IH]; intros Hx; simpl.
  - rewrite bool_decide_eq_true_2; done.
  - apply not_elem_of_cons in Hx as [Hxy Hpre].
    rewrite bool_decide_eq_false_2 by congruence.
    rewrite (IH Hpre). reflexivity.
Qed.

Lemma list_remove_absent x l :
  x ∉ l -> list_remove x l = Err remove_error.
Proof.
  induction l as [|y l IH]; intros Hx; simpl; [done|].
  apply not_elem_of_cons in Hx as [Hxy Hl].
  rewrite bool_decide_eq_false_2 by congruence.
  by rewrite (IH Hl).
Qed.

(** A successful [remove] takes out one element equal to its argument and
    keeps the others in place. *)
Lemma list_remove_ok x l l' :
  list_remove x l = Ok l' ->
  exists pre post, l = pre ++ x :: post /\ l' = pre ++ post /\ x ∉ pre.
Proof.
  revert l'. induction l as [|y l IH]; intros l'; simpl; [discriminate|].
  case_bool_decide as Hy.
  - intros [= <-]. subst y. exists [], l. split_and!; [done..|]. apply not_elem_of_nil.
  - destruct (list_remove x l) as [r|e] eqn:Hr; simpl; [|discriminate].
    intros [= <-]. destruct (IH r eq_refl) as (pre & post & -> & -> & Hpre).
    exists (y :: pre), post. split_and!; [done..|].
    apply not_elem_of_cons. split; [congruence|done].
Qed.

(** The only exception the merge can raise is that of [list.remove]. *)
Lemma list_remove_err x l e : list_remove x l = Err e -> e = remove_error.
Proof.
  induction l as [|y l IH]; simpl; [congruence|].
  destruct (bool_decide (y = x)); [done|].
  destruct (list_remove x l); simpl; [done|]. intros [= <-]. by apply IH.
Qed.
End list_remove_facts.

(** * Properties of [merge_resources] *)

Section merge_facts.
Implicit Types (d t x : MesosResource) (ds ts l pre post : list MesosResource).

(** With no default of the override's name, the inner loop removes
    nothing. *)
Lemma merge_inner_no_match t ds l :
  res_name t ∉ res_name <$> ds -> merge_inner t ds l = Ok l.
Proof.
  revert l. induction ds as [|d ds IH]; intros l Hn; simpl; [done|].
  rewrite fmap_cons in Hn. apply not_elem_of_cons in Hn as [Hd Hds].
  unfold same_name. rewrite bool_decide_eq_false_2 by done. by apply IH.
Qed.

(** One pass of the inner loop, while the list under construction still
    holds, in order, every default that [P] retains: all defaults of the
    override's name go, and nothing else moves. *)
Lemma merge_inner_drops t (P : MesosResource -> Prop)
    `{!forall d, Decision (P d)} ds pre post :
  (forall d, res_name d = res_name t -> P d) ->
  (forall x, x ∈ pre -> res_name x <> res_name t) ->
  merge_inner t ds (pre ++ filter P ds ++ post)
  = Ok (pre ++ filter (fun d => P d /\ res_name d <> res_name t) ds ++ post).
Proof.
  intros Hk. revert pre.
  induction ds as [|d ds IH]; intros pre Hpre; simpl; [done|].
  unfold same_name. case_bool_decide as Hn.
  - rewrite filter_cons_True by (apply Hk; congruence).
    rewrite filter_cons_False by (intros [_ ?]; congruence).
    simpl. rewrite list_remove_first.
    + simpl. by apply IH.
    + intros Hin. by apply (Hpre _ Hin).
  - destruct (decide (P d)) as [Hd|Hd].
    + rewrite filter_cons_True by done.
      rewrite filter_cons_True by (split; congruence).
      simpl. rewrite (cons_middle d pre), (cons_middle d pre (_ ++ post)).
      rewrite !app_assoc. rewrite <- !(app_assoc (pre ++ [d])).
      apply IH. intros x [Hx| ->%list_elem_of_singleton]%elem_of_app;
        [by apply Hpre | congruence].
    + rewrite filter_cons_False by done.
      rewrite filter_cons_False by (intros [? _]; done).
      by apply IH.
Qed.

Lemma filter_ext_elem (P Q : MesosResource -> Prop)
    `{!forall d, Decision (P d)} `{!forall d, Decision (Q d)} l :
  (forall x, x ∈ l -> P x <-> Q x) -> filter P l = filter Q l.
Proof.
  induction l as [|x l IH]; intros Hext; [done|].
  assert (filter P l = filter Q l) as IH'.
  { apply IH. intros y Hy. apply Hext. by right. }
  destruct (decide (P x)) as [Hx|Hx].
  - rewrite !filter_cons_True; [by f_equal|by apply Hext; [left|]|done].
  - rewrite !filter_cons_False; [done| |done].
    intros HQ. apply Hx, Hext; [left|done].
Qed.

Lemma unambiguous_alone ds done t ts :
  unambiguous ds (done ++ t :: ts) ->
  res_name t ∈ res_name <$> ds ->
  res_name t ∉ res_name <$> done.
Proof.
  intros Hu Hin Hdone. specialize (Hu _ Hin). unfold named in Hu.
  rewrite filter_app, filter_cons_True, length_app in Hu by done.
  simpl in Hu.
  apply list_elem_of_fmap in Hdone as (o & Ho & Hod).
  assert (o ∈ filter (fun o => res_name o = res_name t) done) as Hf
    by (apply list_elem_of_filter; done).
  destruct (filter _ done); [by apply elem_of_nil in Hf|]. simpl in Hu. lia.
Qed.

Lemma merge_outer_unambiguous ds ts : forall done,
  unambiguous ds (done ++ ts) ->
  merge_outer ds ts
    (filter (fun d => res_name d ∉ res_name <$> done) ds ++ done)
  = Ok (merge_spec ds (done ++ ts)).
Proof.
  induction ts as [|t ts IH]; intros done Hu; simpl.
  { by rewrite app_nil_r. }
  assert (forall d, (res_name d ∉ res_name <$> (done ++ [t])) <->
                    (res_name d ∉ res_name <$> done) /\ res_name d <> res_name t)
    as Hsplit.
  { intros d. rewrite fmap_app, not_elem_of_app. simpl.
    by rewrite list_elem_of_singleton. }
  destruct (decide (res_name t ∈ res_name <$> ds)) as [Hin|Hout].
  - pose proof (unambiguous_alone _ _ _ _ Hu Hin) as Halone.
    pose proof (merge_inner_drops t
                  (fun d => res_name d ∉ res_name <$> done) ds [] done) as Hin'.
    simpl in Hin'. rewrite Hin'; simpl.
    + replace (done ++ t :: ts) with ((done ++ [t]) ++ ts)
        by (by rewrite <- app_assoc).
      rewrite <- IH by (by rewrite <- app_assoc).
      rewrite <- app_assoc. do 2 f_equal.
      apply list_filter_iff. intros d. by rewrite Hsplit.
    + intros d ->. done.
    + intros x Hx. by apply elem_of_nil in Hx.
  - rewrite merge_inner_no_match by done. simpl.
    replace (done ++ t :: ts) with ((done ++ [t]) ++ ts)
      by (by rewrite <- app_assoc).
    rewrite <- IH by (by rewrite <- app_assoc).
    rewrite <- app_assoc. do 2 f_equal. apply filter_ext_elem. intros d Hd. rewrite Hsplit.
    split; [|by intros [? _]]. intros Hnd. split; [done|].
    intros Heq. apply Hout. rewrite <- Heq. by apply list_elem_of_fmap_2.
Qed.

(** Where no default's name is borne by two overrides, the merge returns
    what the specification describes. *)
Lemma merge_resources_unambiguous ds ts :
  unambiguous ds ts -> merge_resources ds ts = Ok (merge_spec ds ts).
Proof.
  intros Hu. unfold merge_resources.
  pose proof (merge_outer_unambiguous ds ts [] Hu) as Hm.
  simpl in Hm. rewrite app_nil_r in Hm. rewrite <- Hm. f_equal.
  clear. induction ds as [|d ds' IH]; [done|].
  rewrite filter_cons_True by apply not_elem_of_nil.
  f_equal. apply IH.
Qed.

(** *** Two overrides of one default's name *)

Lemma same_value_refl x : same_value x x = true.
Proof. destruct x; simpl; by apply bool_decide_eq_true_2. Qed.

Lemma list_remove_named_other n x l l' :
  res_name x <> n -> list_remove x l = Ok l' -> named n l' = named n l.
Proof.
  intros Hn (pre & post & -> & -> & _)%list_remove_ok. unfold named.
  by rewrite !filter_app, filter_cons_False.
Qed.

Lemma list_remove_named_head n x l l' rest :
  res_name x = n -> named n l = x :: rest ->
  list_remove x l = Ok l' -> named n l' = rest.
Proof.
  intros Hn Hl (pre & post & -> & -> & Hpre)%list_remove_ok.
  unfold named in *. rewrite filter_app in *.
  rewrite filter_cons_True in Hl by done.
  destruct (filter _ pre) as [|y pre'] eqn:Hf; simpl in Hl.
  - simpl. congruence.
  - exfalso. apply Hpre. injection Hl as -> _.
    assert (x ∈ filter (fun x0 => res_name x0 = n) pre) as Hin
      by (rewrite Hf; left).
    by apply list_elem_of_filter in Hin as [_ ?].
Qed.

Lemma merge_inner_err t ds l e : merge_inner t ds l = Err e -> e = remove_error.
Proof.
  revert l. induction ds as [|d ds IH]; intros l; simpl; [done|].
  destruct (same_name t d); [|by apply IH].
  destruct (list_remove d l) as [l1|e1] eqn:Hr; simpl; [by apply IH|].
  intros [= <-]. by eapply list_remove_err.
Qed.

(** An override of another name leaves the elements named [n] alone. *)
Lemma merge_inner_named_other n t ds l l' :
  res_name t <> n -> merge_inner t ds l = Ok l' -> named n l' = named n l.
Proof.
  intros Hn. revert l. induction ds as [|d ds IH]; intros l; simpl.
  { by intros [= ->]. }
  unfold same_name. case_bool_decide as Hd; [|by apply IH].
  destruct (list_remove d l) as [l1|e] eqn:Hr; simpl; [|discriminate].
  intros Hm. rewrite (IH _ Hm).
  eapply list_remove_named_other; [|done]. congruence.
Qed.

(** The first override named [n] removes every default named [n]. *)
Lemma merge_inner_named_own t ds l l' :
  named (res_name t) l = named (res_name t) ds ->
  merge_inner t ds l = Ok l' -> named (res_name t) l' = [].
Proof.
  revert l. induction ds as [|d ds IH]; intros l Hl; simpl.
  { by intros [= <-]. }
  unfold same_name. case_bool_decide as Hd.
  - destruct (list_remove d l) as [l1|e] eqn:Hr; simpl; [|discriminate].
    apply IH. unfold named in Hl. rewrite filter_cons_True in Hl by done.
    by eapply list_remove_named_head.
  - apply IH. unfold named in *. by rewrite filter_cons_False in Hl.
Qed.

(** An override named as the default [d] raises when the list under
    construction holds at most one element of that name and that element
    is not [d]. *)
Lemma merge_inner_raises t d ds l :
  res_name d = res_name t -> d ∈ ds ->
  length (named (res_name t) l) <= 1 ->
  (forall x, x ∈ named (res_name t) l -> x <> d) ->
  merge_inner t ds l = Err remove_error.
Proof.
  intros Hd. revert l.
  induction ds as [|d' ds IH]; intros l Hin Hlen Hl; simpl.
  { by apply elem_of_nil in Hin. }
  unfold same_name. case_bool_decide as Hd'.
  - destruct (decide (d' ∈ l)) as [Hdl|Hdl];
      [|by rewrite list_remove_absent].
    assert (d' ∈ named (res_name t) l) as Hnamed
      by (apply list_elem_of_filter; done).
    destruct (named (res_name t) l) as [|x [|y rest]] eqn:Hnl;
      [by apply elem_of_nil in Hnamed| |simpl in Hlen; lia].
    apply list_elem_of_singleton in Hnamed. subst x.
    assert (d ∈ ds) as Hds.
    { apply elem_of_cons in Hin as [Heq|?]; [|done].
      exfalso. apply (Hl d'); [left|done]. }
    destruct (list_remove d' l) as [l1|e] eqn:Hr; simpl;
      [|by rewrite (list_remove_err _ _ _ Hr)].
    pose proof (list_remove_named_head _ _ _ _ _ (eq_sym Hd') Hnl Hr) as Hl1.
    apply IH; [done|rewrite Hl1; simpl; lia|].
    rewrite Hl1. intros x Hx. by apply elem_of_nil in Hx.
  - apply IH; [|done..].
    apply elem_of_cons in Hin as [->|?]; [|done]. congruence.
Qed.

Section two_overrides.
Variables (n : string) (d : MesosResource) (ds : list MesosResource).
Hypothesis Hname : res_name d = n.
Hypothesis Hdefault : d ∈ ds.

(** After the first override named [n], that override is the only
    element of the name; the second one raises. *)
Lemma merge_outer_second ts : forall l o1,
  named n l = [o1] -> o1 <> d ->
  1 <= length (named n ts) ->
  merge_outer ds ts l = Err remove_error.
Proof.
  induction ts as [|t ts IH]; intros l o1 Hl Ho1 Hlen; simpl.
  { simpl in Hlen. lia. }
  destruct (decide (res_name t = n)) as [Hn|Hn].
  - rewrite (merge_inner_raises t d); [done|congruence|done|..];
      rewrite Hn, Hl; [done|].
    by intros x ->%list_elem_of_singleton.
  - destruct (merge_inner t ds l) as [l'|e] eqn:Hm; simpl.
    + apply (IH _ o1); [|done|].
      * unfold named. rewrite filter_app, filter_cons_False by done.
        rewrite filter_nil, app_nil_r.
        by rewrite <- Hl, <- (merge_inner_named_other n t ds l l').
      * unfold named in Hlen. by rewrite filter_cons_False in Hlen.
    + by rewrite (merge_inner_err _ _ _ _ Hm).
Qed.

(** Up to the first override named [n], the elements of that name are
    the defaults of that name. *)
Lemma merge_outer_first ts : forall l,
  named n l = named n ds ->
  (forall o, o ∈ named n ts -> o <> d) ->
  2 <= length (named n ts) ->
  merge_outer ds ts l = Err remove_error.
Proof.
  induction ts as [|t ts IH]; intros l Hl Hdiff Hlen; simpl.
  { simpl in Hlen. lia. }
  destruct (merge_inner t ds l) as [l'|e] eqn:Hm; simpl;
    [|by rewrite (merge_inner_err _ _ _ _ Hm)].
  unfold named in Hlen, Hdiff.
  destruct (decide (res_name t = n)) as [Hn|Hn].
  - rewrite filter_cons_True in Hlen, Hdiff by done. simpl in Hlen.
    apply (merge_outer_second _ _ t); [|apply Hdiff; left|unfold named; lia].
    rewrite <- Hn in Hl.
    pose proof (merge_inner_named_own t ds l l' Hl Hm) as Hown.
    rewrite Hn in Hown. unfold named in *.
    by rewrite filter_app, filter_cons_True, filter_nil, Hown.
  - rewrite filter_cons_False in Hlen, Hdiff by done.
    apply IH; [|done..].
    rewrite <- Hl, <- (merge_inner_named_other n t ds l l' Hn Hm).
    unfold named.
    by rewrite filter_app, filter_cons_False, filter_nil, app_nil_r.
Qed.
End two_overrides.
End merge_facts.

(** C10. Whenever the defaults hold a requirement [d] named [n] and the
    overrides hold two or more requirements named [n], each with a value
    different from that of [d], [merge_resources] raises (the [ValueError]
    of [list.remove], when the second such override tries to remove a
    default that is no longer in the list) and returns no merged list. *)
Theorem merge_resources_two_overrides_raise
    (defaults overrides : list MesosResource) (n : string) (d : MesosResource) :
  d ∈ defaults -> res_name d = n ->
  2 <= length (named n overrides) ->
  (forall o, o ∈ overrides -> res_name o = n -> same_value o d = false) ->
  merge_resources defaults overrides = Err remove_error.
Proof.
  intros Hdef Hname Hlen Hdiff. unfold merge_resources.
  apply (merge_outer_first n d); [done..| |done].
  intros o [Hn Ho]%list_elem_of_filter ->.
  specialize (Hdiff d Ho Hn). by rewrite same_value_refl in Hdiff.
Qed.

Lemma merge_resources_two_overrides_raise_witness :
  merge_resources [MesosScalarResource "cpu" (qc 1 10)]
                  [MesosScalarResource "cpu" (qc 4 1);
                   MesosScalarResource "cpu" (qc 2 1)]
  = Err remove_error.
Proof.
  apply (merge_resources_two_overrides_raise _ _ "cpu"
           (MesosScalarResource "cpu" (qc 1 10))).
  - by left.
  - reflexivity.
  - vm_compute. lia.
  - intros o Ho _.
    apply elem_of_cons in Ho as [->|Ho]; [by vm_compute|].
    apply list_elem_of_singleton in Ho as ->. by vm_compute.
Defined.

(** C5. At the defaults [{cpu:0.1}] and the overrides [{cpu:4.0}] and
    [{cpu:2.0}], two overrides of one default's name, [merge_resources]
    raises, where the merge that the specification describes is the list of
    the two overrides. *)
Theorem merge_resources_duplicate_override_diverges :
  let defaults := [MesosScalarResource "cpu" (qc 1 10)] in
  let overrides := [MesosScalarResource "cpu" (qc 4 1);
                    MesosScalarResource "cpu" (qc 2 1)] in
  merge_resources defaults overrides = Err remove_error
  /\ merge_spec defaults overrides = overrides
  /\ merge_resources defaults overrides <> Ok (merge_spec defaults overrides).
Proof. vm_compute. split_and!; [done..|discriminate]. Qed.

(** * Properties of the resource filter *)

Section filter_facts.
Implicit Types (offer : Offer) (r : Resource) (name mode : string) (value : Qc).

(** The resources of an offer that bear the filter's name. *)
Lemma get_resource_single name offer r :
  filter (fun x => rs_name x = name) (o_resources offer) = [r] ->
  get_resource name offer = Ok (Some r).
Proof. unfold get_resource. by intros ->. Qed.

Lemma get_resource_absent name offer :
  filter (fun x => rs_name x = name) (o_resources offer) = [] ->
  get_resource name offer = Ok None.
Proof. unfold get_resource. by intros ->. Qed.

Lemma get_resource_many name offer :
  1 < length (filter (fun x => rs_name x = name) (o_resources offer)) ->
  exists e, get_resource name offer = Err e.
Proof.
  unfold get_resource. intros H1.
  rewrite bool_decide_eq_true_2 by done. eauto.
Qed.

Lemma check_scalar_include value r :
  check_scalar value INCLUDE r = Ok (bool_decide (value <= rs_scalar r)%Qc).
Proof. done. Qed.

Lemma check_scalar_exclude value r :
  check_scalar value EXCLUDE r = Ok (bool_decide (rs_scalar r < value)%Qc).
Proof. done. Qed.

(** With one of the two modes, the three supported kinds give a verdict. *)
Lemma check_kind_total value mode r :
  mode = INCLUDE \/ mode = EXCLUDE ->
  (exists b, check_scalar value mode r = Ok b)
  /\ (exists b, check_range value mode r = Ok b)
  /\ (exists b, check_ranges value mode r = Ok b).
Proof.
  intros [-> | ->]; unfold check_scalar, check_range, check_ranges; simpl;
    split_and!; eauto.
Qed.
End filter_facts.

(** C6. For a scalar requirement [value] named [name] and an offer whose
    only resource of that name is the scalar [r]: the INCLUDE filter returns
    a verdict, which is a match exactly when the offered value is at least
    the required one, and the EXCLUDE filter returns a verdict, which is a
    match exactly when the offered value is strictly below the required
    one; at equality INCLUDE matches and EXCLUDE does not. *)
Theorem check_scalar_include_exclude
    (name : string) (value : Qc) (offer : Offer) (r : Resource) :
  filter (fun x => rs_name x = name) (o_resources offer) = [r] ->
  rs_type r = SCALAR ->
  let incl := check (AirflowMesosResourceFilter name value INCLUDE) offer in
  let excl := check (AirflowMesosResourceFilter name value EXCLUDE) offer in
  (exists b, incl = Ok b) /\ (exists b, excl = Ok b)
  /\ (incl = Ok true <-> (value <= rs_scalar r)%Qc)
  /\ (excl = Ok true <-> (rs_scalar r < value)%Qc)
  /\ (rs_scalar r = value -> incl = Ok true /\ excl = Ok false).
Proof.
  intros Hone Hty. simpl. unfold check_resource.
  rewrite (get_resource_single _ _ _ Hone). simpl. rewrite Hty.
  rewrite check_scalar_include, check_scalar_exclude.
  split_and!; [eauto..| | |].
  - split; [intros [= H]; by apply bool_decide_eq_true in H|].
    intros H. by rewrite bool_decide_eq_true_2.
  - split; [intros [= H]; by apply bool_decide_eq_true in H|].
    intros H. by rewrite bool_decide_eq_true_2.
  - intros ->. rewrite bool_decide_eq_true_2 by apply Qcle_refl.
    rewrite bool_decide_eq_false_2; [done|]. apply Qcle_not_lt, Qcle_refl.
Qed.

Lemma check_scalar_include_exclude_witness :
  let offer := {| o_id := "o1"; o_slave_id := "s1"; o_hostname := "h1";
                  o_resources :=
                    [{| rs_name := "cpus"; rs_type := SCALAR;
                        rs_scalar := qc 2 1;
                        rs_range := {| r_begin := 0; r_end := 0 |};
                        rs_ranges := [] |}] |} in
  check (AirflowMesosResourceFilter "cpus" (qc 2 1) INCLUDE) offer = Ok true
  /\ check (AirflowMesosResourceFilter "cpus" (qc 2 1) EXCLUDE) offer = Ok false.
Proof.
  intros offer.
  refine (proj2 (proj2 (proj2 (proj2
    (check_scalar_include_exclude "cpus" (qc 2 1) offer _ _ _)))) _);
    reflexivity.
Defined.

(** The filter of a scalar requirement is a resource filter in INCLUDE
    mode, for the requirement's name and value. *)
Lemma to_filter_scalar (name : string) (value : Qc) :
  to_filter (MesosScalarResource name value)
  = AirflowMesosResourceFilter name value INCLUDE.
Proof. reflexivity. Qed.

(** C7. A resource filter in one of the two modes raises on an offer
    exactly when the offer has more than one resource of the filter's name,
    or has exactly one and that one is of set or text kind; when the offer
    has no resource of that name the filter returns [False] and does not
    raise. *)
Theorem check_resource_raises_iff
    (name : string) (value : Qc) (mode : string) (offer : Offer) :
  mode = INCLUDE \/ mode = EXCLUDE ->
  let found := filter (fun x => rs_name x = name) (o_resources offer) in
  let verdict := check (AirflowMesosResourceFilter name value mode) offer in
  ((exists e, verdict = Err e) <->
     (1 < length found
      \/ exists r, found = [r] /\ (rs_type r = SET \/ rs_type r = TEXT)))
  /\ (found = [] -> verdict = Ok false).
Proof.
  intros Hmode found verdict. subst verdict. simpl. unfold check_resource.
  split; [|by intros H0; rewrite (get_resource_absent _ _ H0)].
  destruct found as [|r [|r' rest]] eqn:Hf; subst found.
  - rewrite (get_resource_absent _ _ Hf). simpl. split.
    + by intros [e ?].
    + intros [Hlen | (r & ? & _)]; [simpl in Hlen; lia | done].
  - rewrite (get_resource_single _ _ _ Hf). simpl.
    destruct (check_kind_total value mode r Hmode)
      as ((b1 & Hs) & (b2 & Hr) & (b3 & Hrs)).
    split.
    + intros [e He]. right. exists r. split; [done|].
      destruct (rs_type r); [congruence..|by left|by right].
    + intros [Hlen | (r0 & [= <-] & [Hty | Hty])];
        [simpl in Hlen; lia | rewrite Hty; by eexists..].
  - destruct (get_resource_many name offer) as [e He].
    { rewrite Hf. simpl. lia. }
    rewrite He. simpl. split; [intros _; left; simpl; lia | eauto].
Qed.

Lemma check_resource_raises_iff_witness :
  let offer := {| o_id := "o1"; o_slave_id := "s1"; o_hostname := "h1";
                  o_resources :=
                    [{| rs_name := "cpus"; rs_type := SCALAR;
                        rs_scalar := qc 2 1;
                        rs_range := {| r_begin := 0; r_end := 0 |};
                        rs_ranges := [] |}] |} in
  check (AirflowMesosResourceFilter "mem" (qc 64 1) INCLUDE) offer = Ok false.
Proof.
  intros offer.
  refine (proj2 (check_resource_raises_iff "mem" (qc 64 1) INCLUDE offer _) _).
  - by left.
  - reflexivity.
Defined.

(** * Properties of the status tracker *)

Lemma is_failure_state_spec s : is_failure_state s = true <-> terminal_failure s.
Proof.
  unfold is_failure_state, terminal_failure.
  rewrite bool_decide_eq_true, !elem_of_cons, elem_of_nil. tauto.
Qed.

Lemma is_failure_state_not_finished s :
  is_failure_state s = true -> s <> TASK_FINISHED.
Proof. intros Hf ->. by vm_compute in Hf. Qed.

(** The path of [statusUpdate] for a task id that is not in the
    dictionary. *)
Lemma statusUpdate_unrecognised (status : TaskStatus) (w : World) :
  mesos_task_to_airflow_task w !! ts_task_id status = None ->
  statusUpdate status w
  = (Return tt,
     set_log (log w ++ [(WARNING, MsgUnrecognisedTask (ts_task_id status))]) w).
Proof. intros Hnone. unfold statusUpdate. run. by rewrite Hnone. Qed.

(** C4. A status update for a task id that is not tracked returns at once:
    nothing is put on the result queue, the dictionary and every other
    field are as before, no exception is raised, and one warning is
    logged. *)
Theorem statusUpdate_untracked (status : TaskStatus) (w : World) :
  mesos_task_to_airflow_task w !! ts_task_id status = None ->
  statusUpdate status w
  = (Return tt,
     set_log (log w ++ [(WARNING, MsgUnrecognisedTask (ts_task_id status))]) w).
Proof. intros Hnone. unfold statusUpdate. run. by rewrite Hnone. Qed.

Lemma statusUpdate_untracked_witness :
  let w' := (statusUpdate (sample_status "x-1" TASK_FINISHED) tracking_world).2 in
  scheduler_results w' = []
  /\ mesos_task_to_airflow_task w' = mesos_task_to_airflow_task tracking_world
  /\ log w' = [(WARNING, MsgUnrecognisedTask "x-1")].
Proof.
  rewrite (statusUpdate_untracked (sample_status "x-1" TASK_FINISHED)
             tracking_world); [done|].
  vm_compute. reflexivity.
Defined.

Lemma statusUpdate_returns status w : (statusUpdate status w).1 = Return tt.
Proof.
  unfold statusUpdate. run.
  destruct (mesos_task_to_airflow_task w !! ts_task_id status) as [d|]; [|done].
  simpl. case_bool_decide; simpl;
    [|destruct (is_failure_state (ts_state status)); simpl];
    (destruct (e_status d); simpl; [case_bool_decide|]; done).
Qed.

(** What a status update for a tracked task does to the fields, by the
    class of the state. *)
Lemma statusUpdate_tracked_fields status w d :
  mesos_task_to_airflow_task w !! ts_task_id status = Some d ->
  let w' := (statusUpdate status w).2 in
  driver w' = driver w
  /\ scheduler_results w'
     = scheduler_results w ++
       (if bool_decide (ts_state status = TASK_FINISHED) then [(e_key d, SUCCESS)]
        else if is_failure_state (ts_state status) then [(e_key d, FAILED)]
        else [])
  /\ mesos_task_to_airflow_task w'
     = (if bool_decide (ts_state status = TASK_FINISHED)
           || is_failure_state (ts_state status)
        then delete (ts_task_id status) (mesos_task_to_airflow_task w)
        else <[ts_task_id status :=
                 {| e_key := e_key d; e_status := Some status |}]>
               (mesos_task_to_airflow_task w)).
Proof.
  intros Hd. unfold statusUpdate. run. rewrite Hd. simpl.
  case_bool_decide; simpl;
    [|destruct (is_failure_state (ts_state status)); simpl];
    (destruct (e_status d); simpl; [case_bool_decide|]; simpl;
     rewrite ?delete_insert_eq, ?app_nil_r; done).
Qed.

(** C3. For a status update whose task id is tracked, with entry [d]: the
    call returns and asks nothing of the driver; [TASK_FINISHED] puts exactly
    [(key, SUCCESS)] on the result queue and removes the entry; each of
    [TASK_FAILED], [TASK_KILLED], [TASK_ERROR], [TASK_LOST] puts exactly
    [(key, FAILED)] and removes the entry; any other state puts nothing and
    stores the status as the entry's last status; and after one of the five
    terminal states, a further update for the same task id puts nothing on
    the result queue and leaves the dictionary as it is. *)
Theorem statusUpdate_tracked (status : TaskStatus) (w : World) (d : Entry) :
  mesos_task_to_airflow_task w !! ts_task_id status = Some d ->
  let task_id := ts_task_id status in
  let w' := (statusUpdate status w).2 in
  (statusUpdate status w).1 = Return tt
  /\ driver w' = driver w
  /\ (ts_state status = TASK_FINISHED ->
        scheduler_results w' = scheduler_results w ++ [(e_key d, SUCCESS)]
        /\ mesos_task_to_airflow_task w'
           = delete task_id (mesos_task_to_airflow_task w))
  /\ (terminal_failure (ts_state status) ->
        scheduler_results w' = scheduler_results w ++ [(e_key d, FAILED)]
        /\ mesos_task_to_airflow_task w'
           = delete task_id (mesos_task_to_airflow_task w))
  /\ (ts_state status <> TASK_FINISHED ->
      ~ terminal_failure (ts_state status) ->
        scheduler_results w' = scheduler_results w
        /\ mesos_task_to_airflow_task w'
           = <[task_id := {| e_key := e_key d; e_status := Some status |}]>
               (mesos_task_to_airflow_task w))
  /\ (ts_state status = TASK_FINISHED \/ terminal_failure (ts_state status) ->
        forall again : TaskStatus, ts_task_id again = task_id ->
          let w'' := (statusUpdate again w').2 in
          (statusUpdate again w').1 = Return tt
          /\ scheduler_results w'' = scheduler_results w'
          /\ mesos_task_to_airflow_task w'' = mesos_task_to_airflow_task w').
Proof.
  intros Hd task_id w'.
  destruct (statusUpdate_tracked_fields status w d Hd) as (Hdrv & Hres & Hmap).
  fold w' in Hdrv, Hres, Hmap.
  split; [apply statusUpdate_returns|]. split; [done|].
  split_and!.
  - intros Hfin. rewrite Hres, Hmap.
    by rewrite bool_decide_eq_true_2.
  - intros Hfail. pose proof Hfail as Hfail'.
    apply is_failure_state_spec in Hfail'.
    rewrite Hres, Hmap, Hfail'.
    rewrite bool_decide_eq_false_2 by by apply is_failure_state_not_finished.
    done.
  - intros Hfin Hfail. rewrite Hres, Hmap.
    rewrite bool_decide_eq_false_2 by done.
    destruct (is_failure_state (ts_state status)) eqn:Hf.
    + by apply is_failure_state_spec in Hf.
    + simpl. by rewrite app_nil_r.
  - intros Hterm again Hid w''. subst w''.
    assert (mesos_task_to_airflow_task w' !! ts_task_id again = None) as Hgone.
    { rewrite Hmap, Hid.
      destruct Hterm as [Hfin | Hfail%is_failure_state_spec].
      - rewrite bool_decide_eq_true_2 by done. apply lookup_delete_eq.
      - rewrite Hfail, orb_true_r. apply lookup_delete_eq. }
    by rewrite (statusUpdate_unrecognised again w' Hgone).
Qed.

Lemma statusUpdate_tracked_witness :
  let task_id := "airflow:0:etl:extract:20170309140500000000" in
  let w' := (statusUpdate (sample_status task_id TASK_FINISHED)
               tracking_world).2 in
  scheduler_results w' = [(sample_key "extract", SUCCESS)]
  /\ mesos_task_to_airflow_task w'
     = delete task_id (mesos_task_to_airflow_task tracking_world).
Proof.
  intros task_id w'.
  destruct (statusUpdate_tracked (sample_status task_id TASK_FINISHED)
              tracking_world
              {| e_key := sample_key "extract"; e_status := None |})
    as (_ & _ & Hfinished & _).
  - vm_compute. reflexivity.
  - apply Hfinished. reflexivity.
Defined.

(** * Properties of reconciliation *)

Lemma known_status_elem (m : gmap string Entry) (s : TaskStatus) :
  s ∈ omap e_status
        (filter (fun task => is_Some (e_status task)) (map_to_list m).*2)
  <-> exists task_id d, m !! task_id = Some d /\ e_status d = Some s.
Proof.
  rewrite list_elem_of_omap. split.
  - intros (d & [_ Hd]%list_elem_of_filter & Hs).
    apply list_elem_of_fmap in Hd as ([task_id d'] & -> & Hin).
    apply elem_of_map_to_list in Hin. eauto.
  - intros (task_id & d & Hm & Hs). exists d. split; [|done].
    apply list_elem_of_filter. split; [by rewrite Hs|].
    apply list_elem_of_fmap. exists (task_id, d). split; [done|].
    by apply elem_of_map_to_list.
Qed.

(** C8. [reconcile] returns; with an empty dictionary it changes nothing,
    so the driver gets no request; with a non-empty dictionary the driver
    gets exactly one more call, a reconciliation request, whose snapshot
    holds the last status of every tracked task that has one, and nothing
    else (an entry whose status is still [None] has no last status). Hence
    a request is sent if and only if the dictionary is non-empty. *)
Theorem reconcile_snapshot (w : World) :
  let tracked := mesos_task_to_airflow_task w in
  let w' := (reconcile w).2 in
  (reconcile w).1 = Return tt
  /\ (tracked = ∅ -> w' = w)
  /\ (tracked <> ∅ ->
        exists snapshot,
          driver w' = driver w ++ [reconcileTasks snapshot]
          /\ forall s, s ∈ snapshot <->
               exists task_id d, tracked !! task_id = Some d
                                 /\ e_status d = Some s)
  /\ (driver w' <> driver w <-> tracked <> ∅).
Proof.
  intros tracked w'. subst tracked w'. unfold reconcile. run.
  case_bool_decide as Hne; simpl.
  - split_and!; [done|done| |].
    + intros _. eexists. split; [done|]. apply known_status_elem.
    + split; [done|]. intros _ Heq.
      apply (f_equal length) in Heq. rewrite length_app in Heq.
      simpl in Heq. lia.
  - split_and!; [done|done|done|].
    split; [done|by intros ?].
Qed.

(** A task launched and not yet heard of has no status to send: the
    request goes out with an empty snapshot. *)
Example reconcile_no_status_yet :
  driver (reconcile tracking_world).2 = [reconcileTasks []].
Proof. vm_compute. reflexivity. Qed.

Lemma reconcile_snapshot_witness :
  exists snapshot,
    driver (reconcile tracking_world).2 = [reconcileTasks snapshot].
Proof.
  destruct (reconcile_snapshot tracking_world) as (_ & _ & Hsent & _).
  destruct Hsent as (snapshot & Hdriver & _).
  - vm_compute. discriminate.
  - by exists snapshot.
Defined.

(** * Properties of the suppression control *)

Lemma mesos_suppress_revive_run (w : World) :
  mesos_suppress_revive w
  = (Return tt,
     if bool_decide (scheduler_tasks w = []) && negb (suppressed w) then
       set_driver (driver w ++ [suppressOffers])
         (set_suppressed true (set_log (log w ++ [(INFO, MsgSuppressing)]) w))
     else if negb (bool_decide (scheduler_tasks w = [])) && suppressed w then
       set_driver (driver w ++ [reviveOffers])
         (set_suppressed false (set_log (log w ++ [(INFO, MsgReviving)]) w))
     else w).
Proof.
  unfold mesos_suppress_revive. run.
  destruct (bool_decide (scheduler_tasks w = [])) eqn:He,
    (suppressed w) eqn:Hs; simpl; rewrite ?He, ?Hs; done.
Qed.

(** One evaluation of the suppression control, as a function on worlds. *)
Lemma mesos_suppress_revive_stable (w : World) :
  let w' := (mesos_suppress_revive w).2 in
  scheduler_tasks w' = scheduler_tasks w
  /\ (mesos_suppress_revive w').2 = w'.
Proof.
  simpl. rewrite !mesos_suppress_revive_run. simpl.
  destruct (bool_decide (scheduler_tasks w = [])) eqn:He,
    (suppressed w) eqn:Hs; simpl; rewrite ?He, ?Hs; simpl; done.
Qed.

(** C9. One evaluation of the suppression control returns and leaves the
    queue alone. With the queue empty and offers not suppressed it sends
    exactly one suppression request and sets the flag; with the queue
    non-empty and offers suppressed it sends exactly one revival request
    and clears the flag; otherwise it sends nothing and keeps the flag.
    Evaluating it again any number of times after that, the queue being as
    it was, sends nothing more and changes nothing. *)
Theorem mesos_suppress_revive_idempotent (w : World) :
  let step := fun w => (mesos_suppress_revive w).2 in
  (mesos_suppress_revive w).1 = Return tt
  /\ scheduler_tasks (step w) = scheduler_tasks w
  /\ (scheduler_tasks w = [] -> suppressed w = false ->
        driver (step w) = driver w ++ [suppressOffers]
        /\ suppressed (step w) = true)
  /\ (scheduler_tasks w <> [] -> suppressed w = true ->
        driver (step w) = driver w ++ [reviveOffers]
        /\ suppressed (step w) = false)
  /\ ((scheduler_tasks w = [] <-> suppressed w = true) -> step w = w)
  /\ (forall n : nat, Nat.iter n step (step w) = step w).
Proof.
  intros step. subst step. simpl.
  split; [by rewrite mesos_suppress_revive_run|].
  split; [apply mesos_suppress_revive_stable|].
  split_and!.
  - intros He Hs. rewrite mesos_suppress_revive_run, He, Hs. done.
  - intros He Hs. rewrite mesos_suppress_revive_run, Hs.
    rewrite bool_decide_eq_false_2 by done. done.
  - intros Hiff. rewrite mesos_suppress_revive_run.
    case_bool_decide as He; destruct (suppressed w) eqn:Hs; simpl; try done.
    + destruct Hiff as [Hiff _]. by specialize (Hiff He).
    + destruct Hiff as [_ Hiff]. by specialize (Hiff eq_refl).
  - intros n. induction n as [|n IH]; [done|]. simpl. rewrite IH.
    apply mesos_suppress_revive_stable.
Qed.

Lemma mesos_suppress_revive_idempotent_witness :
  let step := fun w => (mesos_suppress_revive w).2 in
  driver (step empty_world) = [suppressOffers]
  /\ step (step empty_world) = step empty_world.
Proof.
  intros step.
  destruct (mesos_suppress_revive_idempotent empty_world)
    as (_ & _ & Hsuppress & _ & _ & Hagain).
  split.
  - apply Hsuppress; reflexivity.
  - apply (Hagain 1).
Defined.

(** * Properties of the offer scheduler *)

Section frames.
Implicit Types (w : World) (env : Env).

Lemma attempts_app l1 l2 : attempts (l1 ++ l2) = attempts l1 ++ attempts l2.
Proof. apply omap_app. Qed.

Lemma step_frame_refl w : step_frame [] [] w w.
Proof. unfold step_frame. by rewrite !app_nil_r. Qed.

Lemma step_frame_trans ks1 ks2 c1 c2 w w1 w2 :
  step_frame ks1 c1 w w1 -> step_frame ks2 c2 w1 w2 ->
  step_frame (ks1 ++ ks2) (c1 ++ c2) w w2.
Proof.
  intros (? & ? & ? & ? & ? & ?) (? & ? & ? & ? & ? & ?).
  unfold step_frame. rewrite !app_assoc. split_and!; congruence.
Qed.

Lemma get_operator_task_frame env ti w :
  (get_operator_task env ti w).1 <> Diverge
  /\ step_frame [] [] w (get_operator_task env ti w).2.
Proof.
  unfold get_operator_task. run.
  destruct (current_task w) as [[[key command] inst]|] eqn:Hc; simpl;
    [|split; [done|apply step_frame_refl]].
  destruct (operator_task inst); simpl;
    [split; [done|apply step_frame_refl]|].
  destruct (dag_files env !! tin_dag_id ti) as [tasks|]; simpl;
    [|split; [done|frame]].
  destruct (list_find _ tasks) as [[i dag_task]|]; simpl;
    (split; [done|frame]); by rewrite Hc.
Qed.

Lemma get_operator_mesos_resources_frame env ti w :
  (get_operator_mesos_resources env ti w).1 <> Diverge
  /\ step_frame [] [] w (get_operator_mesos_resources env ti w).2.
Proof.
  unfold get_operator_mesos_resources. run.
  destruct (default_resources (config env)) as [needed|e]; simpl;
    [|split; [done|apply step_frame_refl]].
  destruct (get_operator_task_frame env ti w) as [Hd Hf].
  destruct (get_operator_task env ti w) as [[op|e|] w1]; simpl in *;
    [|done..].
  destruct (option_bind _ _ mesos_resources op) as [task_resources|];
    simpl; [|done].
  destruct (merge_resources needed task_resources); run; done.
Qed.

Lemma build_task_info_frame key command needed offer w :
  (build_task_info key command needed offer w).1 <> Diverge
  /\ step_frame [] [] w (build_task_info key command needed offer w).2.
Proof.
  unfold build_task_info. run.
  destruct (strftime (k_execution_date key)); simpl; (split; [done|frame]).
Qed.
End frames.

Section find_offer_facts.
Implicit Types (F : AirflowMesosFilter) (o : Offer) (offers : list Offer).

(** [find_offer] returns the first offer, in the order of the list, that
    the filter accepts: every offer before it was rejected. *)
Lemma find_first_some F offers o :
  find_first F offers = Ok (Some o) ->
  exists before after,
    offers = before ++ o :: after
    /\ check F o = Ok true
    /\ forall o', o' ∈ before -> check F o' = Ok false.
Proof.
  induction offers as [|x offers IH]; simpl; [discriminate|].
  destruct (check F x) as [[|]|e] eqn:Hx; simpl; [| |discriminate].
  - intros [= <-]. exists [], offers. split_and!; [done..|].
    intros o' Ho'. by apply elem_of_nil in Ho'.
  - intros (before & after & -> & Ho & Hb)%IH.
    exists (x :: before), after. split_and!; [done..|].
    intros o' [->|Ho']%elem_of_cons; [done|by apply Hb].
Qed.

(** It returns [None] exactly when every offer of the list is
    rejected. *)
Lemma find_first_none F offers :
  find_first F offers = Ok None <->
  forall o, o ∈ offers -> check F o = Ok false.
Proof.
  induction offers as [|x offers IH]; simpl.
  { split; [|done]. intros _ o Ho. by apply elem_of_nil in Ho. }
  split.
  - destruct (check F x) as [[|]|e] eqn:Hx; simpl; [discriminate| |discriminate].
    intros Hn o [->|Ho]%elem_of_cons; [done|]. by apply IH.
  - intros Hall. rewrite (Hall x) by left. simpl.
    apply IH. intros o Ho. apply Hall. by right.
Qed.

(** Removing the offer found from the list removes it where it was
    found. *)
Lemma find_first_remove F offers o :
  find_first F offers = Ok (Some o) ->
  exists before after,
    offers = before ++ o :: after
    /\ list_remove o offers = Ok (before ++ after).
Proof.
  intros (before & after & -> & Ho & Hb)%find_first_some.
  exists before, after. split; [done|].
  apply list_remove_first. intros Hin. specialize (Hb _ Hin). congruence.
Qed.
End find_offer_facts.

Section launch_facts.
Implicit Types (w : World) (env : Env) (offers : list Offer).

Lemma step_frame_log ks calls w w1 level msg :
  step_frame ks calls w w1 ->
  step_frame (ks ++ attempts [(level, msg)]) calls
    w (set_log (log w1 ++ [(level, msg)]) w1).
Proof.
  intros (? & ? & ? & ? & Ha & ?). unfold step_frame. simpl.
  rewrite attempts_app, Ha, app_assoc. done.
Qed.

(** What one call of [launch_current_task] does, by its outcome. *)
Lemma launch_current_task_spec env offers w item :
  current_task w = Some item ->
  let r := launch_current_task env offers w in
  match r.1 with
  | Diverge => False
  | Raise e =>
      exists ks, step_frame ks [] w r.2 /\ (ks = [] \/ ks = [item_key item])
  | Return None =>
      exists needed w1,
        get_operator_mesos_resources env (item_instance item) w
        = (Return needed, w1)
        /\ find_offer offers needed = Ok None
        /\ step_frame [item_key item] [] w r.2
  | Return (Some o) =>
      exists needed w1 task,
        get_operator_mesos_resources env (item_instance item) w
        = (Return needed, w1)
        /\ find_offer offers needed = Ok (Some o)
        /\ step_frame [item_key item] [launchTasks [o_id o] [task]] w r.2
  end.
Proof.
  intros Hc. destruct item as [[key command] inst].
  unfold launch_current_task. run. rewrite Hc. simpl.
  unfold item_instance, item_key. simpl.
  destruct (get_operator_mesos_resources_frame env inst w) as [Hd Hf].
  destruct (get_operator_mesos_resources env inst w)
    as [[needed|e|] w1] eqn:Hres; simpl in *; [|by eauto|done].
  destruct (find_offer offers needed) as [[o|]|e] eqn:Hfind; simpl.
  - destruct (build_task_info_frame key command needed o
                (set_log (log w1 ++ [(INFO, MsgAttempt key needed)]) w1))
      as [Hd' Hf'].
    destruct (build_task_info key command needed o _)
      as [[task|e|] w2] eqn:Hb; simpl in *; [| |done].
    + exists needed, w1, task. split_and!; [done..|].
      pose proof (step_frame_trans _ _ _ _ _ _ _
                    (step_frame_log _ _ _ _ INFO (MsgAttempt key needed) Hf)
                    Hf') as Hf2.
      simpl in Hf2. destruct Hf2 as (? & ? & ? & Hdrv & Hatt & ?).
      unfold step_frame. simpl. rewrite attempts_app. simpl.
      rewrite app_nil_r, Hdrv, app_nil_r. done.
    + exists [key]. split; [|by right].
      pose proof (step_frame_trans _ _ _ _ _ _ _
                    (step_frame_log _ _ _ _ INFO (MsgAttempt key needed) Hf)
                    Hf') as Hf2.
      done.
  - exists needed, w1. split_and!; [done..|].
    destruct Hf as (? & ? & ? & Hdrv & Hatt & ?).
    rewrite app_nil_r in Hdrv, Hatt.
    unfold step_frame. simpl. rewrite !attempts_app, Hatt. simpl.
    rewrite !app_nil_r. done.
  - exists [key]. split; [|by right].
    apply (step_frame_log _ _ _ _ INFO (MsgAttempt key needed) Hf).
Qed.
End launch_facts.

Section loop_facts.
Implicit Types (w : World) (env : Env) (avail : list Offer).

Lemma loop_condition_pending avail w :
  loop_condition avail w = true <-> pending w <> [] /\ avail <> [].
Proof.
  unfold loop_condition, pending.
  rewrite andb_true_iff, orb_true_iff, negb_true_iff.
  rewrite bool_decide_eq_false, !bool_decide_eq_true.
  destruct (current_task w) as [t|], (scheduler_tasks w) as [|t' q],
    avail as [|o avail]; simpl; split;
    try (intros [[?|[? ?]] ?]; split; (done || lia));
    try (intros [? ?]; done); try (intros [[?|[? [=]]] ?]; done).
  all: intros _; split; [|lia]; eauto.
Qed.

Lemma take_current_pending w : pending (take_current w) = pending w.
Proof.
  unfold take_current, pending.
  destruct (current_task w) eqn:Hc, (scheduler_tasks w) eqn:Hq; simpl;
    rewrite ?Hc, ?Hq; done.
Qed.

Lemma take_current_some w :
  pending w <> [] -> current_task (take_current w) = head (pending w).
Proof.
  unfold take_current, pending.
  destruct (current_task w) eqn:Hc, (scheduler_tasks w) eqn:Hq; simpl;
    rewrite ?Hc; done.
Qed.

(** One turn of the loop. *)
Lemma resourceOffers_loop_unfold fuel env avail w :
  resourceOffers_loop (S fuel) env avail w
  = if loop_condition avail w then
      match launch_current_task env avail (take_current w) with
      | (Return (Some on_offer), w1) =>
          match list_remove on_offer avail with
          | Ok avail' =>
              resourceOffers_loop fuel env avail' (set_current_task None w1)
          | Err e => (Raise e, set_current_task None w1)
          end
      | (Return None, w1) =>
          match current_task w1 with
          | Some task =>
              (Return avail,
               set_log (log w1 ++ [(INFO, MsgUnableFindOffer (item_key task))])
                 w1)
          | None =>
              (Raise (TypeError "'NoneType' object has no attribute '__getitem__'"),
               w1)
          end
      | (Raise e, w1) => (Raise e, w1)
      | (Diverge, w1) => (Diverge, w1)
      end
    else (Return avail, w).
Proof.
  unfold loop_condition, take_current. simpl. run.
  unfold scheduler_tasks_get.
  destruct (current_task w) as [t|] eqn:Hc,
    (scheduler_tasks w) as [|t' q] eqn:Hq; simpl;
    destruct (bool_decide (0 < length avail)); simpl; try done.
  all: unfold scheduler_tasks_get; rewrite ?Hq, ?Hc; simpl.
  all: match goal with
       | |- context [launch_current_task ?e ?a ?w0] =>
           destruct (launch_current_task e a w0) as [[[o|]|err|] w1];
             simpl; try done
       end.
  all: try (match goal with
            | |- context [list_remove ?o ?a] =>
                destruct (list_remove o a); done
            end).
  all: match goal with
       | |- context [current_task ?w1] => destruct (current_task w1); done
       end.
Qed.
End loop_facts.

Section loop_summary_facts.
Implicit Types (w : World) (env : Env) (avail : list Offer).

Lemma take_current_fields w :
  driver (take_current w) = driver w
  /\ scheduler_results (take_current w) = scheduler_results w
  /\ log (take_current w) = log w.
Proof.
  unfold take_current.
  destruct (current_task w), (scheduler_tasks w); done.
Qed.

Lemma pending_keys w :
  item_key <$> pending w
  = option_list (item_key <$> current_task w)
    ++ (item_key <$> scheduler_tasks w).
Proof.
  unfold pending. rewrite fmap_app. by destruct (current_task w).
Qed.

Lemma step_frame_pending ks calls w w1 :
  step_frame ks calls w w1 ->
  item_key <$> pending w1 = item_key <$> pending w.
Proof.
  intros (Hq & _ & _ & _ & _ & Hc). by rewrite !pending_keys, Hq, Hc.
Qed.

(** A loop that stops at once. *)
Lemma loop_summary_stop avail w : loop_summary avail w (Return avail) w.
Proof.
  split; [done|]. exists [], 0. simpl. rewrite !app_nil_r, drop_0.
  split_and!; try done.
  - apply submseteq_nil_l.
  - by intros remaining [= <-].
  - lia.
Qed.

(** A turn that launches nothing: the current item may have been
    attempted, and the loop is over. *)
Lemma loop_summary_last avail w w1 out ks item rest :
  pending w = item :: rest ->
  step_frame ks [] (take_current w) w1 ->
  ks = [] \/ ks = [item_key item] ->
  out <> Diverge ->
  (forall remaining, out = Return remaining -> remaining = avail) ->
  loop_summary avail w out w1.
Proof.
  intros Hp Hf Hks Hout Hrem. split; [done|].
  pose proof (step_frame_pending _ _ _ _ Hf) as Hkeys.
  rewrite take_current_pending, Hp in Hkeys.
  destruct Hf as (_ & Hres & _ & Hdrv & Hatt & _).
  destruct (take_current_fields w) as (Hd0 & Hr0 & Hl0).
  rewrite Hd0, app_nil_r in Hdrv. rewrite Hr0 in Hres. rewrite Hl0 in Hatt.
  exists [], (length ks). simpl. rewrite app_nil_r, Hp, drop_0.
  split_and!; try done.
  - apply submseteq_nil_l.
  - intros remaining ->%Hrem. done.
  - rewrite Hatt. by destruct Hks as [-> | ->].
  - lia.
  - destruct Hks as [-> | ->]; simpl; lia.
Qed.
End loop_summary_facts.

Section loop_run.
Implicit Types (w : World) (env : Env) (avail : list Offer).

(** A turn that launches the current item on [o] and goes on with the
    rest of the pool. *)
Lemma loop_summary_launch before after o task w w1 out w' item rest :
  pending w = item :: rest ->
  step_frame [item_key item] [launchTasks [o_id o] [task]]
    (take_current w) w1 ->
  loop_summary (before ++ after) (set_current_task None w1) out w' ->
  loop_summary (before ++ o :: after) w out w'.
Proof.
  intros Hp Hf (Hout & used & n & Hdrv & Hres & Hsub & Hrem & Hkeys & Hatt & Hn).
  split; [done|].
  destruct (take_current_fields w) as (Hd0 & Hr0 & Hl0).
  assert (scheduler_tasks w1 = rest) as Hq.
  { destruct Hf as (-> & _).
    pose proof (take_current_pending w) as Hp'.
    pose proof (take_current_some w) as Hc'. rewrite Hp in Hp', Hc'.
    unfold pending in Hp'. rewrite Hc' in Hp' by done. simpl in Hp'.
    by injection Hp'. }
  assert (pending (set_current_task None w1) = rest) as Hp1 by done.
  rewrite Hp1 in Hkeys, Hatt.
  destruct Hf as (_ & Hres1 & _ & Hdrv1 & Hatt1 & _).
  rewrite Hd0 in Hdrv1. rewrite Hr0 in Hres1. rewrite Hl0 in Hatt1.
  simpl in Hdrv, Hres, Hatt.
  exists ((o, task) :: used), (S n). rewrite Hp. simpl.
  split_and!.
  - rewrite Hdrv, Hdrv1, <- app_assoc. done.
  - congruence.
  - rewrite <- Permutation_middle. by apply submseteq_skip.
  - intros remaining Hr. destruct (Hrem _ Hr) as [Hperm Hsl]. split.
    + rewrite <- Permutation_middle. by constructor.
    + etrans; [done|]. apply sublist_app; [done|]. by apply sublist_cons.
  - done.
  - rewrite Hatt, Hatt1, <- app_assoc. done.
  - lia.
  - lia.
Qed.

(** The loop comes back, whatever the fuel not below the size of the
    pool, and what it has done is summed up by [loop_summary]. *)
Lemma resourceOffers_loop_summary env fuel : forall avail w,
  length avail <= fuel ->
  loop_summary avail w (resourceOffers_loop fuel env avail w).1
                       (resourceOffers_loop fuel env avail w).2.
Proof.
  induction fuel as [|fuel IH]; intros avail w Hlen.
  { destruct avail; [|simpl in Hlen; lia]. simpl. run.
    rewrite andb_false_r. simpl. apply loop_summary_stop. }
  rewrite resourceOffers_loop_unfold.
  destruct (loop_condition avail w) eqn:Hcond; [|apply loop_summary_stop].
  apply loop_condition_pending in Hcond as [Hpend Havail].
  pose proof (take_current_some w Hpend) as Hcur.
  destruct (pending w) as [|item rest] eqn:Hp; [done|]. simpl in Hcur.
  pose proof (launch_current_task_spec env avail (take_current w) item Hcur)
    as Hl. simpl in Hl.
  destruct (launch_current_task env avail (take_current w))
    as [[[o|]|e|] w1] eqn:Hlaunch; simpl in Hl; [| | |done].
  - destruct Hl as (needed & w0 & task & Hres & Hfind & Hf).
    destruct (find_first_remove _ _ _ Hfind)
      as (before & after & -> & Hrem).
    rewrite Hrem. eapply loop_summary_launch; [done..|].
    apply IH. rewrite length_app in *. simpl in Hlen. lia.
  - destruct Hl as (needed & w0 & Hres & Hfind & Hf).
    assert (exists task, current_task w1 = Some task /\ item_key task = item_key item)
      as (task & Htask & Hkey).
    { destruct Hf as (_ & _ & _ & _ & _ & Hc). rewrite Hcur in Hc.
      destruct (current_task w1) as [task|]; [|done].
      injection Hc as Hc. eauto. }
    rewrite Htask. simpl.
    eapply (loop_summary_last _ _ _ _ [item_key item]); [done| |by right|done|].
    + pose proof (step_frame_log _ _ _ _ INFO
                    (MsgUnableFindOffer (item_key task)) Hf) as Hf'.
      simpl in Hf'. done.
    + by intros remaining [= <-].
  - destruct Hl as (ks & Hf & Hks). simpl.
    by eapply loop_summary_last.
Qed.
End loop_run.

Section round_facts.
Implicit Types (w : World) (env : Env) (avail offers : list Offer).

(** A turn of the loop in which no offer of the pool passes the filter of
    the current item: the loop is over, the pool is returned whole, the
    item is still the current task and the queue behind it is as it
    was. *)
Lemma resourceOffers_loop_no_offer env fuel avail w item needed w1 :
  current_task (take_current w) = Some item ->
  avail <> [] ->
  get_operator_mesos_resources env (item_instance item) (take_current w)
  = (Return needed, w1) ->
  (forall o, o ∈ avail -> check (offer_filter_of needed) o = Ok false) ->
  let key := item_key item in
  resourceOffers_loop (S fuel) env avail w
  = (Return avail,
     set_log (log w1 ++ [(INFO, MsgAttempt key needed);
                         (INFO, MsgNoSuitableOffer key);
                         (INFO, MsgUnableFindOffer key)]) w1)
  /\ item_key <$> current_task w1 = Some key
  /\ scheduler_tasks w1 = scheduler_tasks (take_current w)
  /\ driver w1 = driver w
  /\ attempts (log w1) = attempts (log w).
Proof.
  intros Hcur Havail Hres Hall key.
  destruct (get_operator_mesos_resources_frame env (item_instance item)
              (take_current w)) as [_ Hf].
  rewrite Hres in Hf. simpl in Hf.
  destruct Hf as (Hq & _ & _ & Hdrv & Hatt & Hc).
  destruct (take_current_fields w) as (Hd0 & _ & Hl0).
  rewrite Hd0, app_nil_r in Hdrv. rewrite Hl0, app_nil_r in Hatt.
  rewrite Hcur in Hc. simpl in Hc.
  split; [|done].
  rewrite resourceOffers_loop_unfold.
  assert (loop_condition avail w = true) as ->.
  { apply loop_condition_pending. split; [|done].
    intros Hp. rewrite <- take_current_pending in Hp.
    unfold pending in Hp. by rewrite Hcur in Hp. }
  destruct item as [[k command] inst].
  unfold launch_current_task. run. rewrite Hcur. simpl.
  unfold item_instance in Hres. simpl in Hres. rewrite Hres. simpl.
  assert (find_offer avail needed = Ok None) as ->
    by by apply find_first_none.
  simpl. destruct (current_task w1) as [task|]; [|done].
  injection Hc as Hc. simpl. rewrite Hc.
  subst key. unfold item_key. simpl.
  by rewrite <- !app_assoc.
Qed.

Lemma resourceOffers_try_run env offers w :
  resourceOffers_try env offers w
  = match resourceOffers_loop (length offers) env offers
            (round_start offers w) with
    | (Return available_offers, w1) =>
        (Return tt,
         set_driver (driver w1 ++ [launchTasks (o_id <$> available_offers) []])
           w1)
    | (Raise e, w1) => (Raise e, w1)
    | (Diverge, w1) => (Diverge, w1)
    end.
Proof.
  unfold resourceOffers_try, round_start. run.
  by destruct (resourceOffers_loop _ _ _ _) as [[?|?|] ?].
Qed.

Lemma round_start_fields offers w :
  pending (round_start offers w) = pending w
  /\ driver (round_start offers w) = driver w
  /\ scheduler_results (round_start offers w) = scheduler_results w
  /\ attempts (log (round_start offers w)) = attempts (log w).
Proof.
  unfold round_start, pending. simpl. rewrite attempts_app. simpl.
  by rewrite app_nil_r.
Qed.

(** A whole round, by the outcome of the body of its [try]. *)
Lemma resourceOffers_round env offers w :
  let body := resourceOffers_try env offers w in
  let r := resourceOffers env offers w in
  r.1 = Return tt
  /\ exists (used : list (Offer * TaskInfo)) (released : list Offer) (n : nat),
       driver r.2 = driver w ++ (launch_call <$> used)
                    ++ [launchTasks (o_id <$> released) []]
       /\ scheduler_results r.2 = scheduler_results w
       /\ used.*1 ⊆+ offers
       /\ item_key <$> pending r.2
          = drop (length used) (item_key <$> pending w)
       /\ attempts (log r.2)
          = attempts (log w) ++ take n (item_key <$> pending w)
       /\ length used <= n <= length used + 1
       /\ match body.1 with
          | Return _ => used.*1 ++ released ≡ₚ offers
                        /\ sublist released offers
          | Raise _ => released = offers
          | Diverge => False
          end.
Proof.
  intros body r. subst body r. unfold resourceOffers, try_except.
  rewrite resourceOffers_try_run.
  destruct (round_start_fields offers w) as (Hp0 & Hd0 & Hr0 & Ha0).
  pose proof (resourceOffers_loop_summary env (length offers) offers
                (round_start offers w) (Nat.le_refl _))
    as (Hout & used & n & Hdrv & Hres & Hsub & Hrem & Hkeys & Hatt & Hn).
  rewrite Hp0 in Hkeys, Hatt. rewrite Hd0 in Hdrv. rewrite Hr0 in Hres.
  rewrite Ha0 in Hatt.
  destruct (resourceOffers_loop _ _ _ _) as [[remaining|e|] w1];
    simpl in *; [| |done].
  - split; [done|]. exists used, remaining, n.
    rewrite Hdrv, <- app_assoc. split_and!; try done; try lia.
    + by apply Hrem.
    + by apply Hrem.
  - run. split; [done|]. exists used, offers, n. simpl.
    rewrite Hdrv, <- app_assoc, attempts_app. simpl. rewrite app_nil_r.
    split_and!; try done; lia.
Qed.
End round_facts.

(** C2. A round always returns, whatever happens in the body of its
    [try], which itself returns or raises. The driver receives one call
    [launchTasks [offer] [task]] for each work item launched, on offers of
    the batch, no offer twice, then exactly one call that releases offers
    with no task. The items launched are the first pending ones, as many as
    offers used. When the body returns, the offers released are the pool
    left by the loop: the batch without the offers used, in the order of
    delivery. When the body raises, the offers released are the whole
    batch as delivered. *)
Theorem resourceOffers_releases_offers
    (env : Env) (offers : list Offer) (w : World) :
  let body := (resourceOffers_try env offers w).1 in
  let w' := (resourceOffers env offers w).2 in
  (resourceOffers env offers w).1 = Return tt
  /\ body <> Diverge
  /\ exists (used : list (Offer * TaskInfo)) (released : list Offer),
       driver w' = driver w ++ (launch_call <$> used)
                   ++ [launchTasks (o_id <$> released) []]
       /\ used.*1 ⊆+ offers
       /\ item_key <$> pending w'
          = drop (length used) (item_key <$> pending w)
       /\ (body = Return tt ->
             used.*1 ++ released ≡ₚ offers /\ sublist released offers)
       /\ (forall e, body = Raise e -> released = offers).
Proof.
  intros body w'. subst body w'.
  destruct (resourceOffers_round env offers w)
    as (Hret & used & released & n & Hdrv & _ & Hsub & Hkeys & _ & _ & Hbody).
  split; [done|]. split.
  { intros Hd. by rewrite Hd in Hbody. }
  exists used, released. split_and!; [done..| |].
  - intros Hb. by rewrite Hb in Hbody.
  - intros e Hb. by rewrite Hb in Hbody.
Qed.

Lemma resourceOffers_releases_offers_witness :
  let w := set_scheduler_tasks
             [sample_item "extract"; sample_item "load"; sample_item "extract"]
             empty_world in
  (resourceOffers sample_env
     [sample_offer "a" (qc 2 1); sample_offer "b" (qc 1 2)] w).1 = Return tt.
Proof.
  intros w.
  exact (proj1 (resourceOffers_releases_offers sample_env
                  [sample_offer "a" (qc 2 1); sample_offer "b" (qc 1 2)] w)).
Defined.

(** * Worked examples *)

(** The override replaces the default of its name and the other defaults
    stay, in front. *)
Example merge_resources_cpu :
  merge_resources [MesosScalarResource "cpu" (qc 1 10)]
                  [MesosScalarResource "cpu" (qc 4 1)]
  = Ok [MesosScalarResource "cpu" (qc 4 1)]
  /\ merge_resources [MesosScalarResource "cpu" (qc 1 10);
                      MesosScalarResource "mem" (qc 64 1)]
                     [MesosScalarResource "cpu" (qc 4 1)]
     = Ok [MesosScalarResource "mem" (qc 64 1);
           MesosScalarResource "cpu" (qc 4 1)].
Proof. split; vm_compute; reflexivity. Qed.

(** Two overrides equal to the default of their name: the second one
    removes the first from the list, and one override is lost. *)
Example merge_resources_equal_overrides :
  merge_resources [MesosScalarResource "cpu" (qc 1 1)]
                  [MesosScalarResource "cpu" (qc 1 1);
                   MesosScalarResource "cpu" (qc 1 1)]
  = Ok [MesosScalarResource "cpu" (qc 1 1)].
Proof. vm_compute. reflexivity. Qed.

(** A round with three items queued and two offers: the first item is
    launched on the first offer; the second item needs four cpus, which the
    second offer has not, so it stays the current task, the third item stays
    on the queue, and the second offer is released. *)
Example round_first_fit :
  let w' := (resourceOffers sample_env
               [sample_offer "a" (qc 2 1); sample_offer "b" (qc 1 2)]
               queued_world).2 in
  call_summary <$> driver w'
  = [(["a"], ["airflow:0:etl:extract:20170309140500000000"]); (["b"], [])]
  /\ item_key <$> current_task w' = Some (sample_key "load")
  /\ item_key <$> scheduler_tasks w' = [sample_key "extract"]
  /\ attempts (log w') = [sample_key "extract"; sample_key "load"]
  /\ dom (mesos_task_to_airflow_task w')
     = {[ "airflow:0:etl:extract:20170309140500000000" ]}.
Proof. vm_compute. split_and!; reflexivity. Qed.

(** A round in which the filter raises on the second offer, after the first
    item was launched on the first: the exception is caught, the whole
    batch is released, and the item being matched stays the current task. *)
Example round_exception :
  let offers := [sample_offer "a" (qc 2 1); ambiguous_offer "b"] in
  let w' := (resourceOffers sample_env offers queued_world).2 in
  (resourceOffers_try sample_env offers queued_world).1
  = Raise (GenericException "Found more than one resource for name")
  /\ (resourceOffers sample_env offers queued_world).1 = Return tt
  /\ call_summary <$> driver w'
     = [(["a"], ["airflow:0:etl:extract:20170309140500000000"]);
        (["a"; "b"], [])]
  /\ item_key <$> current_task w' = Some (sample_key "load").
Proof. vm_compute. split_and!; reflexivity. Qed.

(** * Further properties of the filters *)

Section composite_filter.
Implicit Types (f g : AirflowMesosFilter) (fs : list AirflowMesosFilter)
(offer : Offer).

Lemma check_offer_filter_cons f fs offer :
check (AirflowMesosOfferFilter (f :: fs)) offer
= result_bind (check f offer) (fun matched =>
    if negb matched then Ok false
    else check (AirflowMesosOfferFilter fs) offer).
Proof. reflexivity. Qed.

Lemma check_offer_filter_true fs offer :
check (AirflowMesosOfferFilter fs) offer = Ok true <->
forall f, f ∈ fs -> check f offer = Ok true.
Proof.
induction fs as [|f fs IH].
{ split; [|done]. intros _ f Hf. by apply elem_of_nil in Hf. }
rewrite check_offer_filter_cons. split.
- destruct (check f offer) as [[|]|e] eqn:Hf; simpl; [|done..].
  intros Hrest g [->|Hg]%elem_of_cons; [done|]. by apply IH.
- intros Hall. rewrite (Hall f) by left. simpl.
  apply IH. intros g Hg. apply Hall. by right.
Qed.

(** Any other verdict of the composite filter is the verdict of its first
  constituent that does not match; the constituents after that one are
  not evaluated. *)
Lemma check_offer_filter_first fs offer (r : result bool) :
r <> Ok true ->
check (AirflowMesosOfferFilter fs) offer = r <->
exists before f after,
  fs = before ++ f :: after
  /\ (forall g, g ∈ before -> check g offer = Ok true)
  /\ check f offer = r.
Proof.
intros Hr. induction fs as [|f fs IH].
{ split; [by intros <-|]. by intros ([|??] & ? & ? & ? & _). }
rewrite check_offer_filter_cons. split.
- destruct (check f offer) as [[|]|e] eqn:Hf; simpl.
  + intros (before & g & after & -> & Hb & Hg)%IH.
    exists (f :: before), g, after. split_and!; [done| |done].
    intros h [->|Hh]%elem_of_cons; [done|by apply Hb].
  + intros <-. exists [], f, fs. split_and!; [done| |done].
    intros g Hg. by apply elem_of_nil in Hg.
  + intros <-. exists [], f, fs. split_and!; [done| |done].
    intros g Hg. by apply elem_of_nil in Hg.
- intros ([|f' before] & g & after & Heq & Hb & Hg); simpl in Heq;
    injection Heq as -> ->.
  + rewrite Hg. destruct r as [[|]|e]; done.
  + rewrite (Hb f') by left. simpl. apply IH. exists before, g, after.
    split_and!; [done| |done]. intros h Hh. apply Hb. by right.
Qed.
End composite_filter.

(** X1. The composite filter matches an offer exactly when every
    constituent filter matches it (so the empty composite matches every
    offer); it returns [False] exactly when its first constituent that does
    not match returns [False], and raises exactly the exception of its first
    constituent that does not match: the constituents behind that one are
    not evaluated, so an exception one of them would raise is not seen. *)
Theorem check_offer_filter_conjunction
    (filters : list AirflowMesosFilter) (offer : Offer) :
  let verdict := check (AirflowMesosOfferFilter filters) offer in
  (verdict = Ok true <-> forall f, f ∈ filters -> check f offer = Ok true)
  /\ (verdict = Ok false <->
      exists before f after,
        filters = before ++ f :: after
        /\ (forall g, g ∈ before -> check g offer = Ok true)
        /\ check f offer = Ok false)
  /\ (forall e, verdict = Err e <->
      exists before f after,
        filters = before ++ f :: after
        /\ (forall g, g ∈ before -> check g offer = Ok true)
        /\ check f offer = Err e).
Proof.
  simpl. split_and!.
  - apply check_offer_filter_true.
  - by apply check_offer_filter_first.
  - intros e. by apply check_offer_filter_first.
Qed.

(** A filter for a missing resource in front hides the exception of the
    filter behind it. *)
Lemma check_offer_filter_conjunction_witness :
  check (AirflowMesosOfferFilter
           [AirflowMesosResourceFilter "gpus" (qc 1 1) INCLUDE;
            AirflowMesosResourceFilter "cpus" (qc 1 1) INCLUDE])
        (ambiguous_offer "b") = Ok false.
Proof.
  apply (proj1 (proj2 (check_offer_filter_conjunction _ _))).
  exists [], (AirflowMesosResourceFilter "gpus" (qc 1 1) INCLUDE),
    [AirflowMesosResourceFilter "cpus" (qc 1 1) INCLUDE].
  split_and!; [done| |done].
  intros g Hg. by apply elem_of_nil in Hg.
Defined.

Section range_filters.
Implicit Types (offer : Offer) (r : Resource) (name : string) (value : Qc).

Lemma in_range_spec value (range : Range) :
in_range value range = true <-> within value range.
Proof.
unfold in_range, within.
by rewrite andb_true_iff, !bool_decide_eq_true.
Qed.

Lemma existsb_in_range value (ranges : list Range) :
existsb (in_range value) ranges = true <->
exists range, range ∈ ranges /\ within value range.
Proof.
rewrite existsb_exists. split.
- intros (range & Hin & Hr). exists range.
  by rewrite list_elem_of_In, <- in_range_spec.
- intros (range & Hin & Hr). exists range.
  by rewrite <- list_elem_of_In, in_range_spec.
Qed.
End range_filters.

(** X2. Against an offer whose only resource of the filter's name is a
    single range, the INCLUDE filter matches exactly when
    [begin <= value <= end], both bounds included, and the EXCLUDE filter
    matches exactly when the value lies outside; neither raises. *)
Theorem check_range_inclusive
    (name : string) (value : Qc) (offer : Offer) (r : Resource) :
  filter (fun x => rs_name x = name) (o_resources offer) = [r] ->
  rs_type r = RANGE ->
  let incl := check (AirflowMesosResourceFilter name value INCLUDE) offer in
  let excl := check (AirflowMesosResourceFilter name value EXCLUDE) offer in
  (exists b, incl = Ok b /\ excl = Ok (negb b))
  /\ (incl = Ok true <-> within value (rs_range r))
  /\ (excl = Ok true <-> ~ within value (rs_range r)).
Proof.
  intros Hone Hty. simpl. unfold check_resource.
  rewrite (get_resource_single _ _ _ Hone). simpl. rewrite Hty.
  unfold check_range. simpl. split_and!.
  - eauto.
  - rewrite <- in_range_spec. split; [by intros [= ->]|by intros ->].
  - rewrite <- in_range_spec.
    destruct (in_range value (rs_range r)); simpl; split; try done.
    all: intros Hn; by destruct Hn.
Qed.

Lemma check_range_inclusive_witness :
  let offer := range_offer "port" RANGE {| r_begin := 8000; r_end := 9000 |} [] in
  check (AirflowMesosResourceFilter "port" (qc 9000 1) INCLUDE) offer = Ok true.
Proof.
  intros offer.
  apply (proj1 (proj2 (check_range_inclusive "port" (qc 9000 1) offer _
                         eq_refl eq_refl))).
  split; vm_compute; discriminate.
Defined.

(** X3. Against an offer whose only resource of the filter's name is a set
    of ranges, the INCLUDE filter matches exactly when some range of the
    set holds the value, bounds included, and the EXCLUDE filter exactly
    when none does; with an empty set INCLUDE does not match and EXCLUDE
    does. Neither raises. *)
Theorem check_ranges_any
    (name : string) (value : Qc) (offer : Offer) (r : Resource) :
  filter (fun x => rs_name x = name) (o_resources offer) = [r] ->
  rs_type r = RANGES ->
  let incl := check (AirflowMesosResourceFilter name value INCLUDE) offer in
  let excl := check (AirflowMesosResourceFilter name value EXCLUDE) offer in
  (exists b, incl = Ok b /\ excl = Ok (negb b))
  /\ (incl = Ok true <->
      exists range, range ∈ rs_ranges r /\ within value range)
  /\ (excl = Ok true <->
      forall range, range ∈ rs_ranges r -> ~ within value range)
  /\ (rs_ranges r = [] -> incl = Ok false /\ excl = Ok true).
Proof.
  intros Hone Hty. simpl. unfold check_resource.
  rewrite (get_resource_single _ _ _ Hone). simpl. rewrite Hty.
  unfold check_ranges. simpl. split_and!.
  - eauto.
  - rewrite <- existsb_in_range. split; [by intros [= ->]|by intros ->].
  - destruct (existsb (in_range value) (rs_ranges r)) eqn:He; simpl.
    + split; [done|]. intros Hnone.
      apply existsb_in_range in He as (range & Hin & Hw).
      by destruct (Hnone range Hin).
    + split; [|done]. intros _ range Hin Hw.
      assert (existsb (in_range value) (rs_ranges r) = true) as Ht
        by (apply existsb_in_range; eauto).
      congruence.
  - by intros ->.
Qed.

Lemma check_ranges_any_witness :
  let offer := range_offer "ports" RANGES {| r_begin := 0; r_end := 0 |}
                 [{| r_begin := 80; r_end := 90 |};
                  {| r_begin := 8000; r_end := 9000 |}] in
  check (AirflowMesosResourceFilter "ports" (qc 8080 1) INCLUDE) offer = Ok true.
Proof.
  intros offer.
  apply (proj1 (proj2 (check_ranges_any "ports" (qc 8080 1) offer _
                         eq_refl eq_refl))).
  exists {| r_begin := 8000; r_end := 9000 |}. split.
  - right. left.
  - split; vm_compute; discriminate.
Defined.

(** X4. The filter of a hostname requirement never raises and looks at
    nothing but the offer's host name: without [exclude] it matches exactly
    when the host name is one of the requirement's names or the wildcard
    ['*'] is among them, with [exclude] exactly when neither is the case.
    A requirement whose value is one name behaves as the one-element
    list. *)
Theorem check_hostname_requirement
    (value : hostvalue) (exclude : bool) (offer : Offer) :
  let listed := o_hostname offer ∈ host_list value \/ "*" ∈ host_list value in
  let verdict := check (to_filter (MesosHostnameResource value exclude)) offer in
  (exists b, verdict = Ok b)
  /\ (verdict = Ok true <-> (if exclude then ~ listed else listed))
  /\ (forall other, o_hostname other = o_hostname offer ->
        check (to_filter (MesosHostnameResource value exclude)) other = verdict)
  /\ (forall h, value = HostOne h ->
        verdict = check (to_filter (MesosHostnameResource (HostMany [h]) exclude))
                    offer).
Proof.
  simpl. unfold check_hostname. fold (host_list value).
  assert (bool_decide (o_hostname offer ∈ host_list value)
          || bool_decide ("*" ∈ host_list value) = true
          <-> o_hostname offer ∈ host_list value \/ "*" ∈ host_list value)
    as Hlisted by by rewrite orb_true_iff, !bool_decide_eq_true.
  split_and!.
  - destruct exclude; simpl; eauto.
  - destruct (bool_decide _ || bool_decide _), exclude; simpl;
      split; try done; try (intros _; by apply Hlisted).
    + intros Hn. exfalso. by apply Hn, Hlisted.
    + intros _ Hl. by apply Hlisted in Hl.
    + intros Hl. by apply Hlisted in Hl.
  - intros other ->. done.
  - by intros h ->.
Qed.

(** The wildcard matches an offer from any host, and the excluded wildcard
    matches none. *)
Lemma check_hostname_requirement_witness :
  check (to_filter (MesosHostnameResource (HostMany ["*"]) false))
        (sample_offer "a" (qc 1 1)) = Ok true.
Proof.
  apply (proj1 (proj2 (check_hostname_requirement (HostMany ["*"]) false
                         (sample_offer "a" (qc 1 1))))).
  right. left.
Defined.

(** * Further properties of the requirements *)

Lemma default_scalars_ok (l : list ResourceKwargs) :
  Forall (fun kwargs => rk_type kwargs = "scalar") l ->
  default_scalars l = Ok (scalar_of_kwargs <$> l).
Proof.
  induction 1 as [|kwargs l Hty _ IH]; simpl; [done|].
  rewrite bool_decide_eq_true_2 by done. by rewrite IH.
Qed.

Lemma default_scalars_err (l : list ResourceKwargs) :
  ~ Forall (fun kwargs => rk_type kwargs = "scalar") l ->
  default_scalars l = Err (KeyError "type").
Proof.
  induction l as [|kwargs l IH]; simpl; intros Hn.
  { destruct Hn. constructor. }
  case_bool_decide as Hty; [|done].
  rewrite IH; [done|]. intros Hl. apply Hn. by constructor.
Qed.

(** X5. [default_resources] returns the hostname requirements of the
    option [DEFAULT_HOSTNAMES] in their order ([exclude] being [False]
    where not given), then one scalar requirement for each entry of
    [DEFAULT_RESOURCES] in their order, when every such entry is of type
    ['scalar']; an option that is not set counts as the empty list. As soon
    as one entry has another type it returns nothing and raises, and the
    exception is the [KeyError] of looking up the key ['type'] that was
    popped just before, not the message the [raise] was building. *)
Theorem default_resources_result (config : Config) :
  let hostnames := default [] (DEFAULT_HOSTNAMES config) in
  let resources := default [] (DEFAULT_RESOURCES config) in
  (Forall (fun kwargs => rk_type kwargs = "scalar") resources ->
     default_resources config
     = Ok ((hostname_of_kwargs <$> hostnames) ++ (scalar_of_kwargs <$> resources)))
  /\ (~ Forall (fun kwargs => rk_type kwargs = "scalar") resources ->
        default_resources config = Err (KeyError "type"))
  /\ (DEFAULT_HOSTNAMES config = None -> DEFAULT_RESOURCES config = None ->
        default_resources config = Ok []).
Proof.
  simpl. unfold default_resources. split_and!.
  - intros Hall. by rewrite default_scalars_ok.
  - intros Hn. by rewrite default_scalars_err.
  - by intros -> ->.
Qed.

Lemma default_resources_result_witness :
  default_resources (config sample_env)
  = Ok [MesosScalarResource "cpus" (qc 1 10);
        MesosScalarResource "mem" (qc 64 1)].
Proof.
  apply (proj1 (default_resources_result (config sample_env))).
  repeat constructor.
Defined.

(** X6. Where no name of a default is borne by two overrides,
    [merge_resources] raises nothing and returns the defaults whose name no
    override bears, in their order and unchanged, followed by the overrides
    in their order and unchanged. In particular, with no override it
    returns the defaults, and with overrides of pairwise different names it
    never raises. *)
Theorem merge_resources_override_wins
    (defaults overrides : list MesosResource) :
  (unambiguous defaults overrides ->
     merge_resources defaults overrides = Ok (merge_spec defaults overrides))
  /\ (NoDup (res_name <$> overrides) -> unambiguous defaults overrides)
  /\ merge_resources defaults [] = Ok defaults.
Proof.
  split_and!.
  - apply merge_resources_unambiguous.
  - intros Hnd n _. unfold named. clear defaults.
    induction overrides as [|o overrides IH]; [simpl; lia|].
    rewrite fmap_cons in Hnd. apply NoDup_cons in Hnd as [Ho Hnd].
    destruct (decide (res_name o = n)) as [Hn|Hn].
    + rewrite filter_cons_True by done. simpl.
      assert (filter (fun x => res_name x = n) overrides = []) as ->; [|done].
      destruct (filter _ overrides) as [|x rest] eqn:Hf; [done|].
      exfalso. apply Ho.
      assert (x ∈ filter (fun x => res_name x = n) overrides) as Hx
        by (rewrite Hf; left).
      apply list_elem_of_filter in Hx as [Hxn Hxin].
      rewrite Hn, <- Hxn. by apply list_elem_of_fmap_2.
    + rewrite filter_cons_False by done. by apply IH.
  - done.
Qed.

Lemma merge_resources_override_wins_witness :
  merge_resources [MesosScalarResource "cpus" (qc 1 10);
                   MesosHostnameResource (HostMany ["*"]) false;
                   MesosScalarResource "mem" (qc 64 1)]
                  [MesosScalarResource "cpus" (qc 4 1);
                   MesosHostnameResource (HostOne "h1") false]
  = Ok [MesosScalarResource "mem" (qc 64 1);
        MesosScalarResource "cpus" (qc 4 1);
        MesosHostnameResource (HostOne "h1") false].
Proof.
  destruct (merge_resources_override_wins
              [MesosScalarResource "cpus" (qc 1 10);
               MesosHostnameResource (HostMany ["*"]) false;
               MesosScalarResource "mem" (qc 64 1)]
              [MesosScalarResource "cpus" (qc 4 1);
               MesosHostnameResource (HostOne "h1") false])
    as (Hmerge & Hnodup & _).
  rewrite Hmerge; [by vm_compute|].
  apply Hnodup. apply (bool_decide_unpack _). by vm_compute.
Defined.

(** * Further properties of the offer scheduler *)

Lemma find_first_err (F : AirflowMesosFilter) (offers : list Offer)
    (e : Exception) :
  find_first F offers = Err e <->
  exists before o after,
    offers = before ++ o :: after
    /\ (forall o', o' ∈ before -> check F o' = Ok false)
    /\ check F o = Err e.
Proof.
  induction offers as [|x offers IH]; simpl.
  { split; [done|]. by intros ([|??] & ? & ? & ? & _). }
  split.
  - destruct (check F x) as [[|]|e'] eqn:Hx; simpl; [done| |].
    + intros (before & o & after & -> & Hb & Ho)%IH.
      exists (x :: before), o, after. split_and!; [done| |done].
      intros o' [->|Ho']%elem_of_cons; [done|by apply Hb].
    + intros [= ->]. exists [], x, offers. split_and!; [done| |done].
      intros o' Ho'. by apply elem_of_nil in Ho'.
  - intros ([|x' before] & o & after & Heq & Hb & Ho); simpl in Heq;
      injection Heq as -> ->.
    + by rewrite Ho.
    + rewrite (Hb x') by left. simpl. apply IH. exists before, o, after.
      split_and!; [done| |done]. intros o' Ho'. apply Hb. by right.
Qed.

(** X7. [find_offer] raises exactly when the filter raises on an offer
    that every offer before it in the list was rejected, and then with that
    exception: an offer on which the filter would raise, but which stands
    behind an accepted offer, does no harm. With no needed resource at all
    it returns the first offer of the list, whatever it offers, and nothing
    for the empty list. *)
Theorem find_offer_raises_first
    (offers : list Offer) (needed : list MesosResource) :
  (forall e, find_offer offers needed = Err e <->
     exists before o after,
       offers = before ++ o :: after
       /\ (forall o', o' ∈ before ->
             check (offer_filter_of needed) o' = Ok false)
       /\ check (offer_filter_of needed) o = Err e)
  /\ find_offer offers [] = Ok (head offers).
Proof.
  split.
  - intros e. apply find_first_err.
  - by destruct offers.
Qed.

Lemma find_offer_raises_first_witness :
  find_offer [sample_offer "a" (qc 1 100); ambiguous_offer "b";
              sample_offer "c" (qc 8 1)]
             [MesosScalarResource "cpus" (qc 1 10)]
  = Err (GenericException "Found more than one resource for name").
Proof.
  apply (proj1 (find_offer_raises_first _ _)).
  exists [sample_offer "a" (qc 1 100)], (ambiguous_offer "b"),
    [sample_offer "c" (qc 8 1)].
  split_and!; [done| |by vm_compute].
  intros o' ->%list_elem_of_singleton. by vm_compute.
Defined.

Section task_ids.
Implicit Types (s r : string) (x tid : N).

Lemma pretty_N_char_no_colon x : pretty_N_char x <> colon.
Proof. unfold pretty_N_char. by repeat case_match. Qed.

Lemma pretty_N_go_no_colon x : forall s,
no_colon s -> no_colon (pretty_N_go x s).
Proof.
induction (N.lt_wf_0 x) as [x _ IH]. intros s Hs.
destruct (decide (0 < x)%N) as [Hx|Hx].
- rewrite pretty_N_go_step by done. apply IH.
  + apply N.div_lt; lia.
  + split; [apply pretty_N_char_no_colon|done].
- assert (x = 0%N) as -> by lia. by rewrite pretty_N_go_0.
Qed.

(** The decimal rendering of a number has no colon in it. *)
Lemma pretty_N_no_colon x : no_colon (pretty x).
Proof.
unfold pretty, pretty_N. case_decide.
- by vm_compute.
- by apply pretty_N_go_no_colon.
Qed.

(** Two colon-free strings, each followed by a colon, can only start equal
  strings when they are equal. *)
Lemma no_colon_prefix_inj s1 : forall s2 r1 r2,
no_colon s1 -> no_colon s2 ->
s1 +:+ String colon r1 = s2 +:+ String colon r2 -> s1 = s2.
Proof.
induction s1 as [|c1 s1 IH]; intros [|c2 s2] r1 r2 H1 H2; simpl;
  intros Heq; try done.
- injection Heq as Hc _. by destruct H2 as [Hc2 _].
- injection Heq as Hc _. by destruct H1 as [Hc1 _].
- injection Heq as -> Heq. f_equal.
  destruct H1 as [_ H1], H2 as [_ H2]. by eapply IH.
Qed.

Lemma task_id_inj tid1 tid2 r1 r2 :
"airflow:" +:+ pretty tid1 +:+ ":" +:+ r1
= "airflow:" +:+ pretty tid2 +:+ ":" +:+ r2 ->
tid1 = tid2.
Proof.
simpl. intros Heq. injection Heq as Heq.
apply no_colon_prefix_inj in Heq; [|apply pretty_N_no_colon..].
by apply (inj pretty) in Heq.
Qed.
End task_ids.

Lemma build_task_info_run key command needed offer w :
  build_task_info key command needed offer w
  = match strftime (k_execution_date key) with
    | Ok stamp =>
        (Return
           {| ti_task_id := "airflow:" +:+ pretty (task_counter w) +:+ ":"
                            +:+ k_dag_id key +:+ ":" +:+ k_task_id key
                            +:+ ":" +:+ stamp;
              ti_name := "AirflowTask { MesosTask: " +:+ pretty (task_counter w)
                         +:+ ", DAG: " +:+ k_dag_id key
                         +:+ ", TaskID: " +:+ k_task_id key
                         +:+ ", Execution: "
                         +:+ datetime_str (k_execution_date key) +:+ " }";
              ti_slave_id := o_slave_id offer;
              ti_resources := omap task_resource_of needed;
              ti_command := Some {| ci_shell := true; ci_value := command |} |},
         set_task_counter (task_counter w + 1) w)
    | Err e => (Raise e, set_task_counter (task_counter w + 1) w)
    end.
Proof.
  unfold build_task_info. run.
  destruct (strftime (k_execution_date key)) as [stamp|e]; simpl; [|done].
  do 2 f_equal.
  match goal with
  | |- context [foldl ?f ?t0 needed] =>
      assert (forall acc t, ti_resources t = acc ->
                (ti_task_id (foldl f t needed) = ti_task_id t
                 /\ ti_name (foldl f t needed) = ti_name t
                 /\ ti_slave_id (foldl f t needed) = ti_slave_id t
                 /\ ti_resources (foldl f t needed)
                    = acc ++ omap task_resource_of needed)) as Hfold
  end.
  { clear. induction needed as [|r needed IH]; intros acc t Ht; simpl.
    { by rewrite app_nil_r. }
    destruct r as [name value|value exclude]; simpl.
    - edestruct (IH (acc ++ [scalar_resource name value])) as (-> & -> & -> & ->);
        [simpl; by rewrite Ht|].
      simpl. by rewrite <- app_assoc.
    - by apply IH. }
  edestruct (Hfold []) as (-> & -> & -> & ->); [reflexivity|]. done.
Qed.

(** X8. Every call of [build_task_info] adds one to the task counter,
    whether it returns or raises, and two tasks built at different values
    of the counter have different task ids, whatever their keys, commands
    and offers (the ids differ in the number between the first two
    colons): while the counter only goes up, no task id is used twice. *)
Theorem build_task_info_fresh_id
    (key1 key2 : Key) (command1 command2 : string)
    (needed1 needed2 : list MesosResource) (offer1 offer2 : Offer)
    (w1 w2 : World) :
  let r1 := build_task_info key1 command1 needed1 offer1 w1 in
  let r2 := build_task_info key2 command2 needed2 offer2 w2 in
  task_counter r1.2 = (task_counter w1 + 1)%N
  /\ (forall t1 t2, r1.1 = Return t1 -> r2.1 = Return t2 ->
        task_counter w1 <> task_counter w2 ->
        ti_task_id t1 <> ti_task_id t2)
  /\ (forall t1 t2, r1.1 = Return t1 ->
        (build_task_info key2 command2 needed2 offer2 r1.2).1 = Return t2 ->
        ti_task_id t1 <> ti_task_id t2).
Proof.
  simpl.
  assert (forall key command needed offer w,
            (build_task_info key command needed offer w).2
            = set_task_counter (task_counter w + 1) w) as Hw.
  { intros. rewrite build_task_info_run. by destruct (strftime _). }
  assert (forall w w', task_counter w <> task_counter w' ->
            forall t1 t2,
              (build_task_info key1 command1 needed1 offer1 w).1 = Return t1 ->
              (build_task_info key2 command2 needed2 offer2 w').1 = Return t2 ->
              ti_task_id t1 <> ti_task_id t2) as Hfresh.
  { intros w w' Hne t1 t2. rewrite !build_task_info_run.
    destruct (strftime (k_execution_date key1)); simpl; [|done].
    destruct (strftime (k_execution_date key2)); simpl; [|done].
    intros [= <-] [= <-]. simpl. intros Heq. by apply task_id_inj in Heq. }
  split_and!.
  - by rewrite Hw.
  - intros t1 t2 H1 H2 Hne. by eapply Hfresh.
  - intros t1 t2 H1 H2. eapply Hfresh; [|done..].
    rewrite Hw. simpl. lia.
Qed.

Lemma build_task_info_fresh_id_witness :
  task_counter (build_task_info (sample_key "extract") "run" []
                  (sample_offer "a" (qc 1 1)) empty_world).2 = 1%N.
Proof.
  exact (proj1 (build_task_info_fresh_id
                  (sample_key "extract") (sample_key "extract")
                  "run" "run" [] [] (sample_offer "a" (qc 1 1))
                  (sample_offer "a" (qc 1 1)) empty_world empty_world)).
Defined.

(** X9. [build_task_info] raises exactly when the execution date of the
    key lies before the year 1900 (the [ValueError] of [strftime]), and
    then the counter has gone up all the same. Otherwise the task it
    returns runs on the slave of the offer, carries the command as a shell
    command, and asks for exactly the scalar amounts of the needed
    resources, in their order: a hostname requirement adds no resource, and
    nothing of what the offer holds beyond the need is asked for. *)
Theorem build_task_info_contents
    (key : Key) (command : string) (needed : list MesosResource)
    (offer : Offer) (w : World) :
  let r := build_task_info key command needed offer w in
  ((exists e, r.1 = Raise e) <-> (year (k_execution_date key) < 1900)%N)
  /\ r.1 <> Diverge
  /\ (forall task, r.1 = Return task ->
        ti_slave_id task = o_slave_id offer
        /\ ti_command task = Some {| ci_shell := true; ci_value := command |}
        /\ ti_resources task = omap task_resource_of needed
        /\ length (ti_resources task) <= length needed).
Proof.
  simpl. rewrite build_task_info_run. unfold strftime.
  case_bool_decide as Hy; simpl.
  - split_and!; [|done|done]. split; [by intros _|intros _; by eexists].
  - split_and!; [|done|].
    + split; [by intros [e ?]|done].
    + intros task [= <-]. simpl. split_and!; [done..|].
      clear. induction needed as [|[?|?] needed IH]; csimpl; lia.
Qed.

Lemma build_task_info_contents_witness :
  let key := {| k_dag_id := "etl"; k_task_id := "extract";
                k_execution_date :=
                  {| year := 1899; month := 12; day := 31; hour := 23;
                     minute := 59; second := 59; microsecond := 0 |} |} in
  exists e, (build_task_info key "run" [] (sample_offer "a" (qc 1 1))
               empty_world).1 = Raise e.
Proof.
  intros key.
  apply (proj1 (build_task_info_contents key "run" []
                  (sample_offer "a" (qc 1 1)) empty_world)).
  by vm_compute.
Defined.

(** * Further properties of the status tracker *)

Section status_steps.
Implicit Types (w : World) (status : TaskStatus).

Lemma status_step_refl w : status_step w w.
Proof.
unfold status_step. split_and!; try done.
- intros task_id d' Hd. eauto.
- exists []. rewrite app_nil_r. split_and!; [done..|].
  intros r Hr. by apply elem_of_nil in Hr.
Qed.

Lemma status_step_trans w1 w2 w3 :
status_step w1 w2 -> status_step w2 w3 -> status_step w1 w3.
Proof.
intros (? & ? & ? & ? & ? & Hk1 & em1 & Hr1 & Hs1 & He1)
       (? & ? & ? & ? & ? & Hk2 & em2 & Hr2 & Hs2 & He2).
unfold status_step. split_and!; try congruence.
- intros task_id d3 Hd3.
  destruct (Hk2 _ _ Hd3) as (d2 & Hd2 & Hkey2).
  destruct (Hk1 _ _ Hd2) as (d1 & Hd1 & Hkey1).
  exists d1. split; [done|congruence].
- exists (em1 ++ em2). rewrite Hr2, Hr1, <- app_assoc, length_app.
  split_and!; [done|lia|].
  intros r [Hr|Hr]%elem_of_app; [by apply He1|].
  destruct (He2 _ Hr) as (task_id & d2 & Hd2 & Hkey2).
  destruct (Hk1 _ _ Hd2) as (d1 & Hd1 & Hkey1).
  exists task_id, d1. split; [done|congruence].
Qed.

Lemma size_tracked (m : gmap string Entry) task_id d :
m !! task_id = Some d -> S (size (delete task_id m)) = size m.
Proof.
intros Hd. rewrite <- (insert_delete_id m task_id d) at 2 by done.
by rewrite map_size_insert_None by apply lookup_delete_eq.
Qed.

Lemma statusUpdate_other_fields status w :
let w' := (statusUpdate status w).2 in
scheduler_tasks w' = scheduler_tasks w
/\ current_task w' = current_task w
/\ task_counter w' = task_counter w
/\ suppressed w' = suppressed w.
Proof.
unfold statusUpdate. run.
destruct (mesos_task_to_airflow_task w !! ts_task_id status) as [d|]; [|done].
simpl. case_bool_decide; simpl;
  [|destruct (is_failure_state (ts_state status)); simpl];
  (destruct (e_status d); simpl; [case_bool_decide|]; done).
Qed.

(** One status update. *)
Lemma statusUpdate_status_step status w :
status_step w (statusUpdate status w).2.
Proof.
destruct (mesos_task_to_airflow_task w !! ts_task_id status) as [d|] eqn:Hd.
- destruct (statusUpdate_tracked_fields status w d Hd) as (Hdrv & Hres & Hmap).
  destruct (statusUpdate_other_fields status w) as (? & ? & ? & ?).
  unfold status_step. split_and!; try done.
  + intros task_id d'. rewrite Hmap.
    destruct (bool_decide _ || is_failure_state _).
    * intros [_ Hl]%lookup_delete_Some. eauto.
    * intros [[<- <-]|[_ Hl]]%lookup_insert_Some; eauto.
  + eexists. split; [exact Hres|]. rewrite Hmap.
    pose proof (size_tracked _ _ _ Hd) as Hsize.
    case_bool_decide as Hfin; simpl.
    * split; [lia|]. intros r ->%list_elem_of_singleton. eauto.
    * destruct (is_failure_state (ts_state status)); simpl.
      -- split; [lia|]. intros r ->%list_elem_of_singleton. eauto.
      -- split; [by rewrite map_size_insert_Some|].
         intros r Hr. by apply elem_of_nil in Hr.
- rewrite (statusUpdate_unrecognised status w Hd). simpl.
  destruct (status_step_refl w) as (? & ? & ? & ? & ? & ? & ?).
  unfold status_step. simpl. split_and!; done.
Qed.

Lemma statusUpdate_other_entries status w task_id :
task_id <> ts_task_id status ->
mesos_task_to_airflow_task (statusUpdate status w).2 !! task_id
= mesos_task_to_airflow_task w !! task_id.
Proof.
intros Hne.
destruct (mesos_task_to_airflow_task w !! ts_task_id status) as [d|] eqn:Hd.
- destruct (statusUpdate_tracked_fields status w d Hd) as (_ & _ & ->).
  destruct (bool_decide _ || is_failure_state _).
  + by rewrite lookup_delete_ne.
  + by rewrite lookup_insert_ne.
- by rewrite (statusUpdate_unrecognised status w Hd).
Qed.

Lemma statusUpdates_status_step (updates : list TaskStatus) : forall w,
status_step w (statusUpdates updates w).
Proof.
unfold statusUpdates.
induction updates as [|status updates IH]; intros w; simpl.
- apply status_step_refl.
- eapply status_step_trans; [apply statusUpdate_status_step|apply IH].
Qed.
End status_steps.

(** X10. Over any sequence of status updates, for tracked and untracked
    ids alike: the driver is asked nothing and the queue of work, the
    current task, the task counter and the suppression flag stay as they
    are; no entry is added to the dictionary and the key of an entry never
    changes; the results put on the queue are as many as the entries gone,
    so at most one for each task tracked at the start, and each carries the
    key of such a task; and the entry of a task id that none of the updates
    names is left exactly as it was. *)
Theorem statusUpdates_conservation (updates : list TaskStatus) (w : World) :
  let w' := statusUpdates updates w in
  let tracked := mesos_task_to_airflow_task w in
  let tracked' := mesos_task_to_airflow_task w' in
  driver w' = driver w
  /\ scheduler_tasks w' = scheduler_tasks w
  /\ current_task w' = current_task w
  /\ task_counter w' = task_counter w
  /\ suppressed w' = suppressed w
  /\ dom tracked' ⊆ dom tracked
  /\ (forall task_id d', tracked' !! task_id = Some d' ->
        exists d, tracked !! task_id = Some d /\ e_key d' = e_key d)
  /\ (exists emitted,
        scheduler_results w' = scheduler_results w ++ emitted
        /\ length emitted + size tracked' = size tracked
        /\ forall r, r ∈ emitted ->
             exists task_id d, tracked !! task_id = Some d /\ r.1 = e_key d)
  /\ (forall task_id, task_id ∉ ts_task_id <$> updates ->
        tracked' !! task_id = tracked !! task_id).
Proof.
  simpl.
  destruct (statusUpdates_status_step updates w)
    as (? & ? & ? & ? & ? & Hkeys & Hemitted).
  split_and!; try done.
  - intros task_id [d' Hd']%elem_of_dom.
    destruct (Hkeys _ _ Hd') as (d & Hd & _). apply elem_of_dom. eauto.
  - clear. revert w. unfold statusUpdates.
    induction updates as [|status updates IH]; intros w task_id Hid; simpl;
      [done|].
    rewrite fmap_cons in Hid. apply not_elem_of_cons in Hid as [Hne Hid].
    rewrite IH by done. by apply statusUpdate_other_entries.
Qed.

(** Running, then finished, then finished again: one result. *)
Lemma statusUpdates_conservation_witness :
  let task_id := "airflow:0:etl:extract:20170309140500000000" in
  let w' := statusUpdates [sample_status task_id TASK_RUNNING;
                           sample_status task_id TASK_FINISHED;
                           sample_status task_id TASK_FINISHED]
              tracking_world in
  driver w' = [] /\ scheduler_tasks w' = [].
Proof.
  intros task_id w'.
  destruct (statusUpdates_conservation
              [sample_status task_id TASK_RUNNING;
               sample_status task_id TASK_FINISHED;
               sample_status task_id TASK_FINISHED] tracking_world)
    as (Hdriver & Hqueue & _).
  split; [exact Hdriver|exact Hqueue].
Defined.

Example statusUpdates_once :
  let task_id := "airflow:0:etl:extract:20170309140500000000" in
  scheduler_results
    (statusUpdates [sample_status task_id TASK_RUNNING;
                    sample_status task_id TASK_FINISHED;
                    sample_status task_id TASK_FINISHED] tracking_world)
  = [(sample_key "extract", SUCCESS)].
Proof. vm_compute. reflexivity. Qed.

(** X11. After a status update that is not terminal for a tracked task,
    [reconcile] sends a request, and its snapshot holds that status, the
    latest received for the task, together with nothing but the last
    statuses of the other tracked tasks: the status the task had before is
    no longer sent for it. *)
Theorem statusUpdate_then_reconcile
    (status : TaskStatus) (w : World) (d : Entry) :
  mesos_task_to_airflow_task w !! ts_task_id status = Some d ->
  ts_state status <> TASK_FINISHED ->
  ~ terminal_failure (ts_state status) ->
  let w1 := (statusUpdate status w).2 in
  let w2 := (reconcile w1).2 in
  exists snapshot,
    driver w2 = driver w ++ [reconcileTasks snapshot]
    /\ status ∈ snapshot
    /\ forall s, s ∈ snapshot ->
         s = status
         \/ exists task_id d',
              task_id <> ts_task_id status
              /\ mesos_task_to_airflow_task w !! task_id = Some d'
              /\ e_status d' = Some s.
Proof.
  intros Hd Hfin Hfail. simpl.
  destruct (statusUpdate_tracked_fields status w d Hd) as (Hdrv & _ & Hmap).
  rewrite bool_decide_eq_false_2 in Hmap by done.
  assert (is_failure_state (ts_state status) = false) as Hnf.
  { destruct (is_failure_state _) eqn:Hf; [|done].
    by apply is_failure_state_spec in Hf. }
  rewrite Hnf in Hmap. simpl in Hmap.
  set (w1 := (statusUpdate status w).2) in *.
  unfold reconcile. run. rewrite bool_decide_eq_true_2.
  2:{ rewrite Hmap. apply insert_non_empty. }
  simpl. eexists. split; [by rewrite Hdrv|]. split.
  - apply known_status_elem. exists (ts_task_id status). eexists.
    rewrite Hmap, lookup_insert_eq. done.
  - intros s (task_id & d' & Hd' & Hs)%known_status_elem.
    rewrite Hmap in Hd'.
    apply lookup_insert_Some in Hd' as [[<- <-]|[Hne Hd']].
    + left. simpl in Hs. congruence.
    + right. exists task_id, d'. done.
Qed.

Lemma statusUpdate_then_reconcile_witness :
  let task_id := "airflow:0:etl:extract:20170309140500000000" in
  let status := sample_status task_id TASK_RUNNING in
  exists snapshot,
    driver (reconcile (statusUpdate status tracking_world).2).2
    = [reconcileTasks snapshot]
    /\ status ∈ snapshot.
Proof.
  intros task_id status.
  destruct (statusUpdate_then_reconcile status tracking_world
              {| e_key := sample_key "extract"; e_status := None |})
    as (snapshot & Hdriver & Hin & _).
  - vm_compute. reflexivity.
  - discriminate.
  - intros [H|[H|[H|H]]]; discriminate H.
  - exists snapshot. split; [exact Hdriver|exact Hin].
Defined.

(** * Further properties of launching *)

Section launch_tracking.
Implicit Types (w : World) (env : Env) (offers : list Offer).

Lemma get_operator_task_quiet env ti w :
let w1 := (get_operator_task env ti w).2 in
mesos_task_to_airflow_task w1 = mesos_task_to_airflow_task w
/\ task_counter w1 = task_counter w.
Proof.
unfold get_operator_task. run.
destruct (current_task w) as [[[key command] inst]|]; simpl; [|done].
destruct (operator_task inst); simpl; [done|].
destruct (dag_files env !! tin_dag_id ti) as [tasks|]; simpl; [|done].
by destruct (list_find _ tasks) as [[i dag_task]|].
Qed.

Lemma get_operator_mesos_resources_quiet env ti w :
let w1 := (get_operator_mesos_resources env ti w).2 in
mesos_task_to_airflow_task w1 = mesos_task_to_airflow_task w
/\ task_counter w1 = task_counter w.
Proof.
unfold get_operator_mesos_resources. run.
destruct (default_resources (config env)) as [needed|e]; simpl; [|done].
pose proof (get_operator_task_quiet env ti w) as Hq. simpl in Hq.
destruct (get_operator_task env ti w) as [[op|e|] w1]; simpl in *;
  [|done..].
destruct (option_bind _ _ mesos_resources op) as [task_resources|];
  simpl; [|done].
destruct (merge_resources needed task_resources); run; done.
Qed.

(** A launch: the offer is one of the pool, the task is the one
  [build_task_info] builds at the counter of the moment, the driver gets
  one call, and the task is entered in the dictionary under its id, for
  the key of the current task and with no status. *)
Lemma launch_current_task_tracks env offers w item o :
current_task w = Some item ->
(launch_current_task env offers w).1 = Return (Some o) ->
let w1 := (launch_current_task env offers w).2 in
exists task rest,
  o ∈ offers
  /\ ti_task_id task
     = "airflow:" +:+ pretty (task_counter w) +:+ ":" +:+ rest
  /\ driver w1 = driver w ++ [launchTasks [o_id o] [task]]
  /\ mesos_task_to_airflow_task w1
     = <[ti_task_id task := {| e_key := item_key item; e_status := None |}]>
         (mesos_task_to_airflow_task w)
  /\ task_counter w1 = (task_counter w + 1)%N
  /\ scheduler_results w1 = scheduler_results w.
Proof.
intros Hc. destruct item as [[key command] inst].
unfold launch_current_task. run. rewrite Hc. simpl.
destruct (get_operator_mesos_resources_frame env inst w) as [_ Hf].
pose proof (get_operator_mesos_resources_quiet env inst w) as Hq.
destruct (get_operator_mesos_resources env inst w)
  as [[needed|e|] w0]; simpl in *; [|done..].
destruct Hq as [Hmap Hcount].
destruct Hf as (_ & Hres & _ & Hdrv & _ & _). rewrite app_nil_r in Hdrv.
destruct (find_offer offers needed) as [[o'|]|e] eqn:Hfind; simpl; [|done..].
rewrite build_task_info_run. simpl.
destruct (find_first_some _ _ _ Hfind) as (before & after & -> & _).
destruct (strftime (k_execution_date key)) as [stamp|e]; simpl; [|done].
intros [= <-]. rewrite Hcount, Hmap, Hdrv.
eexists _, _. split_and!; simpl.
3: reflexivity.
all: simpl; try done.
apply elem_of_app. right. left.
Qed.
End launch_tracking.

(** X12. A task launched by [launch_current_task] and then reported in a
    terminal state: the launch enters the task in the dictionary under its
    id with no status, and a status update for that id with state
    [TASK_FINISHED] puts exactly the key of the launched item with
    [SUCCESS] on the result queue, one with a failure state exactly that
    key with [FAILED]; in both cases the dictionary is afterwards what it
    was before the launch, without that id. *)
Theorem launch_then_terminal_status
    (env : Env) (offers : list Offer) (w : World) (item : WorkItem)
    (o : Offer) :
  current_task w = Some item ->
  (launch_current_task env offers w).1 = Return (Some o) ->
  let w1 := (launch_current_task env offers w).2 in
  exists task,
    driver w1 = driver w ++ [launchTasks [o_id o] [task]]
    /\ mesos_task_to_airflow_task w1 !! ti_task_id task
       = Some {| e_key := item_key item; e_status := None |}
    /\ forall status, ts_task_id status = ti_task_id task ->
         let w2 := (statusUpdate status w1).2 in
         (ts_state status = TASK_FINISHED ->
            scheduler_results w2
            = scheduler_results w ++ [(item_key item, SUCCESS)]
            /\ mesos_task_to_airflow_task w2
               = delete (ti_task_id task) (mesos_task_to_airflow_task w))
         /\ (terminal_failure (ts_state status) ->
               scheduler_results w2
               = scheduler_results w ++ [(item_key item, FAILED)]
               /\ mesos_task_to_airflow_task w2
                  = delete (ti_task_id task) (mesos_task_to_airflow_task w)).
Proof.
  intros Hc Hl. simpl.
  destruct (launch_current_task_tracks env offers w item o Hc Hl)
    as (task & rest & _ & _ & Hdrv & Hmap & _ & Hres).
  exists task. split; [done|].
  assert (mesos_task_to_airflow_task (launch_current_task env offers w).2
          !! ti_task_id task
          = Some {| e_key := item_key item; e_status := None |}) as Hentry
    by by rewrite Hmap, lookup_insert_eq.
  split; [done|]. intros status Hid. rewrite <- Hid in Hentry.
  destruct (statusUpdate_tracked_fields status _ _ Hentry) as (_ & Hr & Hm).
  rewrite Hr, Hm, Hres, Hmap, Hid, delete_insert_eq. simpl. split.
  - intros Hfin. by rewrite bool_decide_eq_true_2.
  - intros Hfail. pose proof Hfail as Hfail'.
    apply is_failure_state_spec in Hfail'. rewrite Hfail'.
    rewrite bool_decide_eq_false_2
      by by apply is_failure_state_not_finished.
    done.
Qed.

Lemma launch_then_terminal_status_witness :
  let w := set_current_task (Some (sample_item "extract")) empty_world in
  let offers := [sample_offer "a" (qc 2 1)] in
  exists task,
    driver (launch_current_task sample_env offers w).2
    = [launchTasks ["a"] [task]].
Proof.
  intros w offers.
  destruct (launch_then_terminal_status sample_env offers w
              (sample_item "extract") (sample_offer "a" (qc 2 1)))
    as (task & Hdriver & _).
  - reflexivity.
  - vm_compute. reflexivity.
  - exists task. exact Hdriver.
Defined.

(** * Further properties of the executor *)

(** X13. [execute_async] takes the task instance kept under the key out
    of the dictionary of queued instances. For a key that is not in the
    dictionary it raises [KeyError] and does nothing: nothing is put on the
    queue and the driver is asked nothing. Otherwise it returns the
    dictionary without the key, puts the work item at the tail of the
    queue, behind everything already waiting, and leaves offers
    unsuppressed: when they were suppressed it asks the driver exactly once
    to revive them and clears the flag, and when they were not it asks the
    driver nothing. It never asks for suppression. *)
Theorem execute_async_revives
    (key : Key) (command : string)
    (queued_task_instances : gmap Key TaskInstance) (w : World) :
  let r := execute_async key command queued_task_instances w in
  match queued_task_instances !! key with
  | None => r = (Raise (KeyError (key_repr key)), w)
  | Some task_instance =>
      r.1 = Return (delete key queued_task_instances)
      /\ scheduler_tasks r.2
         = scheduler_tasks w ++ [(key, command, task_instance)]
      /\ suppressed r.2 = false
      /\ driver r.2 = driver w ++ (if suppressed w then [reviveOffers] else [])
      /\ current_task r.2 = current_task w
      /\ mesos_task_to_airflow_task r.2 = mesos_task_to_airflow_task w
      /\ scheduler_results r.2 = scheduler_results w
  end.
Proof.
  simpl. unfold execute_async.
  destruct (queued_task_instances !! key) as [task_instance|]; [|done].
  unfold scheduler_tasks_put. run.
  rewrite mesos_suppress_revive_run. simpl.
  rewrite bool_decide_eq_false_2 by (by destruct (scheduler_tasks w)).
  simpl. destruct (suppressed w) eqn:Hs; simpl; rewrite ?Hs, ?app_nil_r;
    split_and!; done.
Qed.

Lemma execute_async_revives_witness :
  let idle := (mesos_suppress_revive empty_world).2 in
  let queued := {[ sample_key "extract" := (sample_item "extract").2 ]} in
  (execute_async (sample_key "extract") "run" queued idle).1 = Return ∅
  /\ driver (execute_async (sample_key "extract") "run" queued idle).2
     = [suppressOffers; reviveOffers]
  /\ execute_async (sample_key "load") "run" queued idle
     = (Raise (KeyError (key_repr (sample_key "load"))), idle).
Proof.
  intros idle queued.
  pose proof (execute_async_revives (sample_key "extract") "run" queued idle)
    as Hqueued.
  pose proof (execute_async_revives (sample_key "load") "run" queued idle)
    as Hmissing.
  assert (queued !! sample_key "extract" = Some (sample_item "extract").2)
    as Hin by apply lookup_singleton_eq.
  assert (queued !! sample_key "load" = None) as Hout
    by (apply lookup_singleton_ne; discriminate).
  simpl in Hqueued, Hmissing. rewrite Hin in Hqueued. rewrite Hout in Hmissing.
  destruct Hqueued as (Hret & _ & _ & Hdriver & _).
  split_and!; [|exact Hdriver|exact Hmissing].
  rewrite Hret. unfold queued. by rewrite delete_singleton_eq.
Defined.

(** X14. Once [get_operator_task] has returned an operator, the operator is
    kept on the current task: every later call returns that same operator
    and leaves the scheduler as it is, without loading a DAG file again,
    whatever the task instance it is asked for and whatever the DAG files
    have become. *)
Theorem get_operator_task_cached
    (env : Env) (task_instance : TaskInstance) (w : World) (op : OperatorTask) :
  (get_operator_task env task_instance w).1 = Return (Some op) ->
  let w1 := (get_operator_task env task_instance w).2 in
  forall (env' : Env) (task_instance' : TaskInstance),
    get_operator_task env' task_instance' w1 = (Return (Some op), w1).
Proof.
  unfold get_operator_task. run.
  destruct (current_task w) as [[[key command] inst]|] eqn:Hc; simpl; [|done].
  destruct (operator_task inst) as [cached|] eqn:Hop; simpl.
  - intros [= ->] env' ti'. by rewrite Hc, Hop.
  - destruct (dag_files env !! tin_dag_id task_instance) as [tasks|];
      simpl; [|done].
    destruct (list_find _ tasks) as [[i dag_task]|]; simpl; [|done].
    intros [= ->] env' ti'. done.
Qed.

Lemma get_operator_task_cached_witness :
  let w := set_current_task (Some (sample_item "load")) empty_world in
  let inst := (sample_item "load").2 in
  let w1 := (get_operator_task sample_env inst w).2 in
  get_operator_task {| config := config sample_env; dag_files := ∅ |}
    (sample_item "extract").2 w1
  = (Return (Some {| op_task_id := "load";
                     mesos_resources :=
                       Some [MesosScalarResource "cpus" (qc 4 1)] |}), w1).
Proof.
  intros w inst w1.
  apply (get_operator_task_cached sample_env inst w).
  vm_compute. reflexivity.
Defined.

(** A loop whose condition fails at the start returns the pool as it
    is. *)
Lemma resourceOffers_loop_stops (fuel : nat) (env : Env) (avail : list Offer)
    (w : World) :
  loop_condition avail w = false ->
  resourceOffers_loop fuel env avail w = (Return avail, w).
Proof.
  intros Hcond. destruct fuel as [|fuel].
  - simpl. run. unfold loop_condition in Hcond. by rewrite Hcond.
  - by rewrite resourceOffers_loop_unfold, Hcond.
Qed.

(** X15. A round with nothing to match, because no work is pending or
    because the batch is empty, launches nothing: it records the batch
    received, at level DEBUG when no work is pending and INFO otherwise,
    and gives the whole batch back to the driver in one call with no task.
    Nothing else of the scheduler changes. *)
Theorem resourceOffers_idle (env : Env) (offers : list Offer) (w : World) :
  pending w = [] \/ offers = [] ->
  resourceOffers env offers w
  = (Return tt,
     set_driver (driver w ++ [launchTasks (o_id <$> offers) []])
       (set_log
          (log w ++ [(if bool_decide (pending w = []) then DEBUG else INFO,
                      MsgReceivedOffers (length offers)
                        (length (scheduler_tasks w))
                        (bool_decide (is_Some (current_task w))))]) w)).
Proof.
  intros Hidle. unfold resourceOffers, try_except.
  rewrite resourceOffers_try_run.
  assert (loop_condition offers (round_start offers w) = false) as Hcond.
  { apply not_true_is_false. intros [Hp Ho]%loop_condition_pending.
    destruct (round_start_fields offers w) as (Hp0 & _).
    rewrite Hp0 in Hp. by destruct Hidle. }
  rewrite (resourceOffers_loop_stops _ _ _ _ Hcond).
  unfold round_start, pending. simpl. do 4 f_equal.
  destruct (current_task w), (scheduler_tasks w); done.
Qed.

Lemma resourceOffers_idle_witness :
  driver (resourceOffers sample_env
            [sample_offer "a" (qc 2 1); sample_offer "b" (qc 1 1)]
            empty_world).2
  = [launchTasks ["a"; "b"] []].
Proof.
  rewrite (resourceOffers_idle sample_env
             [sample_offer "a" (qc 2 1); sample_offer "b" (qc 1 1)]
             empty_world).
  - reflexivity.
  - left. reflexivity.
Defined.

(** * Requirements of the current task *)

Section requirements_facts.
Implicit Types (w : World) (env : Env) (offers : list Offer).

Lemma world_kept w item msgs :
current_task w = Some item ->
set_log (log w ++ msgs) w
= set_log (log w ++ msgs) (set_current_task (Some item) w).
Proof.
intros Hc. destruct w. unfold set_log, set_current_task. simpl in *.
by subst.
Qed.

(** What looking for the operator of the current task does to the
  scheduler. *)
Lemma get_operator_task_run env w item :
current_task w = Some item ->
let r := get_operator_task env (item_instance item) w in
r.1 = outcome_of (operator_of env (item_instance item))
/\ exists item' msgs,
     r.2 = set_log (log w ++ msgs) (set_current_task (Some item') w)
     /\ item_key item' = item_key item
     /\ item_command item' = item_command item
     /\ operator_of env (item_instance item')
        = operator_of env (item_instance item)
     /\ attempts msgs = [].
Proof.
intros Hc. destruct item as [[key command] inst].
unfold item_instance, item_key, item_command. simpl.
remember (operator_of env inst) as found eqn:Hfound.
unfold operator_of in Hfound.
unfold get_operator_task. run. rewrite Hc. simpl.
destruct (operator_task inst) as [cached|] eqn:Hop; simpl.
{ subst found. split; [done|]. exists (key, command, inst), [].
  split_and!; try done; [|unfold operator_of; simpl; by rewrite Hop].
  rewrite <- (world_kept w _ [] Hc). destruct w.
  unfold set_log. simpl. by rewrite app_nil_r. }
destruct (dag_files env !! tin_dag_id inst) as [tasks|] eqn:Hdag; simpl.
2:{ subst found. split; [done|]. eexists (key, command, inst), [_].
    split_and!; [by apply world_kept|done|done| |done].
    unfold operator_of. simpl. by rewrite Hop, Hdag. }
destruct (list_find _ tasks) as [[i dag_task]|] eqn:Hfind; simpl.
- subst found. split; [done|].
  eexists (key, command, {| tin_dag_id := tin_dag_id inst;
                            tin_task_id := tin_task_id inst;
                            operator_task := Some dag_task |}), [_].
  split_and!; done.
- subst found. split; [done|].
  exists (key, command, inst),
    [(INFO, MsgReloadDag (tin_dag_id inst) (tin_task_id inst));
     (ERROR, MsgNoOperator (tin_dag_id inst) (tin_task_id inst))].
  split_and!; [|done|done| |done].
  + rewrite <- (world_kept w _ _ Hc). rewrite <- app_assoc.
    by destruct w.
  + unfold operator_of. simpl. by rewrite Hop, Hdag, Hfind.
Qed.

(** What resolving the requirements of the current task does to the
  scheduler. *)
Lemma get_operator_mesos_resources_run env w item :
current_task w = Some item ->
let r := get_operator_mesos_resources env (item_instance item) w in
r.1 = outcome_of (requirements env (item_instance item))
/\ exists item' msgs,
     r.2 = set_log (log w ++ msgs) (set_current_task (Some item') w)
     /\ item_key item' = item_key item
     /\ item_command item' = item_command item
     /\ requirements env (item_instance item')
        = requirements env (item_instance item)
     /\ attempts msgs = [].
Proof.
intros Hc. simpl.
destruct (get_operator_task_run env w item Hc)
  as (Hout & item' & msgs & Hw & Hkey & Hcommand & Hsame & Hatt).
assert (requirements env (item_instance item')
        = requirements env (item_instance item)) as Hreq
  by (unfold requirements; by rewrite Hsame).
unfold get_operator_mesos_resources. run.
unfold requirements at 1.
destruct (default_resources (config env)) as [needed|e] eqn:Hdef; simpl.
2:{ split; [done|]. exists item, []. split_and!; try done.
    rewrite <- (world_kept w _ [] Hc). destruct w.
    unfold set_log. simpl. by rewrite app_nil_r. }
destruct (get_operator_task env (item_instance item) w) as [out w1].
simpl in Hout, Hw. subst out.
destruct (operator_of env (item_instance item)) as [op|e]; simpl.
2:{ split; [done|]. by exists item', msgs. }
destruct op as [op|]; simpl;
  [destruct (mesos_resources op) as [task_resources|]; simpl|].
- destruct (merge_resources needed task_resources); run;
    (split; [done|]); by exists item', msgs.
- split; [done|]. by exists item', msgs.
- split; [done|]. by exists item', msgs.
Qed.
End requirements_facts.

(** X16. Resolving the requirements of the current task comes to what the
    configuration, the DAG files and the task instance determine: it
    returns the merged requirements or raises as [requirements] says. All
    it does to the scheduler is to write log records and to keep the
    operator found on the current task, whose key and command stay; and
    the requirements of the task as it is kept are the same, so that
    resolving them again gives the same outcome. *)
Theorem get_operator_mesos_resources_repeatable
    (env : Env) (w : World) (item : WorkItem) :
  current_task w = Some item ->
  let r := get_operator_mesos_resources env (item_instance item) w in
  r.1 = outcome_of (requirements env (item_instance item))
  /\ exists item' msgs,
       r.2 = set_log (log w ++ msgs) (set_current_task (Some item') w)
       /\ item_key item' = item_key item
       /\ item_command item' = item_command item
       /\ (get_operator_mesos_resources env (item_instance item') r.2).1 = r.1.
Proof.
  intros Hc. simpl.
  destruct (get_operator_mesos_resources_run env w item Hc)
    as (Hout & item' & msgs & Hw & Hkey & Hcommand & Hreq & _).
  split; [done|]. exists item', msgs. split_and!; [done..|].
  assert (current_task (get_operator_mesos_resources env (item_instance item) w).2
          = Some item') as Hc' by by rewrite Hw.
  destruct (get_operator_mesos_resources_run env _ item' Hc') as (-> & _).
  by rewrite Hout, Hreq.
Qed.

Lemma get_operator_mesos_resources_repeatable_witness :
  let w := set_current_task (Some (sample_item "load")) empty_world in
  (get_operator_mesos_resources sample_env (sample_item "load").2 w).1
  = Return [MesosScalarResource "mem" (qc 64 1);
            MesosScalarResource "cpus" (qc 4 1)].
Proof.
  intros w.
  destruct (get_operator_mesos_resources_repeatable sample_env w
              (sample_item "load")) as (Hout & _).
  - reflexivity.
  - etrans; [exact Hout|]. vm_compute. reflexivity.
Defined.

(** * A work item whose requirements cannot be resolved *)

Section blocked.
Implicit Types (w : World) (env : Env) (offers : list Offer).

Lemma launch_current_task_blocked env offers w item e :
current_task w = Some item ->
requirements env (item_instance item) = Err e ->
exists item' msgs,
  launch_current_task env offers w
  = (Raise e, set_log (log w ++ msgs) (set_current_task (Some item') w))
  /\ item_key item' = item_key item
  /\ requirements env (item_instance item') = Err e.
Proof.
intros Hc Hreq.
destruct (get_operator_mesos_resources_run env w item Hc)
  as (Hout & item' & msgs & Hw & Hkey & _ & Hsame & _).
rewrite Hreq in Hout, Hsame. simpl in Hout.
exists item', msgs. split; [|done].
destruct item as [[key command] inst].
unfold launch_current_task. run. rewrite Hc. simpl.
unfold item_instance in Hout, Hw. simpl in Hout, Hw.
destruct (get_operator_mesos_resources env inst w) as [out w1].
simpl in *. by subst.
Qed.

Lemma take_current_head w item rest :
pending w = item :: rest ->
current_task (take_current w) = Some item
/\ scheduler_tasks (take_current w) = rest
/\ driver (take_current w) = driver w
/\ scheduler_results (take_current w) = scheduler_results w
/\ mesos_task_to_airflow_task (take_current w) = mesos_task_to_airflow_task w.
Proof.
unfold pending, take_current.
destruct (current_task w) as [c|] eqn:Hc,
  (scheduler_tasks w) as [|t q] eqn:Hq; simpl; try done.
all: intros [= -> ->]; by rewrite ?Hc, ?Hq.
Qed.

(** One round with such an item at the head of the pending work. *)
Lemma resourceOffers_blocked_round env offers w item rest e :
pending w = item :: rest ->
requirements env (item_instance item) = Err e ->
let w' := (resourceOffers env offers w).2 in
exists item',
  pending w' = item' :: rest
  /\ item_key item' = item_key item
  /\ requirements env (item_instance item') = Err e
  /\ driver w' = driver w ++ [release_call offers]
  /\ scheduler_results w' = scheduler_results w
  /\ mesos_task_to_airflow_task w' = mesos_task_to_airflow_task w.
Proof.
intros Hp Hreq. simpl. unfold resourceOffers, try_except.
rewrite resourceOffers_try_run.
destruct (round_start_fields offers w) as (Hp0 & Hd0 & Hr0 & _).
destruct (loop_condition offers (round_start offers w)) eqn:Hcond.
- apply loop_condition_pending in Hcond as [_ Hoffers].
  destruct offers as [|o offers]; [done|]. simpl length.
  rewrite resourceOffers_loop_unfold.
  assert (loop_condition (o :: offers) (round_start (o :: offers) w) = true)
    as -> by (apply loop_condition_pending; by rewrite Hp0, Hp).
  rewrite <- Hp0 in Hp.
  destruct (take_current_head _ _ _ Hp) as (Hc & Hq & Hd & Hr & Hm).
  destruct (launch_current_task_blocked env (o :: offers) _ item e Hc Hreq)
    as (item' & msgs & -> & Hkey & Hreq').
  run. exists item'. unfold pending. simpl. rewrite Hq, Hd, Hd0, Hr, Hr0, Hm.
  done.
- rewrite (resourceOffers_loop_stops _ _ _ _ Hcond). simpl.
  exists item. split_and!; done.
Qed.

End blocked.

(** X17. A work item whose requirements cannot be resolved (its DAG file
    is not to be found, its operator overrides one default twice, a default
    of the configuration has an unknown type) blocks the scheduler: as long
    as it is at the head of the pending work, every round of offers,
    whatever it offers, ends by giving the whole batch back with no task,
    so that no task is ever launched, neither for the item nor for those
    behind it, the pending work keeps its keys and its order, no result is
    reported and the dictionary of tracked tasks stays as it is. *)
Theorem resourceOffers_head_of_line_blocking
    (env : Env) (batches : list (list Offer)) (w : World)
    (item : WorkItem) (rest : list WorkItem) (e : Exception) :
  pending w = item :: rest ->
  requirements env (item_instance item) = Err e ->
  let w' := rounds env batches w in
  driver w' = driver w ++ (release_call <$> batches)
  /\ item_key <$> pending w' = item_key <$> pending w
  /\ scheduler_results w' = scheduler_results w
  /\ mesos_task_to_airflow_task w' = mesos_task_to_airflow_task w.
Proof.
  revert w item rest.
  induction batches as [|offers batches IH]; intros w item rest Hp Hreq.
  { simpl. by rewrite app_nil_r. }
  destruct (resourceOffers_blocked_round env offers w item rest e Hp Hreq)
    as (item' & Hp' & Hkey & Hreq' & Hdrv & Hres & Hmap).
  destruct (IH _ _ _ Hp' Hreq') as (Hdrv2 & Hkeys2 & Hres2 & Hmap2).
  simpl in *. rewrite Hdrv2, Hkeys2, Hres2, Hmap2, Hdrv, Hres, Hmap, Hp, Hp'.
  simpl. rewrite Hkey, <- app_assoc. done.
Qed.

Lemma resourceOffers_head_of_line_blocking_witness :
  let w := set_scheduler_tasks [sample_item "load"; sample_item "extract"]
             empty_world in
  let batches := [[sample_offer "a" (qc 8 1)];
                  [sample_offer "b" (qc 8 1); sample_offer "c" (qc 8 1)]] in
  driver (rounds twice_env batches w)
  = [launchTasks ["a"] []; launchTasks ["b"; "c"] []].
Proof.
  intros w batches.
  destruct (resourceOffers_head_of_line_blocking twice_env batches w
              (sample_item "load") [sample_item "extract"] remove_error)
    as (Hdriver & _).
  - reflexivity.
  - vm_compute. reflexivity.
  - exact Hdriver.
Defined.

(** * The tasks launched in a round *)

Section round_tracking.
Implicit Types (w : World) (env : Env) (offers avail : list Offer).
Implicit Types (m : gmap string Entry) (l : list (TaskInfo * Key)).

Lemma track_cons p l m :
track (p :: l) m
= track l (<[ti_task_id p.1 := {| e_key := p.2; e_status := None |}]> m).
Proof. done. Qed.

Lemma track_lookup_other l : forall m task_id,
task_id ∉ ti_task_id <$> l.*1 ->
track l m !! task_id = m !! task_id.
Proof.
induction l as [|p l IH]; intros m task_id Hnot; [done|].
simpl in Hnot. apply not_elem_of_cons in Hnot as [Hne Hnot].
rewrite track_cons, IH by done. by rewrite lookup_insert_ne.
Qed.

Lemma track_lookup l : forall m i p,
NoDup (ti_task_id <$> l.*1) ->
l !! i = Some p ->
track l m !! ti_task_id p.1 = Some {| e_key := p.2; e_status := None |}.
Proof.
induction l as [|q l IH]; intros m i p Hnodup Hp; [done|].
simpl in Hnodup. apply NoDup_cons in Hnodup as [Hq Hnodup].
rewrite track_cons. destruct i as [|i]; simpl in Hp.
- injection Hp as ->.
  rewrite (track_lookup_other l) by done. by rewrite lookup_insert_eq.
- by apply (IH _ i).
Qed.

Lemma numbered_from_NoDup c (tasks : list TaskInfo) :
numbered_from c tasks -> NoDup (ti_task_id <$> tasks).
Proof.
intros Hnum. apply NoDup_alt. intros i j task_id Hi Hj.
rewrite list_lookup_fmap in Hi, Hj.
destruct (tasks !! i) as [t1|] eqn:Ht1; [|done].
destruct (tasks !! j) as [t2|] eqn:Ht2; [|done].
simpl in Hi, Hj. injection Hi as Hi. injection Hj as Hj.
destruct (Hnum _ _ Ht1) as (r1 & Hr1), (Hnum _ _ Ht2) as (r2 & Hr2).
rewrite <- Hj, Hr1, Hr2 in Hi. apply task_id_inj in Hi. lia.
Qed.

(** One call of [launch_current_task], by its outcome. *)
Lemma launch_current_task_cases env offers w item :
current_task w = Some item ->
let r := launch_current_task env offers w in
scheduler_tasks r.2 = scheduler_tasks w
/\ match r.1 with
   | Return (Some o) =>
       exists task rest avail',
         ti_task_id task
         = "airflow:" +:+ pretty (task_counter w) +:+ ":" +:+ rest
         /\ list_remove o offers = Ok avail'
         /\ length offers = S (length avail')
         /\ driver r.2 = driver w ++ [launchTasks [o_id o] [task]]
         /\ mesos_task_to_airflow_task r.2
            = <[ti_task_id task :=
                  {| e_key := item_key item; e_status := None |}]>
                (mesos_task_to_airflow_task w)
         /\ task_counter r.2 = (task_counter w + 1)%N
   | Diverge => False
   | _ =>
       driver r.2 = driver w
       /\ mesos_task_to_airflow_task r.2 = mesos_task_to_airflow_task w
       /\ (task_counter w <= task_counter r.2)%N
   end.
Proof.
intros Hc.
destruct (get_operator_mesos_resources_run env w item Hc)
  as (Hout & item' & msgs & Hw & _).
destruct item as [[key command] inst].
unfold item_instance in Hout, Hw. simpl in Hout, Hw.
unfold launch_current_task. run. rewrite Hc. simpl.
destruct (get_operator_mesos_resources env inst w) as [out w0].
simpl in Hout, Hw. subst out w0.
destruct (requirements env inst) as [needed|e]; simpl; [|split_and!; done].
destruct (find_offer offers needed) as [[o|]|e] eqn:Hfind; simpl;
  [|split_and!; done..].
rewrite build_task_info_run. simpl.
destruct (find_first_remove _ _ _ Hfind) as (before & after & -> & Hrem).
destruct (strftime (k_execution_date key)) as [stamp|e]; simpl;
  [|split_and!; try done; lia].
split; [done|]. eexists _, _, (before ++ after). split_and!.
4: reflexivity.
- simpl. reflexivity.
- done.
- rewrite !length_app. simpl. lia.
- done.
- done.
Qed.

Lemma launched_in_none w w' :
driver w' = driver w ->
mesos_task_to_airflow_task w' = mesos_task_to_airflow_task w ->
(task_counter w <= task_counter w')%N ->
launched_in w w' [].
Proof.
intros Hd Hm Hc. unfold launched_in, numbered_from. simpl.
rewrite app_nil_r. split_and!; try done; lia.
Qed.

Lemma take_current_quiet w :
mesos_task_to_airflow_task (take_current w) = mesos_task_to_airflow_task w
/\ task_counter (take_current w) = task_counter w.
Proof.
unfold take_current. by destruct (current_task w), (scheduler_tasks w).
Qed.

(** The loop enters each task it launches for the key of the pending item
  it launched it for. *)
Lemma resourceOffers_loop_tracks env fuel : forall avail w,
length avail <= fuel ->
exists used,
  launched_in w (resourceOffers_loop fuel env avail w).2 used.
Proof.
induction fuel as [|fuel IH]; intros avail w Hlen.
{ destruct avail; [|simpl in Hlen; lia].
  rewrite resourceOffers_loop_stops.
  - exists []. simpl; apply launched_in_none; [done..|simpl; lia].
  - unfold loop_condition. simpl. by rewrite andb_false_r. }
rewrite resourceOffers_loop_unfold.
destruct (loop_condition avail w) eqn:Hcond.
2:{ exists []. simpl; apply launched_in_none; [done..|simpl; lia]. }
apply loop_condition_pending in Hcond as [Hpend Havail].
destruct (pending w) as [|item rest] eqn:Hp; [done|].
destruct (take_current_head _ _ _ Hp) as (Hc & Hq & Hd & _ & _).
destruct (take_current_quiet w) as (Hm & Hn).
pose proof (launch_current_task_cases env avail (take_current w) item Hc)
  as Hl. simpl in Hl.
destruct (launch_current_task env avail (take_current w))
  as [[[o|]|e|] w1]; simpl in Hl; destruct Hl as [Hq1 Hl]; [| | |done].
- destruct Hl as (task & tail & avail' & Hid & Hrem & Hlen' & Hdrv & Hmap & Hcount).
  rewrite Hrem.
  destruct (IH avail' (set_current_task None w1)) as (used & Hused);
    [lia|].
  destruct Hused as (Hdrv2 & Hmap2 & Hnum2 & Hcount2 & Hlen2).
  assert (pending (set_current_task None w1) = rest) as Hp1.
  { unfold pending. simpl. by rewrite Hq1, Hq. }
  rewrite Hp1 in Hmap2, Hlen2. simpl in Hdrv2, Hmap2, Hnum2, Hcount2.
  exists ((o, task) :: used). unfold launched_in. rewrite Hp. simpl.
  split_and!.
  + by rewrite Hdrv2, Hdrv, Hd, <- app_assoc.
  + by rewrite Hmap2, Hmap, Hm.
  + intros [|i] t Ht; simpl in Ht.
    * injection Ht as <-. exists tail.
      by rewrite Hid, Hn, N.add_0_r.
    * destruct (Hnum2 i t Ht) as (tail' & Htail). exists tail'.
      rewrite Htail, Hcount, Hn. do 3 f_equal. lia.
  + lia.
  + lia.
- destruct Hl as (Hdrv & Hmap & Hcount).
  exists []. destruct (current_task w1); simpl;
    (apply launched_in_none; simpl; [congruence|congruence|lia]).
- destruct Hl as (Hdrv & Hmap & Hcount).
  exists []. apply launched_in_none; simpl; [congruence|congruence|lia].
Qed.
End round_tracking.

(** X18. In every round, the tasks launched have pairwise different ids;
    when the round is over each of them is in the dictionary under its id,
    with no status and for the key of the pending item it was launched
    for, the first launch for the first pending item, the second for the
    second, and so on; the entries of all other ids are as they were; and
    the counter has gone up by at least the number of launches. *)
Theorem resourceOffers_tracks_launches
    (env : Env) (offers : list Offer) (w : World) :
  let w' := (resourceOffers env offers w).2 in
  exists (used : list (Offer * TaskInfo)) (released : list Offer),
    driver w' = driver w ++ (launch_call <$> used) ++ [release_call released]
    /\ NoDup (ti_task_id <$> used.*2)
    /\ (forall i task, used.*2 !! i = Some task ->
          exists item,
            pending w !! i = Some item
            /\ mesos_task_to_airflow_task w' !! ti_task_id task
               = Some {| e_key := item_key item; e_status := None |})
    /\ (forall task_id, task_id ∉ ti_task_id <$> used.*2 ->
          mesos_task_to_airflow_task w' !! task_id
          = mesos_task_to_airflow_task w !! task_id)
    /\ (task_counter w + N.of_nat (length used) <= task_counter w')%N.
Proof.
  simpl.
  destruct (resourceOffers_loop_tracks env (length offers) offers
              (round_start offers w) (Nat.le_refl _))
    as (used & Hdrv & Hmap & Hnum & Hcount & Hlen).
  destruct (round_start_fields offers w) as (Hp0 & _).
  rewrite Hp0 in Hmap, Hlen. simpl in Hdrv, Hmap, Hnum, Hcount.
  pose proof (numbered_from_NoDup _ _ Hnum) as Hnodup.
  assert ((zip used.*2 (item_key <$> pending w)).*1 = used.*2) as Hfst.
  { apply fst_zip. rewrite !length_fmap. lia. }
  assert (exists released w1,
    resourceOffers env offers w = (Return tt, w1)
    /\ driver w1
       = driver (resourceOffers_loop (length offers) env offers
                   (round_start offers w)).2 ++ [release_call released]
    /\ mesos_task_to_airflow_task w1
       = mesos_task_to_airflow_task
           (resourceOffers_loop (length offers) env offers
              (round_start offers w)).2
    /\ task_counter w1
       = task_counter (resourceOffers_loop (length offers) env offers
                         (round_start offers w)).2)
    as (released & w1 & -> & Hd1 & Hm1 & Hc1).
  { unfold resourceOffers, try_except. rewrite resourceOffers_try_run.
    pose proof (resourceOffers_loop_summary env (length offers) offers
                  (round_start offers w) (Nat.le_refl _)) as [Hout _].
    destruct (resourceOffers_loop _ _ _ _) as [[remaining|e|] w1];
      simpl in *; [| |done].
    - by eexists remaining, _.
    - run. by eexists offers, _. }
  simpl. exists used, released. split_and!.
  - by rewrite Hd1, Hdrv, <- app_assoc.
  - done.
  - intros i task Htask.
    assert (is_Some (pending w !! i)) as [item Hitem].
    { apply lookup_lt_is_Some. apply lookup_lt_Some in Htask.
      rewrite length_fmap in Htask. lia. }
    exists item. split; [done|]. rewrite Hm1, Hmap.
    apply (track_lookup _ _ i (task, item_key item)).
    + by rewrite Hfst.
    + apply lookup_zip_with_Some. exists task, (item_key item).
      split_and!; [done|done|]. by rewrite list_lookup_fmap, Hitem.
  - intros task_id Hnot. rewrite Hm1, Hmap.
    apply track_lookup_other. by rewrite Hfst.
  - rewrite Hc1. lia.
Qed.

Lemma resourceOffers_tracks_launches_witness :
  exists (used : list (Offer * TaskInfo)) (released : list Offer),
    driver (resourceOffers sample_env
              [sample_offer "a" (qc 2 1); sample_offer "b" (qc 1 2)]
              queued_world).2
    = (launch_call <$> used) ++ [release_call released]
    /\ NoDup (ti_task_id <$> used.*2).
Proof.
  destruct (resourceOffers_tracks_launches sample_env
              [sample_offer "a" (qc 2 1); sample_offer "b" (qc 1 2)]
              queued_world)
    as (used & released & Hdriver & Hnodup & _).
  exists used, released. split; [exact Hdriver|exact Hnodup].
Defined.

(** * The configuration and the persisted framework id *)

Section config_facts.
Implicit Types (c : Configuration) (rows : list Connection) (cid : string).

Lemma configuration_get_set c key :
configuration_has_option c key = true ->
exists text, mesos_options c !! key = Some text
             /\ configuration_get c key = Ok text.
Proof.
unfold configuration_has_option, configuration_get.
intros [text Htext]%bool_decide_eq_true. exists text. by rewrite Htext.
Qed.

Lemma configuration_get_unset c key :
configuration_has_option c key = false -> mesos_options c !! key = None.
Proof.
unfold configuration_has_option. intros Hno%bool_decide_eq_false.
by apply eq_None_not_Some.
Qed.

(** The name of the framework is always there: the one set or the
  default. *)
Lemma config_framework_connid_ok c :
config_framework_connid c
= Ok (FRAMEWORK_CONNID_PREFIX
      +:+ default DEFAULT_FRAMEWORK_NAME (mesos_options c !! "FRAMEWORK_NAME")).
Proof.
unfold config_framework_connid, config_framework_name.
destruct (configuration_has_option c "FRAMEWORK_NAME") eqn:Hset; simpl.
- destruct (configuration_get_set _ _ Hset) as (text & -> & ->). done.
- by rewrite (configuration_get_unset _ _ Hset).
Qed.

Lemma list_find_append rows cid (row : Connection) :
list_find (fun r => conn_id r = cid) rows = None ->
conn_id row = cid ->
list_find (fun r => conn_id r = cid) (rows ++ [row])
= Some (length rows, row)
/\ rows_beside cid (rows ++ [row]) = rows_beside cid rows
/\ rows_of cid rows = []
/\ rows_of cid (rows ++ [row]) = [row].
Proof.
intros Hnone Hrow. unfold rows_beside, rows_of.
induction rows as [|r rows IH]; simpl in *.
- rewrite !filter_cons, !filter_nil. repeat case_decide; simpl; first [done|congruence|lia].
- rewrite !filter_cons. destruct (decide (conn_id r = cid)) as [Hr|Hr];
    [done|]. simpl in Hnone.
  destruct (list_find _ rows) as [[j x]|] eqn:Hfind; [done|].
  destruct (IH eq_refl) as (-> & -> & -> & ->). simpl.
  repeat case_decide; simpl; first [done|congruence|lia].
Qed.

Lemma list_find_update rows cid : forall i (row row' : Connection),
list_find (fun r => conn_id r = cid) rows = Some (i, row) ->
conn_id row' = cid ->
list_find (fun r => conn_id r = cid) (<[i := row']> rows) = Some (i, row')
/\ rows_beside cid (<[i := row']> rows) = rows_beside cid rows
/\ length (rows_of cid (<[i := row']> rows)) = length (rows_of cid rows)
/\ rows_of cid rows <> [].
Proof.
unfold rows_beside, rows_of.
induction rows as [|r rows IH]; intros i row row' Hfind Hrow; [done|].
simpl in Hfind. destruct (decide (conn_id r = cid)) as [Hr|Hr].
- injection Hfind as <- <-. simpl. rewrite !filter_cons.
  repeat case_decide; simpl; first [done|congruence|lia].
- destruct (list_find _ rows) as [[j x]|] eqn:Hrest; [|done].
  simpl in Hfind. injection Hfind as <- <-. simpl.
  destruct (IH j x row' eq_refl Hrow) as (-> & Hb & Hl & Hne).
  rewrite !filter_cons, Hb. simpl.
  repeat case_decide; simpl; first [done|congruence|lia].
Qed.
End config_facts.

(** X19. The framework id given to [framework_id_for_failover] is what a
    later call without an id returns, and of ids given one after the other
    it is the last; the id is kept in a row under the [conn_id]
    [mesos_framework_] followed by the framework's name, which is made
    when there is none (then with the type [mesos_framework__id]) and
    otherwise is the first such row, changed in place, so that giving an id
    again adds no row. A call without an id changes nothing of the
    table. *)
Theorem framework_id_for_failover_round_trip
    (c : Configuration) (value : string) (rows : list Connection) :
  let stored := framework_id_for_failover c (Some value) rows in
  exists cid,
    config_framework_connid c = Ok cid
    /\ stored.1 = Ok None
    /\ framework_id_for_failover c None stored.2 = (Ok (Some value), stored.2)
    /\ length (rows_of cid stored.2) = Nat.max 1 (length (rows_of cid rows))
    /\ (rows_of cid rows = [] ->
          stored.2 = rows ++ [{| conn_id := cid;
                                 conn_type := "mesos_framework__id";
                                 extra := Some value |}])
    /\ (forall value',
          let again := framework_id_for_failover c (Some value') stored.2 in
          length again.2 = length stored.2
          /\ framework_id_for_failover c None again.2
             = (Ok (Some value'), again.2))
    /\ (forall r, (framework_id_for_failover c None rows).2 = rows
                  /\ (framework_id_for_failover c None rows).1 <> Err r).
Proof.
  simpl. eexists. split; [apply config_framework_connid_ok|].
  set (cid := FRAMEWORK_CONNID_PREFIX +:+ _).
  unfold framework_id_for_failover. rewrite config_framework_connid_ok.
  fold cid.
  assert (forall v rows',
    let stored' :=
      match list_find (fun row => conn_id row = cid) rows' with
      | Some (i, row) =>
          (Ok None : result (option string),
           <[i := {| conn_id := conn_id row; conn_type := conn_type row;
                     extra := Some v |}]> rows')
      | None =>
          (Ok None,
           rows' ++ [{| conn_id := cid;
                        conn_type := FRAMEWORK_CONNID_PREFIX +:+ "_id";
                        extra := Some v |}])
      end in
    stored'.1 = Ok None
    /\ (exists i row, list_find (fun row => conn_id row = cid) stored'.2
                      = Some (i, row) /\ extra row = Some v)
    /\ length (rows_of cid stored'.2) = Nat.max 1 (length (rows_of cid rows'))
    /\ (rows_of cid rows' = [] ->
          stored'.2 = rows' ++ [{| conn_id := cid;
                                   conn_type := "mesos_framework__id";
                                   extra := Some v |}])
    /\ (rows_of cid rows' <> [] -> length stored'.2 = length rows'))
    as Hstore.
  { intros v rows'. simpl.
    destruct (list_find _ rows') as [[i row]|] eqn:Hfind.
    - pose proof Hfind as Hrow. apply list_find_Some in Hrow as (_ & Hrow & _).
      destruct (list_find_update rows' cid i row
                  {| conn_id := conn_id row; conn_type := conn_type row;
                     extra := Some v |} Hfind Hrow)
        as (Hfind' & _ & Hlen & Hne).
      simpl. split_and!; [done|by eauto| |done|by rewrite length_insert].
      rewrite Hlen. destruct (rows_of cid rows'); [done|]. simpl. lia.
    - destruct (list_find_append rows' cid
                  {| conn_id := cid;
                     conn_type := FRAMEWORK_CONNID_PREFIX +:+ "_id";
                     extra := Some v |} Hfind eq_refl)
        as (Hfind' & _ & Hnone & Hone).
      simpl. split_and!; [done|by eauto| |done|done].
      by rewrite Hone, Hnone. }
  destruct (Hstore value rows) as (Hret & (i & row & Hfind & Hextra) & Hlen
                                   & Hnew & _).
  simpl in *.
  destruct (list_find _ rows) as [[i0 row0]|] eqn:Hfind0; simpl in *.
  - split_and!; [done|by rewrite Hfind, Hextra|done|done| |].
    + intros value'.
      destruct (Hstore value' (<[i0 := {| conn_id := conn_id row0;
                                          conn_type := conn_type row0;
                                          extra := Some value |}]> rows))
        as (_ & (j & row' & Hfind' & Hextra') & _ & _ & Hsame).
      simpl in *. rewrite Hfind in *. simpl in *. split.
      * apply Hsame. intros Hnil. rewrite Hnil in Hlen. simpl in Hlen. lia.
      * by rewrite Hfind', Hextra'.
    + intros r. by destruct (extra row0).
  - split_and!; [done|by rewrite Hfind, Hextra|done|done| |].
    + intros value'.
      destruct (Hstore value' (rows ++ [{| conn_id := cid;
                                           conn_type := FRAMEWORK_CONNID_PREFIX
                                                        +:+ "_id";
                                           extra := Some value |}]))
        as (_ & (j & row' & Hfind' & Hextra') & _ & _ & Hsame).
      simpl in *. rewrite Hfind in *. simpl in *. split.
      * apply Hsame. intros Hnil. rewrite Hnil in Hlen. simpl in Hlen. lia.
      * by rewrite Hfind', Hextra'.
    + done.
Qed.

Lemma framework_id_for_failover_round_trip_witness :
  let c := sample_configuration [("FRAMEWORK_NAME", "etl")] in
  framework_id_for_failover c None
    (framework_id_for_failover c (Some "framework-7") []).2
  = (Ok (Some "framework-7"),
     [{| conn_id := "mesos_framework_etl"; conn_type := "mesos_framework__id";
         extra := Some "framework-7" |}]).
Proof.
  intros c.
  destruct (framework_id_for_failover_round_trip c "framework-7" [])
    as (cid & Hcid & _ & Hget & _ & Hnew & _).
  injection Hcid as <-. rewrite Hget. f_equal.
Defined.

Section config_isolation.
Implicit Types (c : Configuration) (rows : list Connection) (cid : string).

Lemma config_framework_name_ok c :
config_framework_name c
= Ok (default DEFAULT_FRAMEWORK_NAME (mesos_options c !! "FRAMEWORK_NAME")).
Proof.
unfold config_framework_name.
destruct (configuration_has_option c "FRAMEWORK_NAME") eqn:Hset; simpl.
- destruct (configuration_get_set _ _ Hset) as (text & -> & ->). done.
- by rewrite (configuration_get_unset _ _ Hset).
Qed.

Lemma list_find_rows_of cid rows :
snd <$> list_find (fun row => conn_id row = cid) rows
= head (rows_of cid rows).
Proof.
unfold rows_of. induction rows as [|r rows IH]; [done|].
simpl. rewrite filter_cons. destruct (decide (conn_id r = cid)); [done|].
rewrite <- IH. by destruct (list_find _ rows) as [[i x]|].
Qed.

(** What a call without an id returns. *)
Lemma framework_id_for_failover_get c rows :
framework_id_for_failover c None rows
= (Ok (head (rows_of
               (FRAMEWORK_CONNID_PREFIX
                +:+ default DEFAULT_FRAMEWORK_NAME
                      (mesos_options c !! "FRAMEWORK_NAME")) rows)
       ≫= extra), rows).
Proof.
unfold framework_id_for_failover.
rewrite config_framework_connid_ok, <- list_find_rows_of.
by destruct (list_find _ rows) as [[i x]|].
Qed.

Lemma rows_of_insert cid rows : forall i (row row' : Connection),
rows !! i = Some row ->
conn_id row <> cid -> conn_id row' <> cid ->
rows_of cid (<[i := row']> rows) = rows_of cid rows.
Proof.
unfold rows_of.
induction rows as [|r rows IH]; intros i row row' Hi Hrow Hrow'; [done|].
destruct i as [|i]; simpl in *.
- injection Hi as ->. rewrite !filter_cons.
  by rewrite !decide_False by done.
- rewrite !filter_cons. by rewrite (IH i row row').
Qed.

Lemma rows_of_store c value rows cid cid' :
config_framework_connid c = Ok cid ->
cid' <> cid ->
rows_of cid' (framework_id_for_failover c (Some value) rows).2
= rows_of cid' rows.
Proof.
intros Hcid Hne. unfold framework_id_for_failover. rewrite Hcid.
destruct (list_find _ rows) as [[i row]|] eqn:Hfind; simpl.
- apply list_find_Some in Hfind as (Hi & Hrow & _).
  apply (rows_of_insert cid' rows i row); simpl; congruence.
- unfold rows_of. rewrite filter_app, filter_cons, filter_nil. simpl.
  rewrite decide_False by done. by rewrite app_nil_r.
Qed.
End config_isolation.

(** X20. Frameworks of different names do not share their persisted id:
    giving an id for one configuration leaves every row kept under another
    [conn_id] as it is, in the same order, and with it what a call without
    an id returns for a configuration whose framework name is another
    one (a name that is not set being the default name [airflow]). *)
Theorem framework_id_for_failover_isolated
    (c c' : Configuration) (value : string) (rows : list Connection) :
  config_framework_name c' <> config_framework_name c ->
  let stored := (framework_id_for_failover c (Some value) rows).2 in
  (framework_id_for_failover c' None stored).1
  = (framework_id_for_failover c' None rows).1
  /\ (forall cid cid',
        config_framework_connid c = Ok cid -> cid' <> cid ->
        rows_of cid' stored = rows_of cid' rows).
Proof.
  intros Hname. simpl. split.
  - rewrite !framework_id_for_failover_get. simpl.
    rewrite (rows_of_store c value rows _ _ (config_framework_connid_ok c));
      [done|].
    rewrite !config_framework_name_ok in Hname.
    unfold FRAMEWORK_CONNID_PREFIX. intros Heq.
    apply Hname. f_equal. simpl in Heq. by simplify_eq.
  - intros cid cid' Hcid Hne. by apply (rows_of_store c value rows cid cid').
Qed.

Lemma framework_id_for_failover_isolated_witness :
  let c := sample_configuration [("FRAMEWORK_NAME", "etl")] in
  let c' := sample_configuration [] in
  let rows := [{| conn_id := "mesos_framework_airflow";
                  conn_type := "mesos_framework__id";
                  extra := Some "framework-1" |}] in
  (framework_id_for_failover c' None
     (framework_id_for_failover c (Some "framework-7") rows).2).1
  = Ok (Some "framework-1").
Proof.
  intros c c' rows.
  destruct (framework_id_for_failover_isolated c c' "framework-7" rows)
    as (Hget & _).
  - vm_compute. discriminate.
  - rewrite Hget. reflexivity.
Defined.

(** X21. [config_framework_authenticate] returns no credential, and looks
    at neither the principal nor the secret, when the option
    [AUTHENTICATE] is not set or reads as false, so that a principal set
    without a secret is then no error. When the option reads as true it
    returns the principal and the secret when both are set, and raises
    when one is missing, naming the principal when both are. When the
    option is set to a text that does not read as a truth value, the
    library's exception comes out, whatever else is set. *)
Theorem config_framework_authenticate_cases (c : Configuration) :
  let options := mesos_options c in
  let enabled := options !! "AUTHENTICATE" ≫= fun text => Some (as_boolean c text) in
  (enabled = None \/ enabled = Some (Ok false) ->
     config_framework_authenticate c = Ok None)
  /\ (forall e, enabled = Some (Err e) ->
        config_framework_authenticate c = Err e)
  /\ (enabled = Some (Ok true) ->
        match options !! "DEFAULT_PRINCIPAL", options !! "DEFAULT_SECRET" with
        | Some principal, Some secret =>
            config_framework_authenticate c = Ok (Some (principal, secret))
        | None, _ =>
            config_framework_authenticate c
            = Err (GenericException
                     "mesos.default_principal not provided in authenticated mode")
        | Some _, None =>
            config_framework_authenticate c
            = Err (GenericException
                     "mesos.default_secret not provided in authenticated mode")
        end).
Proof.
  simpl. unfold config_framework_authenticate, configuration_getboolean,
    configuration_get, configuration_has_option.
  destruct (mesos_options c !! "AUTHENTICATE") as [text|] eqn:Hauth; simpl;
    [|split_and!; done].
  destruct (as_boolean c text) as [[|]|e]; simpl.
  - split_and!; [by intros [|]|done|intros _].
    destruct (mesos_options c !! "DEFAULT_PRINCIPAL") as [principal|];
      simpl; [|done].
    by destruct (mesos_options c !! "DEFAULT_SECRET") as [secret|].
  - split_and!; done.
  - split_and!; [by intros [|]|by intros ? [= ->]|done].
Qed.

Lemma config_framework_authenticate_cases_witness :
  config_framework_authenticate
    (sample_configuration [("AUTHENTICATE", "False");
                           ("DEFAULT_PRINCIPAL", "airflow")])
  = Ok None.
Proof.
  destruct (config_framework_authenticate_cases
              (sample_configuration [("AUTHENTICATE", "False");
                                     ("DEFAULT_PRINCIPAL", "airflow")]))
    as (Hoff & _).
  apply Hoff. right. reflexivity.
Defined.

(** * From submission to launch *)

Section submit_launch.
Implicit Types (w : World) (env : Env) (offers : list Offer).

End submit_launch.



(** * The course of a round of offer matching *)

Section round_course.
Implicit Types (w : World) (env : Env) (offers avail : list Offer).

(** One call of [launch_current_task], by what the requirements of the
  current task, the filter and the date of the key come to. *)
Lemma launch_current_task_trace env offers w item :
current_task w = Some item ->
let r := launch_current_task env offers w in
scheduler_tasks r.2 = scheduler_tasks w
/\ match requirements env (item_instance item) with
   | Err e =>
       r.1 = Raise e /\ driver r.2 = driver w
       /\ attempts (log r.2) = attempts (log w)
       /\ item_key <$> current_task r.2 = Some (item_key item)
   | Ok needed =>
       attempts (log r.2) = attempts (log w) ++ [item_key item]
       /\ match find_offer offers needed with
          | Err e =>
              r.1 = Raise e /\ driver r.2 = driver w
              /\ item_key <$> current_task r.2 = Some (item_key item)
          | Ok None =>
              r.1 = Return None /\ driver r.2 = driver w
              /\ item_key <$> current_task r.2 = Some (item_key item)
          | Ok (Some o) =>
              match strftime (k_execution_date (item_key item)) with
              | Err e =>
                  r.1 = Raise e /\ driver r.2 = driver w
                  /\ item_key <$> current_task r.2 = Some (item_key item)
              | Ok _ =>
                  exists task,
                    r.1 = Return (Some o)
                    /\ driver r.2 = driver w ++ [launchTasks [o_id o] [task]]
              end
          end
   end.
Proof.
intros Hc.
destruct (get_operator_mesos_resources_run env w item Hc)
  as (Hout & item' & msgs & Hw & Hkey & _ & _ & Hatt).
destruct item as [[key command] inst].
unfold item_instance, item_key in *. simpl in *.
unfold launch_current_task. run. rewrite Hc. simpl.
destruct (get_operator_mesos_resources env inst w) as [out w0].
simpl in Hout, Hw. subst out w0.
destruct (requirements env inst) as [needed|e]; simpl.
2:{ rewrite attempts_app, Hatt, app_nil_r, Hkey. done. }
destruct (find_offer offers needed) as [[o|]|e]; simpl.
- rewrite build_task_info_run. simpl.
  destruct (strftime (k_execution_date key)) as [stamp|e]; simpl.
  + rewrite !attempts_app, Hatt. simpl. rewrite !app_nil_r.
    split_and!; [done..|]. eexists. split; reflexivity.
  + rewrite !attempts_app, Hatt. simpl. rewrite !app_nil_r, Hkey. done.
- rewrite !attempts_app, Hatt. simpl. rewrite !app_nil_r, Hkey. done.
- rewrite !attempts_app, Hatt. simpl. rewrite !app_nil_r, Hkey. done.
Qed.

Lemma find_offer_first_fit offers needed o :
find_offer offers needed = Ok (Some o) ->
exists rest,
  first_fit needed offers o rest /\ list_remove o offers = Ok rest
  /\ length offers = S (length rest).
Proof.
intros Hfind.
destruct (find_first_some _ _ _ Hfind) as (before & after & -> & Ho & Hb).
exists (before ++ after). split_and!.
- by exists before, after.
- apply list_remove_first. intros Hin. specialize (Hb _ Hin).
  unfold offer_filter_of in *. congruence.
- rewrite !length_app. simpl. lia.
Qed.

Lemma round_stop_done env items_left pool_left w' :
items_left = [] \/ pool_left = [] ->
round_stop env items_left pool_left None 0 w'.
Proof.
unfold round_stop. intros [-> | ->]; [done|]. by destruct items_left.
Qed.

Lemma round_stop_fields env items_left pool_left raised extra w1 w2 :
current_task w2 = current_task w1 ->
scheduler_tasks w2 = scheduler_tasks w1 ->
round_stop env items_left pool_left raised extra w1 ->
round_stop env items_left pool_left raised extra w2.
Proof.
intros Hc Hq. unfold round_stop. by rewrite Hc, Hq.
Qed.

(** The course of the loop from [w] with the pool [avail]. *)
Lemma resourceOffers_loop_course env fuel : forall avail w,
length avail <= fuel ->
let r := resourceOffers_loop fuel env avail w in
exists (used : list (Offer * TaskInfo)) (pool_left : list Offer)
       (extra : nat) (raised : option Exception),
  r.1 = match raised with
        | None => Return pool_left
        | Some e => Raise e
        end
  /\ driver r.2 = driver w ++ (launch_call <$> used)
  /\ fifo_first_fits env (pending w) avail used.*1 pool_left
  /\ attempts (log r.2)
     = attempts (log w)
       ++ take (length used + extra) (item_key <$> pending w)
  /\ item_key <$> pending r.2
     = drop (length used) (item_key <$> pending w)
  /\ round_stop env (drop (length used) (pending w)) pool_left raised extra
       r.2.
Proof.
induction fuel as [|fuel IH]; intros avail w Hlen.
{ destruct avail; [|simpl in Hlen; lia]. cbv zeta.
  rewrite resourceOffers_loop_stops
    by (unfold loop_condition; simpl; by rewrite andb_false_r).
  exists [], [], 0, None. simpl. rewrite ?app_nil_r, ?drop_0.
  split_and!; try done. apply round_stop_done. by right. }
cbv zeta. rewrite resourceOffers_loop_unfold.
destruct (loop_condition avail w) eqn:Hcond.
2:{ exists [], avail, 0, None. simpl. rewrite ?app_nil_r, ?drop_0.
    split_and!; try done. apply round_stop_done.
    destruct (pending w) eqn:Hp; [by left|].
    destruct avail; [by right|].
    assert (loop_condition (o :: avail) w = true) as Htrue
      by (apply loop_condition_pending; by rewrite Hp).
    congruence. }
apply loop_condition_pending in Hcond as [Hpend Havail].
destruct (pending w) as [|item rest] eqn:Hp; [done|].
destruct avail as [|a avail']; [done|].
destruct (take_current_head _ _ _ Hp) as (Hc & Hq & Hd & _ & _).
destruct (take_current_fields w) as (_ & _ & Hl).
pose proof (launch_current_task_trace env (a :: avail') (take_current w)
              item Hc) as Htrace.
simpl in Htrace. destruct Htrace as [Hq1 Htrace].
rewrite Hq in Hq1. rewrite Hd, Hl in Htrace.
set (pool := a :: avail') in *.
destruct (requirements env (item_instance item)) as [needed|e] eqn:Hreq.
2:{ destruct Htrace as (Hout & Hdrv & Hatt & Hkey).
    destruct (launch_current_task env pool (take_current w)) as [out w1].
    simpl in *. subst out.
    exists [], pool, 0, (Some e). simpl. rewrite ?app_nil_r, ?drop_0.
    split_and!; try done.
    - unfold pending. rewrite Hq1.
      destruct (current_task w1) as [c|]; [|done].
      simpl in *. by injection Hkey as ->.
    - unfold round_stop, pool. by rewrite Hreq. }
destruct Htrace as [Hatt Htrace].
destruct (find_offer pool needed) as [[o|]|e] eqn:Hfind.
- destruct (find_offer_first_fit _ _ _ Hfind) as (left & Hfit & Hrem & Hlen').
  destruct (strftime (k_execution_date (item_key item))) as [stamp|e]
    eqn:Hdate.
  + destruct Htrace as (task & Hout & Hdrv).
    destruct (launch_current_task env pool (take_current w)) as [out w1].
    simpl in *. subst out. rewrite Hrem.
    destruct (IH left (set_current_task None w1))
      as (used & pool_left & extra & raised & Hret & Hdrv2 & Hfits & Hatt2
          & Hkeys2 & Hstop); [lia|].
    assert (pending (set_current_task None w1) = rest) as Hp1
      by (unfold pending; simpl; by rewrite Hq1).
    rewrite Hp1 in Hfits, Hatt2, Hkeys2, Hstop.
    simpl in Hdrv2, Hatt2.
    exists ((o, task) :: used), pool_left, extra, raised. simpl.
    split_and!; [done| | | |done|done].
    * by rewrite Hdrv2, Hdrv, <- app_assoc.
    * by exists needed, left.
    * by rewrite Hatt2, Hatt, <- app_assoc.
  + destruct Htrace as (Hout & Hdrv & Hkey).
    destruct (launch_current_task env pool (take_current w)) as [out w1].
    simpl in *. subst out.
    exists [], pool, 1, (Some e). simpl. rewrite ?app_nil_r, ?drop_0.
    split_and!; try done.
    * unfold pending. rewrite Hq1.
      destruct (current_task w1) as [c|]; [|done].
      simpl in *. by injection Hkey as ->.
    * unfold round_stop, pool. rewrite Hreq. split; [done|].
      right. right. by exists o, left, e.
- destruct Htrace as (Hout & Hdrv & Hkey).
  destruct (launch_current_task env pool (take_current w)) as [out w1].
  simpl in *. subst out.
  destruct (current_task w1) as [c|] eqn:Hc1; [|done].
  simpl in Hkey. injection Hkey as Hkey. simpl.
  exists [], pool, 1, None. simpl. rewrite ?app_nil_r, ?drop_0.
  split_and!; try done.
  + rewrite attempts_app. simpl. by rewrite app_nil_r.
  + unfold pending. simpl. rewrite Hc1, Hq1. simpl. f_equal. exact Hkey.
  + unfold round_stop, pool. rewrite Hreq. split; [done|]. left.
    split_and!; [|done|by rewrite Hc1; simpl; rewrite Hkey|done].
    exact (proj1 (find_first_none (offer_filter_of needed) pool) Hfind).
- destruct Htrace as (Hout & Hdrv & Hkey).
  destruct (launch_current_task env pool (take_current w)) as [out w1].
  simpl in *. subst out.
  exists [], pool, 1, (Some e). simpl. rewrite ?app_nil_r, ?drop_0.
  split_and!; try done.
  + unfold pending. rewrite Hq1.
    destruct (current_task w1) as [c|]; [|done].
    simpl in *. by injection Hkey as ->.
  + unfold round_stop, pool. rewrite Hreq. split; [done|].
    right. left. apply find_first_err in Hfind
      as (before & o & after & Hpool & Hb & Ho).
    by exists before, o, after, e.
Qed.

(** The course of a whole round. *)
Lemma resourceOffers_course env offers w :
let body := (resourceOffers_try env offers w).1 in
let w' := (resourceOffers env offers w).2 in
exists (used : list (Offer * TaskInfo)) (pool_left : list Offer)
       (extra : nat) (raised : option Exception),
  body = match raised with
         | None => Return tt
         | Some e => Raise e
         end
  /\ driver w'
     = driver w ++ (launch_call <$> used)
       ++ [launchTasks (o_id <$> match raised with
                                 | None => pool_left
                                 | Some _ => offers
                                 end) []]
  /\ fifo_first_fits env (pending w) offers used.*1 pool_left
  /\ attempts (log w')
     = attempts (log w)
       ++ take (length used + extra) (item_key <$> pending w)
  /\ item_key <$> pending w'
     = drop (length used) (item_key <$> pending w)
  /\ extra <= 1
  /\ round_stop env (drop (length used) (pending w)) pool_left raised extra
       w'.
Proof.
simpl. unfold resourceOffers, try_except. rewrite resourceOffers_try_run.
destruct (round_start_fields offers w) as (Hp0 & Hd0 & _ & Ha0).
destruct (resourceOffers_loop_course env (length offers) offers
            (round_start offers w) (Nat.le_refl _))
  as (used & pool_left & extra & raised & Hret & Hdrv & Hfits & Hatt
      & Hkeys & Hstop).
rewrite Hp0 in Hfits, Hatt, Hkeys, Hstop. rewrite Hd0 in Hdrv.
rewrite Ha0 in Hatt.
assert (extra <= 1) as Hextra.
{ unfold round_stop in Hstop.
  destruct (drop (length used) (pending w)) as [|item rest];
    [destruct Hstop; lia|].
  destruct pool_left; [destruct Hstop; lia|].
  destruct (requirements env (item_instance item)); destruct Hstop; lia. }
exists used, pool_left, extra, raised.
destruct (resourceOffers_loop _ _ _ _) as [out w1]. simpl in *. subst out.
destruct raised as [e|]; simpl.
- run. rewrite attempts_app. simpl. rewrite app_nil_r.
  split_and!; try done;
    first [by rewrite Hdrv, <- app_assoc
          |by apply (round_stop_fields _ _ _ _ _ w1)].
- split_and!; try done;
    first [by rewrite Hdrv, <- app_assoc
          |by apply (round_stop_fields _ _ _ _ _ w1)].
Qed.
End round_course.

(** C1. In every round of offer matching: (1) [find_offer] scans the pool
    in the order of delivery and returns the first offer the filter of the
    needed resources accepts, every offer before it having been rejected,
    and it returns nothing exactly when every offer is rejected; (2) in a
    turn of the loop in which every offer of the pool is rejected for the
    current item, the loop ends at once with the pool whole, having
    attempted that item alone and asked nothing of the driver, the item is
    still the current task and the queue behind it is untouched; (3) the
    round as a whole takes the pending items in their order, the current
    task first and then the queue from its head: the offers it launches
    on, in the order of the driver's calls, are for the first pending item
    the first offer of the batch that the filter of its requirements
    accepts, every offer delivered before it being rejected, for the
    second item the first such offer of what is left of the batch, and so
    on; the items attempted are the launched ones and at most one more,
    the next in order; the items still pending afterwards are the pending
    ones without the launched ones, in the same order; and the matching
    stops only when no item or no offer is left, or at the first item left
    because its requirements cannot be resolved, because the filter or the
    building of the task raises, or because no offer left fits it: then
    every offer left is rejected for it, the body of the round returns, no
    later item is attempted, the item is the current task after the round
    and the queue behind it is as it was. *)
Theorem resourceOffers_fifo_first_fit :
  (forall (offers : list Offer) (needed : list MesosResource) (o : Offer),
     find_offer offers needed = Ok (Some o) ->
     exists before after,
       offers = before ++ o :: after
       /\ check (offer_filter_of needed) o = Ok true
       /\ forall o', o' ∈ before ->
            check (offer_filter_of needed) o' = Ok false)
  /\ (forall (offers : list Offer) (needed : list MesosResource),
       find_offer offers needed = Ok None <->
       forall o, o ∈ offers -> check (offer_filter_of needed) o = Ok false)
  /\ (forall (env : Env) (fuel : nat) (avail : list Offer) (w : World)
        (item : WorkItem) (needed : list MesosResource) (w1 : World),
       current_task (take_current w) = Some item ->
       avail <> [] ->
       get_operator_mesos_resources env (item_instance item) (take_current w)
       = (Return needed, w1) ->
       (forall o, o ∈ avail -> check (offer_filter_of needed) o = Ok false) ->
       let r := resourceOffers_loop (S fuel) env avail w in
       r.1 = Return avail
       /\ item_key <$> current_task r.2 = Some (item_key item)
       /\ scheduler_tasks r.2 = scheduler_tasks (take_current w)
       /\ driver r.2 = driver w
       /\ attempts (log r.2) = attempts (log w) ++ [item_key item])
  /\ (forall (env : Env) (offers : list Offer) (w : World),
       let body := (resourceOffers_try env offers w).1 in
       let w' := (resourceOffers env offers w).2 in
       exists (used : list (Offer * TaskInfo)) (pool_left : list Offer)
              (extra : nat) (raised : option Exception),
         body = match raised with
                | None => Return tt
                | Some e => Raise e
                end
         /\ driver w'
            = driver w ++ (launch_call <$> used)
              ++ [launchTasks (o_id <$> match raised with
                                        | None => pool_left
                                        | Some _ => offers
                                        end) []]
         /\ fifo_first_fits env (pending w) offers used.*1 pool_left
         /\ attempts (log w')
            = attempts (log w)
              ++ take (length used + extra) (item_key <$> pending w)
         /\ item_key <$> pending w'
            = drop (length used) (item_key <$> pending w)
         /\ extra <= 1
         /\ round_stop env (drop (length used) (pending w)) pool_left raised
              extra w').
Proof.
  split_and!.
  - intros offers needed o. apply find_first_some.
  - intros offers needed. apply find_first_none.
  - intros env fuel avail w item needed w1 Hcur Havail Hres Hall r.
    destruct (resourceOffers_loop_no_offer env fuel avail w item needed w1
                Hcur Havail Hres Hall) as (Hrun & Hc & Hq & Hdrv & Hatt).
    subst r. rewrite Hrun. simpl. rewrite attempts_app, Hatt. done.
  - intros env offers w. apply resourceOffers_course.
Qed.

Lemma resourceOffers_fifo_first_fit_witness :
  (let pool := [sample_offer "b" (qc 1 2)] in
   let w := set_scheduler_tasks [sample_item "load"; sample_item "extract"]
              empty_world in
   let r := resourceOffers_loop 1 sample_env pool w in
   r.1 = Return pool
   /\ item_key <$> current_task r.2 = Some (sample_key "load")
   /\ scheduler_tasks r.2 = [sample_item "extract"]
   /\ driver r.2 = []
   /\ attempts (log r.2) = [sample_key "load"])
  /\ (let offers := [sample_offer "a" (qc 2 1); sample_offer "b" (qc 1 2)] in
      let w' := (resourceOffers sample_env offers queued_world).2 in
      exists (used : list (Offer * TaskInfo)) (pool_left : list Offer),
        driver w'
        = (launch_call <$> used) ++ [launchTasks (o_id <$> pool_left) []]
        /\ fifo_first_fits sample_env (pending queued_world) offers used.*1
             pool_left
        /\ item_key <$> current_task w' = Some (sample_key "load")).
Proof.
  destruct resourceOffers_fifo_first_fit as (_ & _ & Hstop & Hround).
  split.
  - intros pool w.
    eapply (Hstop sample_env 0 pool w (sample_item "load")).
    + reflexivity.
    + done.
    + vm_compute. reflexivity.
    + intros o ->%list_elem_of_singleton. vm_compute. reflexivity.
  - intros offers w'.
    destruct (Hround sample_env offers queued_world)
      as (used & pool_left & extra & raised & Hbody & Hdriver & Hfits & _).
    assert (raised = None) as ->.
    { destruct raised; [|done]. vm_compute in Hbody. discriminate. }
    exists used, pool_left. split_and!; [exact Hdriver|exact Hfits|].
    vm_compute. reflexivity.
Defined.

(** A round in which the second offer of the batch is the first that fits:
    the item is launched on it although the third offer fits as well, and
    the first and the third offer are given back. *)
Example round_first_fit_in_order :
  let offers := [sample_offer "a" (qc 1 2); sample_offer "b" (qc 8 1);
                 sample_offer "c" (qc 8 1)] in
  let w := set_scheduler_tasks [sample_item "load"] empty_world in
  call_summary <$> driver (resourceOffers sample_env offers w).2
  = [(["b"], ["airflow:0:etl:load:20170309140500000000"]); (["a"; "c"], [])].
Proof. vm_compute. reflexivity. Qed.
